(** * todolist: the task service and its persistence store

    A shallow embedding of the Go packages [internal/models],
    [internal/errors], [internal/storage] and [internal/todolist].

    Conventions.
    - A Go [int] is a [Z] in the 64-bit signed range; [++] and [--] wrap.
    - A Go [string] and a [[]byte] are a [string]: a sequence of 8-bit
      characters, the bytes of the Go value.
    - A Go slice is a [slice]: [nil] or a sequence of elements.  The task
      service owns its slice exclusively ([ListTasks] hands out a copy and
      [AddTask] the address of a local variable), so backing arrays are not
      modelled.
    - Effects are explicit: the in-memory list and the state of the storage
      are passed in and returned. *)

From Stdlib Require Import ZArith Ascii String List Bool Lia Sorted.
From stdpp Require Import base tactics option list strings gmap.

Local Open Scope Z_scope.

(** ** Machine integers *)

Module GoInt.

Definition min_int : Z := - 2 ^ 63.
Definition max_int : Z := 2 ^ 63 - 1.

(** The values of Go's [int] on a 64-bit platform. *)
Definition in_range (z : Z) : Prop := min_int <= z <= max_int.

(** Two's complement wrap-around of an arithmetic result. *)
Definition wrap (z : Z) : Z := (z + 2 ^ 63) mod 2 ^ 64 - 2 ^ 63.

(** [x++] and [x--] *)
Definition incr (z : Z) : Z := wrap (z + 1).
Definition decr (z : Z) : Z := wrap (z - 1).

End GoInt.

(** ** Bytes, runes and white space (packages utf8, unicode, strings) *)

Module utf8.

Definition byteZ (c : ascii) : Z := Z.of_N (N_of_ascii c).

Definition RuneError : Z := 0xFFFD.
Definition RuneSelf : Z := 0x80.
Definition UTFMax : nat := 4.

(** The table [first] together with [acceptRanges]: for a lead byte of a
    multi-byte sequence, the length of the sequence and the range accepted
    for the second byte; [None] for ASCII and for bytes that start no
    sequence. *)
Definition lead (b : Z) : option (nat * Z * Z) :=
  if (0xC2 <=? b) && (b <=? 0xDF) then Some (2%nat, 0x80, 0xBF)
  else if b =? 0xE0 then Some (3%nat, 0xA0, 0xBF)
  else if (0xE1 <=? b) && (b <=? 0xEC) then Some (3%nat, 0x80, 0xBF)
  else if b =? 0xED then Some (3%nat, 0x80, 0x9F)
  else if (0xEE <=? b) && (b <=? 0xEF) then Some (3%nat, 0x80, 0xBF)
  else if b =? 0xF0 then Some (4%nat, 0x90, 0xBF)
  else if (0xF1 <=? b) && (b <=? 0xF3) then Some (4%nat, 0x80, 0xBF)
  else if b =? 0xF4 then Some (4%nat, 0x80, 0x8F)
  else None.

(** A continuation byte, [locb <= b <= hicb]. *)
Definition cont (b : Z) : bool := (0x80 <=? b) && (b <=? 0xBF).

(** [utf8.DecodeRuneInString]: the first rune of [s] and its width in
    bytes; [(RuneError, 1)] on an invalid or truncated sequence and
    [(RuneError, 0)] on the empty string. *)
Definition DecodeRune (s : list ascii) : Z * nat :=
  match s with
  | [] => (RuneError, 0%nat)
  | c0 :: rest =>
    let s0 := byteZ c0 in
    if s0 <? RuneSelf then (s0, 1%nat)
    else
      match lead s0 with
      | None => (RuneError, 1%nat)
      | Some (sz, lo, hi) =>
        if (length s <? sz)%nat then (RuneError, 1%nat)
        else
          match rest with
          | [] => (RuneError, 1%nat)
          | c1 :: rest1 =>
            let s1 := byteZ c1 in
            if (s1 <? lo) || (hi <? s1) then (RuneError, 1%nat)
            else if (sz <=? 2)%nat then
              (Z.lor (Z.shiftl (Z.land s0 0x1F) 6) (Z.land s1 0x3F), 2%nat)
            else
              match rest1 with
              | [] => (RuneError, 1%nat)
              | c2 :: rest2 =>
                let s2 := byteZ c2 in
                if negb (cont s2) then (RuneError, 1%nat)
                else if (sz <=? 3)%nat then
                  (Z.lor (Z.lor (Z.shiftl (Z.land s0 0x0F) 12)
                                (Z.shiftl (Z.land s1 0x3F) 6))
                         (Z.land s2 0x3F), 3%nat)
                else
                  match rest2 with
                  | [] => (RuneError, 1%nat)
                  | c3 :: _ =>
                    let s3 := byteZ c3 in
                    if negb (cont s3) then (RuneError, 1%nat)
                    else
                      (Z.lor (Z.lor (Z.lor (Z.shiftl (Z.land s0 0x07) 18)
                                           (Z.shiftl (Z.land s1 0x3F) 12))
                                    (Z.shiftl (Z.land s2 0x3F) 6))
                             (Z.land s3 0x3F), 4%nat)
                  end
              end
          end
      end
  end.

(** [utf8.RuneStart]: not a continuation byte. *)
Definition RuneStart (c : ascii) : bool := negb (Z.land (byteZ c) 0xC0 =? 0x80).

(** The backward loop of [DecodeLastRuneInString], which looks for the
    start of the last rune among the [lim] bytes before the last one:
    [back] is the string before its last byte, reversed, and the result is
    the number of its bytes between [start] and the last byte ([start] runs
    one byte past the limit when no start is found). *)
Fixpoint scan_start (back : list ascii) (lim : nat) : nat :=
  match lim with
  | O => 1%nat
  | S lim' =>
    match back with
    | [] => 0%nat
    | c :: back' => if RuneStart c then 1%nat else S (scan_start back' lim')
    end
  end.

(** [utf8.DecodeLastRuneInString]: the last rune of [s] and its width. *)
Definition DecodeLastRune (s : list ascii) : Z * nat :=
  match rev s with
  | [] => (RuneError, 0%nat)
  | c :: back =>
    if byteZ c <? RuneSelf then (byteZ c, 1%nat)
    else
      let k := S (Nat.min (scan_start back (UTFMax - 1)) (length back)) in
      let '(r, size) := DecodeRune (drop (length s - k) s) in
      if (size =? k)%nat then (r, size) else (RuneError, 1%nat)
  end.

Definition byte (z : Z) : ascii := ascii_of_N (Z.to_N z).

(** [utf8.EncodeRune]; a rune that is out of range or a surrogate is
    written as [RuneError]. *)
Definition EncodeRune (r : Z) : list ascii :=
  if (0 <=? r) && (r <=? 0x7F) then [byte r]
  else if (0 <=? r) && (r <=? 0x7FF) then
    [byte (Z.lor 0xC0 (Z.shiftr r 6)); byte (Z.lor 0x80 (Z.land r 0x3F))]
  else if ((0 <=? r) && (r <? 0xD800)) || ((0xDFFF <? r) && (r <=? 0xFFFF)) then
    [byte (Z.lor 0xE0 (Z.shiftr r 12));
     byte (Z.lor 0x80 (Z.land (Z.shiftr r 6) 0x3F));
     byte (Z.lor 0x80 (Z.land r 0x3F))]
  else if (0xFFFF <? r) && (r <=? 0x10FFFF) then
    [byte (Z.lor 0xF0 (Z.shiftr r 18));
     byte (Z.lor 0x80 (Z.land (Z.shiftr r 12) 0x3F));
     byte (Z.lor 0x80 (Z.land (Z.shiftr r 6) 0x3F));
     byte (Z.lor 0x80 (Z.land r 0x3F))]
  else [byte 0xEF; byte 0xBF; byte 0xBD].

(** [utf8.ValidString]: no byte of [s] decodes to an encoding error.  The
    first argument counts the bytes still to skip in the current rune. *)
Fixpoint valid_loop (pending : nat) (s : list ascii) : bool :=
  match s with
  | [] => true
  | c :: s' =>
    match pending with
    | S p => valid_loop p s'
    | O =>
      let '(r, size) := DecodeRune s in
      if (r =? RuneError) && (size =? 1)%nat then false
      else valid_loop (size - 1) s'
    end
  end.

Definition ValidString (s : string) : bool :=
  valid_loop 0 (list_ascii_of_string s).

End utf8.

Module unicode.

Definition MaxLatin1 : Z := 0xFF.

(** [unicode.IsSpace]: the Latin-1 cases of the switch, then the
    [White_Space] range table above Latin-1. *)
Definition IsSpace (r : Z) : bool :=
  if (0 <=? r) && (r <=? MaxLatin1) then
    (r =? 0x09) || (r =? 0x0A) || (r =? 0x0B) || (r =? 0x0C) || (r =? 0x0D)
    || (r =? 0x20) || (r =? 0x85) || (r =? 0xA0)
  else
    (r =? 0x1680) || ((0x2000 <=? r) && (r <=? 0x200A))
    || ((0x2028 <=? r) && (r <=? 0x2029)) || (r =? 0x202F) || (r =? 0x205F)
    || (r =? 0x3000).

End unicode.

Module strings.

Import utf8.

(** The table [asciiSpace]. *)
Definition asciiSpace (c : ascii) : bool :=
  let b := byteZ c in
  (b =? 0x09) || (b =? 0x0A) || (b =? 0x0B) || (b =? 0x0C) || (b =? 0x0D)
  || (b =? 0x20).

(** [indexFunc s f truth]: the loop [for i, r := range s], on the rest of
    the string from byte [i] on.  Every iteration consumes at least one
    byte, so the length of the string is enough fuel. *)
Fixpoint indexFunc_loop (f : Z -> bool) (truth : bool) (fuel : nat)
    (rest : list ascii) (i : Z) : Z :=
  match fuel with
  | O => -1
  | S fuel' =>
    match rest with
    | [] => -1
    | _ :: _ =>
      let '(r, size) := DecodeRune rest in
      if Bool.eqb (f r) truth then i
      else indexFunc_loop f truth fuel' (drop size rest) (i + Z.of_nat size)
    end
  end.

Definition indexFunc (s : list ascii) (f : Z -> bool) (truth : bool) : Z :=
  indexFunc_loop f truth (length s) s 0.

(** [lastIndexFunc s f truth]: the loop [for i := len(s); i > 0;]. *)
Fixpoint lastIndexFunc_loop (f : Z -> bool) (truth : bool) (fuel : nat)
    (s : list ascii) (i : nat) : Z :=
  match fuel with
  | O => -1
  | S fuel' =>
    match i with
    | O => -1
    | S _ =>
      let '(r, size) := DecodeLastRune (take i s) in
      let i' := (i - size)%nat in
      if Bool.eqb (f r) truth then Z.of_nat i'
      else lastIndexFunc_loop f truth fuel' s i'
    end
  end.

Definition lastIndexFunc (s : list ascii) (f : Z -> bool) (truth : bool) : Z :=
  lastIndexFunc_loop f truth (length s) s (length s).

Definition TrimLeftFunc (s : list ascii) (f : Z -> bool) : list ascii :=
  let i := indexFunc s f false in
  if i =? -1 then [] else drop (Z.to_nat i) s.

Definition TrimRightFunc (s : list ascii) (f : Z -> bool) : list ascii :=
  let i := lastIndexFunc s f false in
  let i :=
    if (0 <=? i)
       && (RuneSelf <=? from_option byteZ 0 (s !! Z.to_nat i))
    then i + Z.of_nat (snd (DecodeRune (drop (Z.to_nat i) s)))
    else i + 1 in
  take (Z.to_nat i) s.

Definition TrimFunc (s : list ascii) (f : Z -> bool) : list ascii :=
  TrimRightFunc (TrimLeftFunc s f) f.

(** The second loop of [TrimSpace], on the reversed string [s[start:stop]]. *)
Fixpoint trimSpace_stop (r : list ascii) : list ascii :=
  match r with
  | [] => []
  | c :: r' =>
    if RuneSelf <=? byteZ c then TrimRightFunc (rev r) unicode.IsSpace
    else if asciiSpace c then trimSpace_stop r'
    else rev r
  end.

(** The first loop of [TrimSpace], on [s[start:]]. *)
Fixpoint trimSpace_start (s : list ascii) : list ascii :=
  match s with
  | [] => trimSpace_stop (rev s)
  | c :: s' =>
    if RuneSelf <=? byteZ c then TrimFunc s unicode.IsSpace
    else if asciiSpace c then trimSpace_start s'
    else trimSpace_stop (rev s)
  end.

(** [strings.TrimSpace] *)
Definition TrimSpace (s : string) : string :=
  string_of_list_ascii (trimSpace_start (list_ascii_of_string s)).

(** [strings.Join(elems, sep)] *)
Fixpoint Join (elems : list string) (sep : string) : string :=
  match elems with
  | [] => EmptyString
  | [e] => e
  | e :: rest => (e +:+ sep +:+ Join rest sep)%string
  end.

(** The letters that the ASCII path of [strings.ToLower] changes. *)
Definition isUpper (c : ascii) : bool := (0x41 <=? byteZ c) && (byteZ c <=? 0x5A).

Definition lowerByte (c : ascii) : ascii :=
  if isUpper c then byte (byteZ c + 0x20) else c.

(** [strings.ToLower]: a string of ASCII bytes is returned as it is when
    it has no capital letter, and with its capital letters replaced
    otherwise.  [mapped] stands for [strings.Map(unicode.ToLower, s)], which
    is what any other string is given to. *)
Definition ToLower (mapped : string -> string) (s : string) : string :=
  let bs := list_ascii_of_string s in
  if forallb (fun c => byteZ c <? RuneSelf) bs then
    if existsb isUpper bs then string_of_list_ascii (map lowerByte bs) else s
  else mapped s.

End strings.

(** ** Errors (package internal/errors) *)

Module apperrors.

(** The error values created with [errors.New]. *)
Inductive sentinel : Type :=
| ErrEmptyDescription
| ErrTaskNotFound
| ErrInvalidID
| ErrStorageRead
| ErrStorageWrite
| ErrInvalidJSON
| ErrInvalidCommand.

Global Instance sentinel_eq_dec : EqDecision sentinel.
Proof. solve_decision. Defined.

(** A non-nil [error]:
    - one of the package's own values;
    - an error of the operating system or of a library ([notExist] is what
      [os.IsNotExist] answers on it);
    - [fmt.Errorf("<context>: %w", err)];
    - [errors.Join(e1, e2)]. *)
Inductive error : Type :=
| Sentinel (s : sentinel)
| External (notExist : bool) (msg : string)
| Wrap (context : string) (err : error)
| Join (e1 e2 : error).

Coercion Sentinel : sentinel >-> error.

(** [errors.Is(err, target)] for a target of this package: the chain of
    [Unwrap] is followed, into both branches of a joined error. *)
Fixpoint Is (err : error) (target : sentinel) : bool :=
  match err with
  | Sentinel s => bool_decide (s = target)
  | External _ _ => false
  | Wrap _ e => Is e target
  | Join e1 e2 => Is e1 target || Is e2 target
  end.

Definition os_IsNotExist (err : error) : bool :=
  match err with
  | External notExist _ => notExist
  | _ => false
  end.

Definition WrapWithContext (err : error) (context : string) : error :=
  Wrap context err.

Definition WrapStorageReadError (err : error) (filepath : string) : error :=
  Wrap ("failed to read from storage at " +:+ filepath) err.

Definition WrapStorageWriteError (err : error) (filepath : string) : error :=
  Wrap ("failed to write to storage at " +:+ filepath) err.

Definition WrapJSONError (err : error) (filepath : string) : error :=
  Wrap ("invalid JSON format in " +:+ filepath) err.

Definition IsTaskNotFound (err : error) : bool := Is err ErrTaskNotFound.
Definition IsInvalidID (err : error) : bool := Is err ErrInvalidID.
Definition IsEmptyDescription (err : error) : bool := Is err ErrEmptyDescription.
Definition IsStorageError (err : error) : bool :=
  Is err ErrStorageRead || Is err ErrStorageWrite.
Definition IsInvalidJSON (err : error) : bool := Is err ErrInvalidJSON.

(** [WrapCommandError]: [fmt.Errorf("command '%s' failed: %w", command, err)] *)
Definition WrapCommandError (err : error) (command : string) : error :=
  Wrap ("command '" +:+ command +:+ "' failed") err.

Definition IsInvalidCommand (err : error) : bool := Is err ErrInvalidCommand.

(** The text of [errors.New] for each value of the package. *)
Definition message (s : sentinel) : string :=
  match s with
  | ErrEmptyDescription => "task description cannot be empty"
  | ErrTaskNotFound => "task not found"
  | ErrInvalidID => "invalid task ID"
  | ErrStorageRead => "failed to read from storage"
  | ErrStorageWrite => "failed to write to storage"
  | ErrInvalidJSON => "invalid JSON format"
  | ErrInvalidCommand => "invalid command"
  end.

(** [err.Error()]: [fmt.Errorf] with [%w] writes the text of the wrapped
    error after the context, and [errors.Join] writes the texts on a line
    each.  The text of an [External] error is the one it was made with. *)
Fixpoint Error (err : error) : string :=
  match err with
  | Sentinel s => message s
  | External _ msg => msg
  | Wrap context e => context +:+ ": " +:+ Error e
  | Join e1 e2 => Error e1 +:+ String (ascii_of_nat 10) (Error e2)
  end.

End apperrors.

(** ** Time stamps (package time) *)

Module time.

(** A [time.Time], by what its methods show: the calendar date and clock
    reading in its own zone, the zone's offset east of UTC in seconds, and
    the monotonic clock reading that [time.Now] attaches. *)
Record Time : Type := mkTime {
  Year : Z;
  Month : Z;
  Day : Z;
  Hour : Z;
  Minute : Z;
  Second : Z;
  Nanosecond : Z;
  ZoneOffset : Z;
  Monotonic : option Z
}.

Definition isLeap (y : Z) : bool :=
  (y mod 4 =? 0) && (negb (y mod 100 =? 0) || (y mod 400 =? 0)).

Definition daysIn (m y : Z) : Z :=
  if m =? 2 then (if isLeap y then 29 else 28)
  else if (m =? 4) || (m =? 6) || (m =? 9) || (m =? 11) then 30
  else 31.

(** The field values that a [Time] can show. *)
Definition wf (t : Time) : bool :=
  (1 <=? Month t) && (Month t <=? 12)
  && (1 <=? Day t) && (Day t <=? daysIn (Month t) (Year t))
  && (0 <=? Hour t) && (Hour t <=? 23)
  && (0 <=? Minute t) && (Minute t <=? 59)
  && (0 <=? Second t) && (Second t <=? 59)
  && (0 <=? Nanosecond t) && (Nanosecond t <=? 999999999).

(** Days from 1970-01-01 to the given date of the proleptic Gregorian
    calendar. *)
Definition daysSinceEpoch (y m d : Z) : Z :=
  let y' := if m <=? 2 then y - 1 else y in
  let era := y' / 400 in
  let yoe := y' - era * 400 in
  let mp := (m + 9) mod 12 in
  let doy := (153 * mp + 2) / 5 + d - 1 in
  let doe := yoe * 365 + yoe / 4 - yoe / 100 + doy in
  era * 146097 + doe - 719468.

(** [t.Unix()]: seconds since 1970-01-01T00:00:00Z. *)
Definition Unix (t : Time) : Z :=
  daysSinceEpoch (Year t) (Month t) (Day t) * 86400
  + Hour t * 3600 + Minute t * 60 + Second t - ZoneOffset t.

(** [t.Equal(u)]: the same instant, whatever the zone and the monotonic
    reading. *)
Definition Equal (t u : Time) : bool :=
  (Unix t =? Unix u) && (Nanosecond t =? Nanosecond u).

End time.

(** ** The data model (package internal/models) *)

Module models.

(** A slice: [nil], or a sequence of elements. *)
Inductive slice (A : Type) : Type :=
| nil_slice
| Slice (xs : list A).
Global Arguments nil_slice {A}.
Global Arguments Slice {A} xs.

Definition elems {A} (s : slice A) : list A :=
  match s with
  | nil_slice => []
  | Slice xs => xs
  end.

(** [len(s)] *)
Definition len {A} (s : slice A) : Z := Z.of_nat (length (elems s)).

(** [append(s, ys...)]: appending nothing to [nil] gives [nil]. *)
Definition append {A} (s : slice A) (ys : list A) : slice A :=
  match s, ys with
  | nil_slice, [] => nil_slice
  | _, _ => Slice (elems s ++ ys)
  end.

(** [s[:hi]] and [s[lo:]], for bounds within the length. *)
Definition slice_to {A} (s : slice A) (hi : Z) : slice A :=
  match s with
  | nil_slice => nil_slice
  | Slice xs => Slice (take (Z.to_nat hi) xs)
  end.

Definition slice_from {A} (s : slice A) (lo : Z) : slice A :=
  match s with
  | nil_slice => nil_slice
  | Slice xs => Slice (drop (Z.to_nat lo) xs)
  end.

(** [s[i]] *)
Definition index {A} (s : slice A) (i : Z) : option A :=
  elems s !! Z.to_nat i.

Record Task : Type := mkTask {
  ID : Z;
  Description : string;
  Completed : bool;
  CreatedAt : time.Time
}.

Record TaskList : Type := mkTaskList {
  Tasks : slice Task;
  NextID : Z
}.

(** [t.Completed = b] *)
Definition set_Completed (b : bool) (t : Task) : Task :=
  {| ID := ID t; Description := Description t; Completed := b;
     CreatedAt := CreatedAt t |}.

(** [s[i].Completed = b] *)
Definition assign_Completed (s : slice Task) (i : Z) (b : bool) : slice Task :=
  match s with
  | nil_slice => nil_slice
  | Slice xs => Slice (alter (set_Completed b) (Z.to_nat i) xs)
  end.

End models.

(** The outcome of a call that returns a value or an error. *)
Inductive result (A : Type) : Type :=
| Ok (a : A)
| Err (err : apperrors.error).
Global Arguments Ok {A} a.
Global Arguments Err {A} err.


(** ** Decimal numbers (package strconv) *)

Module strconv.

Definition digit (d : Z) : ascii := ascii_of_N (Z.to_N (48 + d)).

Definition isDigit (c : ascii) : bool :=
  (48 <=? utf8.byteZ c) && (utf8.byteZ c <=? 57).

(** The loop of [formatBits] in base 10, which writes the digits of [u]
    from the last one; 20 digits are enough for a 64-bit value. *)
Fixpoint formatBits (fuel : nat) (u : Z) (a : list ascii) : list ascii :=
  match fuel with
  | O => digit u :: a
  | S fuel' =>
    if 10 <=? u then formatBits fuel' (u / 10) (digit (u mod 10) :: a)
    else digit u :: a
  end.

(** [strconv.AppendInt(nil, i, 10)] *)
Definition FormatInt (i : Z) : list ascii :=
  if i <? 0 then "-"%char :: formatBits 19 (- i) [] else formatBits 19 i [].

(** The digits of an unsigned decimal number; [None] on any other byte. *)
Fixpoint parseDigits (s : list ascii) (n : Z) : option Z :=
  match s with
  | [] => Some n
  | c :: s' =>
    if isDigit c then parseDigits s' (n * 10 + (utf8.byteZ c - 48)) else None
  end.

(** [strconv.ParseInt(s, 10, 64)]: an optional sign and digits, the value
    within the 64-bit range. *)
Definition ParseInt (s : list ascii) : option Z :=
  let '(neg, s) :=
    match s with
    | "+"%char :: s' => (false, s')
    | "-"%char :: s' => (true, s')
    | _ => (false, s)
    end in
  match s with
  | [] => None
  | _ :: _ =>
    match parseDigits s 0 with
    | None => None
    | Some un =>
      if negb neg && (GoInt.max_int <? un) then None
      else if neg && (GoInt.max_int + 1 <? un) then None
      else Some (if neg then - un else un)
    end
  end.

(** What a conversion reports in its [NumError]. *)
Inductive numError : Type := ErrSyntax | ErrRange.

Definition maxUint64 : Z := 2 ^ 64 - 1.

(** The loop of [ParseUint(s, 10, 64)]: a byte that is no digit is a syntax
    error; a value that no longer fits is a range error, reported with the
    largest value as soon as it is met. *)
Fixpoint parseUint_loop (s : list ascii) (n : Z) : Z * option numError :=
  match s with
  | [] => (n, None)
  | c :: s' =>
    if isDigit c then
      if maxUint64 / 10 + 1 <=? n then (maxUint64, Some ErrRange)
      else
        let n1 := n * 10 + (utf8.byteZ c - 48) in
        if maxUint64 <? n1 then (maxUint64, Some ErrRange)
        else parseUint_loop s' n1
    else (0, Some ErrSyntax)
  end.

(** [strconv.ParseInt(s, 10, 0)] with the value that comes with an error:
    zero for a syntax error, the nearest [int] for a range error. *)
Definition ParseInt_value (s : list ascii) : Z * option numError :=
  match s with
  | [] => (0, Some ErrSyntax)
  | c :: s' =>
    let '(neg, digits) :=
      if bool_decide (c = "+"%char) then (false, s')
      else if bool_decide (c = "-"%char) then (true, s')
      else (false, s) in
    match digits with
    | [] => (0, Some ErrSyntax)
    | _ :: _ =>
      match parseUint_loop digits 0 with
      | (_, Some ErrSyntax) => (0, Some ErrSyntax)
      | (un, _) =>
        let cutoff := 2 ^ 63 in
        if negb neg && (cutoff <=? un) then (cutoff - 1, Some ErrRange)
        else if neg && (cutoff <? un) then (- cutoff, Some ErrRange)
        else (if neg then - un else un, None)
      end
    end
  end.

(** [strconv.Atoi]: up to 18 bytes are read by the fast path, which cannot
    overflow; longer strings and the empty one go to [ParseInt]. *)
Definition Atoi (s : string) : Z * option numError :=
  let bs := list_ascii_of_string s in
  if (0 <? length bs)%nat && (length bs <? 19)%nat then
    match bs with
    | [] => (0, Some ErrSyntax)
    | c0 :: rest =>
      let signed := bool_decide (c0 = "-"%char) || bool_decide (c0 = "+"%char) in
      if signed && (length rest <? 1)%nat then (0, Some ErrSyntax)
      else
        match parseDigits (if signed then rest else bs) 0 with
        | None => (0, Some ErrSyntax)
        | Some n => (if bool_decide (c0 = "-"%char) then - n else n, None)
        end
    end
  else ParseInt_value bs.

End strconv.

(** ** The wire format of time stamps (package time, RFC 3339) *)

Module rfc3339.

Import time strconv.

(** [appendInt(b, x, width)] for [0 <= x]: decimal, padded with zeros. *)
Fixpoint pad (width : nat) (digits : list ascii) : list ascii :=
  match width with
  | O => digits
  | S w => if (length digits <=? w)%nat then "0"%char :: pad w digits else digits
  end.

Definition appendInt (x : Z) (width : nat) : list ascii :=
  if x <? 0 then "-"%char :: pad width (formatBits 19 (- x) [])
  else pad width (formatBits 19 x []).

(** The loop of [appendNano] that removes the zeros at the end, on the
    reversed digits. *)
Fixpoint dropZeros (r : list ascii) : list ascii :=
  match r with
  | [] => []
  | c :: r' => if bool_decide (c = "0"%char) then dropZeros r' else r
  end.

Definition trimZeros (digits : list ascii) : list ascii :=
  rev (dropZeros (rev digits)).

(** [appendNano] for the layout [.999999999] *)
Definition appendNano (nanosec : Z) : list ascii :=
  if nanosec =? 0 then []
  else "."%char :: trimZeros (appendInt nanosec 9).

(** The end of [t.appendFormatRFC3339(b, true)]: [Z] for UTC, or the
    offset in hours and minutes; its seconds are dropped. *)
Definition appendZone (offset : Z) : list ascii :=
  if offset =? 0 then ["Z"%char]
  else
    let zone := Z.quot offset 60 in
    (if zone <? 0 then "-"%char else "+"%char)
    :: appendInt (Z.abs zone / 60) 2
    ++ ":"%char :: appendInt (Z.abs zone mod 60) 2.

(** [t.appendFormatRFC3339(b, true)] *)
Definition appendFormatRFC3339 (t : Time) : list ascii :=
  appendInt (Year t) 4 ++ "-"%char :: appendInt (Month t) 2
  ++ "-"%char :: appendInt (Day t) 2
  ++ "T"%char :: appendInt (Hour t) 2
  ++ ":"%char :: appendInt (Minute t) 2
  ++ ":"%char :: appendInt (Second t) 2
  ++ appendNano (Nanosecond t)
  ++ appendZone (ZoneOffset t).

Definition num2 (b : list ascii) : Z :=
  match b with
  | c1 :: c2 :: _ => 10 * (utf8.byteZ c1 - 48) + (utf8.byteZ c2 - 48)
  | _ => 0
  end.

(** [t.appendStrictRFC3339(b)]: the year takes four digits and the hour of
    the zone is below 24, or the call fails. *)
Definition appendStrictRFC3339 (t : Time) : result (list ascii) :=
  let b := appendFormatRFC3339 t in
  if negb (bool_decide (b !! 4%nat = Some "-"%char)) then
    Err (apperrors.External false "year outside of range [0,9999]")
  else if negb (bool_decide (last b = Some "Z"%char))
       && (from_option isDigit false (b !! (length b - 6)%nat)
           || (24 <=? num2 (drop (length b - 5) b))) then
    Err (apperrors.External false "timezone hour outside of range [0,23]")
  else Ok b.

(** [parseUint] of [parseRFC3339]: an unsigned decimal between [min] and
    [max]. *)
Definition parseUint (s : list ascii) (min max : Z) : option Z :=
  match parseDigits s 0 with
  | Some x => if (x <? min) || (max <? x) then None else Some x
  | None => None
  end.

(** [parseNanoseconds(s, n)] for [s] a dot and at least one digit: the
    digits as nanoseconds; those after the ninth are dropped. *)
Definition parseNanoseconds (digits : list ascii) : option Z :=
  let d := take 9 digits in
  match parseDigits d 0 with
  | Some x => Some (x * 10 ^ Z.of_nat (9 - length d))
  | None => None
  end.

(** The digits at the start of [s]. *)
Fixpoint takeDigits (s : list ascii) : list ascii :=
  match s with
  | [] => []
  | c :: s' => if isDigit c then c :: takeDigits s' else []
  end.

(** [parseRFC3339(s, Local)]: the layout with four-digit year, two-digit
    fields, optional fraction, and [Z] or a numeric zone.  The result has
    no monotonic reading. *)
Definition parseRFC3339 (s : list ascii) : option Time :=
  if (length s <? 19)%nat then None
  else
    match parseUint (take 4 s) 0 9999,
          parseUint (take 2 (drop 5 s)) 1 12 with
    | Some year, Some month =>
      match parseUint (take 2 (drop 8 s)) 1 (daysIn month year),
            parseUint (take 2 (drop 11 s)) 0 23,
            parseUint (take 2 (drop 14 s)) 0 59,
            parseUint (take 2 (drop 17 s)) 0 59 with
      | Some day, Some hour, Some min, Some sec =>
        if negb (bool_decide (s !! 4%nat = Some "-"%char)
                 && bool_decide (s !! 7%nat = Some "-"%char)
                 && bool_decide (s !! 10%nat = Some "T"%char)
                 && bool_decide (s !! 13%nat = Some ":"%char)
                 && bool_decide (s !! 16%nat = Some ":"%char))
        then None
        else
          let s := drop 19 s in
          let '(nsec, s) :=
            match s with
            | "."%char :: c :: _ =>
              if isDigit c then
                (from_option id 0 (parseNanoseconds (takeDigits (drop 1 s))),
                 drop (S (length (takeDigits (drop 1 s)))) s)
              else (0, s)
            | _ => (0, s)
            end in
          let mk off :=
            {| Year := year; Month := month; Day := day; Hour := hour;
               Minute := min; Second := sec; Nanosecond := nsec;
               ZoneOffset := off; Monotonic := None |} in
          match s with
          | ["Z"%char] => Some (mk 0)
          | [sg; h1; h2; colon; m1; m2] =>
            match parseUint [h1; h2] 0 23, parseUint [m1; m2] 0 59 with
            | Some hr, Some mm =>
              if negb ((bool_decide (sg = "-"%char) || bool_decide (sg = "+"%char))
                       && bool_decide (colon = ":"%char))
              then None
              else
                let zoneOffset := (hr * 60 + mm) * 60 in
                Some (mk (if bool_decide (sg = "-"%char) then - zoneOffset
                          else zoneOffset))
            | _, _ => None
            end
          | _ => None
          end
      | _, _, _, _ => None
      end
    | _, _ => None
    end.

End rfc3339.

(** ** The JSON codec (package encoding/json), for [models.TaskList]

    The encoder writes what [json.MarshalIndent(list, "", "  ")] writes.  The
    decoder follows [json.Unmarshal] into a zero [TaskList]: it is exact on
    the documents the encoder writes.  Outside them it leaves out the
    fallback of [Time.UnmarshalJSON] to [time.Parse], which accepts some
    looser spellings of a time stamp, and on a repeated [tasks] key it
    replaces the earlier array. *)

Module json.

Import utf8 models.

(** *** Strings *)

Definition hex (n : Z) : ascii :=
  nth (Z.to_nat n) (list_ascii_of_string "0123456789abcdef") "0"%char.

(** The table [htmlSafeSet]: the ASCII bytes written as they are. *)
Definition htmlSafe (c : ascii) : bool :=
  let b := byteZ c in
  (0x20 <=? b) && negb (b =? 0x22) && negb (b =? 0x26) && negb (b =? 0x3C)
  && negb (b =? 0x3E) && negb (b =? 0x5C).

(** The escape of an ASCII byte that is not written as it is. *)
Definition escapeByte (c : ascii) : list ascii :=
  let b := byteZ c in
  if (b =? 0x5C) || (b =? 0x22) then ["\"%char; c]
  else if b =? 0x08 then ["\"%char; "b"%char]
  else if b =? 0x0C then ["\"%char; "f"%char]
  else if b =? 0x0A then ["\"%char; "n"%char]
  else if b =? 0x0D then ["\"%char; "r"%char]
  else if b =? 0x09 then ["\"%char; "t"%char]
  else ["\"%char; "u"%char; "0"%char; "0"%char;
        hex (Z.shiftr b 4); hex (Z.land b 0xF)].

(** The loop of [appendString] with [escapeHTML] set, between the quotes.
    Every iteration consumes at least one byte. *)
Fixpoint appendString_loop (fuel : nat) (src : list ascii) : list ascii :=
  match fuel with
  | O => []
  | S fuel' =>
    match src with
    | [] => []
    | b :: src' =>
      if byteZ b <? RuneSelf then
        (if htmlSafe b then [b] else escapeByte b)
        ++ appendString_loop fuel' src'
      else
        let '(c, size) := DecodeRune (take UTFMax src) in
        if (c =? RuneError) && (size =? 1)%nat then
          list_ascii_of_string "\ufffd" ++ appendString_loop fuel' src'
        else if (c =? 0x2028) || (c =? 0x2029) then
          list_ascii_of_string "\u202" ++ hex (Z.land c 0xF)
          :: appendString_loop fuel' (drop size src)
        else
          take size src ++ appendString_loop fuel' (drop size src)
    end
  end.

Definition quote : ascii := ascii_of_nat 34.

Definition appendString (src : string) : list ascii :=
  let src := list_ascii_of_string src in
  quote :: appendString_loop (length src) src ++ [quote].

(** *** Values *)

Definition marshalBool (b : bool) : list ascii :=
  list_ascii_of_string (if b then "true" else "false").

(** [Time.MarshalJSON] *)
Definition marshalTime (t : time.Time) : result (list ascii) :=
  match rfc3339.appendStrictRFC3339 t with
  | Err err => Err err
  | Ok b => Ok (quote :: b ++ [quote])
  end.

Definition nl (depth : nat) : list ascii :=
  ascii_of_nat 10 :: concat (replicate depth [" "%char; " "%char]).

Definition member (depth : nat) (name : string) (value : list ascii)
  : list ascii :=
  nl depth ++ quote :: list_ascii_of_string name ++ quote
  :: ":"%char :: " "%char :: value.

(** A [Task], as an object whose members are indented to [depth + 1]. *)
Definition marshalTask (depth : nat) (t : Task) : result (list ascii) :=
  match marshalTime (CreatedAt t) with
  | Err err => Err err
  | Ok created =>
    Ok ("{"%char
        :: member (S depth) "id" (strconv.FormatInt (ID t))
        ++ ","%char :: member (S depth) "description"
                         (appendString (Description t))
        ++ ","%char :: member (S depth) "completed"
                         (marshalBool (Completed t))
        ++ ","%char :: member (S depth) "created_at" created
        ++ nl depth ++ ["}"%char])
  end.

(** The elements of a non-empty array, each on a line of its own. *)
Fixpoint marshalElems (depth : nat) (first : bool) (ts : list Task)
  : result (list ascii) :=
  match ts with
  | [] => Ok []
  | t :: ts' =>
    match marshalTask depth t, marshalElems depth false ts' with
    | Ok a, Ok b =>
      Ok ((if first then nl depth else ","%char :: nl depth) ++ a ++ b)
    | Err err, _ => Err err
    | _, Err err => Err err
    end
  end.

Definition marshalTasks (depth : nat) (s : slice Task) : result (list ascii) :=
  match s with
  | nil_slice => Ok (list_ascii_of_string "null")
  | Slice [] => Ok (list_ascii_of_string "[]")
  | Slice ts =>
    match marshalElems (S depth) true ts with
    | Ok a => Ok ("["%char :: a ++ nl depth ++ ["]"%char])
    | Err err => Err err
    end
  end.

(** [json.MarshalIndent(list, "", "  ")] *)
Definition MarshalIndent (list : TaskList) : result string :=
  match marshalTasks 1 (Tasks list) with
  | Err err => Err err
  | Ok tasks =>
    Ok (string_of_list_ascii
          ("{"%char
           :: member 1 "tasks" tasks
           ++ ","%char :: member 1 "next_id" (strconv.FormatInt (NextID list))
           ++ nl 0 ++ ["}"%char]))
  end.

(** *** Decoding *)

Definition isSpace (c : ascii) : bool :=
  let b := byteZ c in
  (b =? 0x20) || (b =? 0x09) || (b =? 0x0D) || (b =? 0x0A).

Fixpoint skipSpace (s : list ascii) : list ascii :=
  match s with
  | [] => []
  | c :: s' => if isSpace c then skipSpace s' else s
  end.

Definition hexVal (c : ascii) : option Z :=
  let b := byteZ c in
  if (48 <=? b) && (b <=? 57) then Some (b - 48)
  else if (97 <=? b) && (b <=? 102) then Some (b - 97 + 10)
  else if (65 <=? b) && (b <=? 70) then Some (b - 65 + 10)
  else None.

(** [getu4]: the value of [\uXXXX] at the start of [s]. *)
Definition getu4 (s : list ascii) : option Z :=
  match s with
  | "\"%char :: "u"%char :: a :: b :: c :: d :: _ =>
    match hexVal a, hexVal b, hexVal c, hexVal d with
    | Some a, Some b, Some c, Some d => Some (((a * 16 + b) * 16 + c) * 16 + d)
    | _, _, _, _ => None
    end
  | _ => None
  end.

Definition isSimpleEscape (c : ascii) : bool :=
  let b := byteZ c in
  (b =? 0x22) || (b =? 0x5C) || (b =? 0x2F) || (b =? 0x62) || (b =? 0x66)
  || (b =? 0x6E) || (b =? 0x72) || (b =? 0x74).

(** The scanner inside a string literal, after the opening quote: the
    bytes up to the closing quote, and the input after it.  A control
    character and a wrong escape are syntax errors. *)
Fixpoint scanString (s : list ascii) : option (list ascii * list ascii) :=
  match s with
  | [] => None
  | c :: s' =>
    if byteZ c =? 0x22 then Some ([], s')
    else if byteZ c =? 0x5C then
      match s' with
      | [] => None
      | e :: s'' =>
        if byteZ e =? 0x75 then
          match s'' with
          | h1 :: h2 :: h3 :: h4 :: s3 =>
            match getu4 s with
            | None => None
            | Some _ =>
              '(raw, rest) ← scanString s3;
              Some (c :: e :: h1 :: h2 :: h3 :: h4 :: raw, rest)
            end
          | _ => None
          end
        else if isSimpleEscape e then
          '(raw, rest) ← scanString s'';
          Some (c :: e :: raw, rest)
        else None
      end
    else if byteZ c <? 0x20 then None
    else '(raw, rest) ← scanString s'; Some (c :: raw, rest)
  end.

Definition unescape (e : ascii) : ascii :=
  let b := byteZ e in
  if b =? 0x62 then byte 0x08
  else if b =? 0x66 then byte 0x0C
  else if b =? 0x6E then byte 0x0A
  else if b =? 0x72 then byte 0x0D
  else if b =? 0x74 then byte 0x09
  else e.

(** [utf16.DecodeRune] *)
Definition utf16_DecodeRune (r1 r2 : Z) : Z :=
  if (0xD800 <=? r1) && (r1 <? 0xDC00) && (0xDC00 <=? r2) && (r2 <? 0xE000)
  then Z.lor (Z.shiftl (r1 - 0xD800) 10) (r2 - 0xDC00) + 0x10000
  else RuneError.

(** [unquoteBytes], on the bytes between the quotes.  [pending] counts the
    bytes of the current rune that are still to be passed over. *)
Fixpoint unquote_loop (pending : nat) (s : list ascii) : option (list ascii) :=
  match s with
  | [] => Some []
  | c :: s' =>
    match pending with
    | S p => unquote_loop p s'
    | O =>
      if byteZ c =? 0x5C then
        match s' with
        | [] => None
        | e :: s'' =>
          if byteZ e =? 0x75 then
            match getu4 s, s'' with
            | Some rr, _ :: _ :: _ :: _ :: s3 =>
              if (0xD800 <=? rr) && (rr <? 0xE000) then
                let dec := utf16_DecodeRune rr (default (-1) (getu4 s3)) in
                if negb (dec =? RuneError) then
                  match s3 with
                  | _ :: _ :: _ :: _ :: _ :: _ :: s4 =>
                    out ← unquote_loop 0 s4; Some (EncodeRune dec ++ out)
                  | _ => None
                  end
                else out ← unquote_loop 0 s3; Some (EncodeRune RuneError ++ out)
              else out ← unquote_loop 0 s3; Some (EncodeRune rr ++ out)
            | _, _ => None
            end
          else if isSimpleEscape e then
            out ← unquote_loop 0 s''; Some (unescape e :: out)
          else None
        end
      else if (byteZ c =? 0x22) || (byteZ c <? 0x20) then None
      else if byteZ c <? RuneSelf then
        out ← unquote_loop 0 s'; Some (c :: out)
      else
        let '(rr, size) := DecodeRune s in
        out ← unquote_loop (size - 1) s'; Some (EncodeRune rr ++ out)
    end
  end.

Definition unquote (raw : list ascii) : option (list ascii) :=
  unquote_loop 0 raw.

(** *** Numbers *)

Inductive numState : Type :=
| stateNeg | state0 | state1 | stateDot | stateDot0 | stateE | stateESign
| stateE0.

Definition isExp (c : ascii) : bool := (byteZ c =? 0x65) || (byteZ c =? 0x45).

(** The scanner inside a number: the rest of the literal, and the input
    after it. *)
Fixpoint scanNumber (st : numState) (s : list ascii)
  : option (list ascii * list ascii) :=
  match s with
  | [] =>
    match st with
    | state0 | state1 | stateDot0 | stateE0 => Some ([], [])
    | _ => None
    end
  | c :: s' =>
    let continue st' :=
      '(lit, rest) ← scanNumber st' s'; Some (c :: lit, rest) in
    let after0 :=
      if byteZ c =? 0x2E then continue stateDot
      else if isExp c then continue stateE
      else Some ([], s) in
    let afterESign := if strconv.isDigit c then continue stateE0 else None in
    match st with
    | stateNeg =>
      if byteZ c =? 0x30 then continue state0
      else if strconv.isDigit c then continue state1
      else None
    | state1 => if strconv.isDigit c then continue state1 else after0
    | state0 => after0
    | stateDot => if strconv.isDigit c then continue stateDot0 else None
    | stateDot0 =>
      if strconv.isDigit c then continue stateDot0
      else if isExp c then continue stateE
      else Some ([], s)
    | stateE =>
      if (byteZ c =? 0x2B) || (byteZ c =? 0x2D) then continue stateESign
      else afterESign
    | stateESign => afterESign
    | stateE0 => if strconv.isDigit c then continue stateE0 else Some ([], s)
    end
  end.

(** A number literal at the start of [s]. *)
Definition scanNumberLiteral (s : list ascii) : option (list ascii * list ascii) :=
  match s with
  | [] => None
  | c :: s' =>
    '(lit, rest) ←
      (if byteZ c =? 0x2D then scanNumber stateNeg s'
       else if byteZ c =? 0x30 then scanNumber state0 s'
       else if strconv.isDigit c then scanNumber state1 s'
       else None);
    Some (c :: lit, rest)
  end.

(** [s] without the prefix [p], if it starts with it. *)
Fixpoint stripPrefix (p s : list ascii) : option (list ascii) :=
  match p, s with
  | [], _ => Some s
  | a :: p', b :: s' => if bool_decide (a = b) then stripPrefix p' s' else None
  | _ :: _, [] => None
  end.

Definition literal (name : string) (s : list ascii) : option (list ascii) :=
  stripPrefix (list_ascii_of_string name) s.

(** *** Values of the types of the fields

    Each decoder returns the new value of the field, [None] inside when the
    value is [null] and the field keeps what it has, and the input after
    the value.  A value of another kind, which [Unmarshal] reports as an
    [UnmarshalTypeError], is a failure. *)

Definition decodeInt (s : list ascii) : option (option Z * list ascii) :=
  match literal "null" s with
  | Some rest => Some (None, rest)
  | None =>
    '(lit, rest) ← scanNumberLiteral s;
    n ← strconv.ParseInt lit;
    Some (Some n, rest)
  end.

Definition decodeString (s : list ascii) : option (option string * list ascii) :=
  match literal "null" s with
  | Some rest => Some (None, rest)
  | None =>
    match s with
    | c :: s' =>
      if byteZ c =? 0x22 then
        '(raw, rest) ← scanString s';
        out ← unquote raw;
        Some (Some (string_of_list_ascii out), rest)
      else None
    | [] => None
    end
  end.

Definition decodeBool (s : list ascii) : option (option bool * list ascii) :=
  match literal "null" s, literal "true" s, literal "false" s with
  | Some rest, _, _ => Some (None, rest)
  | _, Some rest, _ => Some (Some true, rest)
  | _, _, Some rest => Some (Some false, rest)
  | _, _, _ => None
  end.

(** [Time.UnmarshalJSON]: the bytes between the quotes are read as they
    stand. *)
Definition decodeTime (s : list ascii) : option (option time.Time * list ascii) :=
  match literal "null" s with
  | Some rest => Some (None, rest)
  | None =>
    match s with
    | c :: s' =>
      if byteZ c =? 0x22 then
        '(raw, rest) ← scanString s';
        t ← rfc3339.parseRFC3339 raw;
        Some (Some t, rest)
      else None
    | [] => None
    end
  end.

(** *** Values that are passed over *)

Definition maxNestingDepth : Z := 10000.

Inductive skipMode : Type := skipOne | skipElems | skipMembers.

(** The scanner over a value ([skipOne]), over the elements of an array
    after its bracket ([skipElems]) and over the members of an object
    after its brace ([skipMembers]). *)
Fixpoint skip (fuel : nat) (mode : skipMode) (depth : Z) (s : list ascii)
  : option (list ascii) :=
  match fuel with
  | O => None
  | S fuel' =>
    match mode with
    | skipOne =>
      match s with
      | [] => None
      | c :: s' =>
        if byteZ c =? 0x22 then snd <$> scanString s'
        else if byteZ c =? 0x5B then
          if maxNestingDepth <=? depth then None
          else
            match skipSpace s' with
            | "]"%char :: rest => Some rest
            | s1 => skip fuel' skipElems (depth + 1) s1
            end
        else if byteZ c =? 0x7B then
          if maxNestingDepth <=? depth then None
          else
            match skipSpace s' with
            | "}"%char :: rest => Some rest
            | s1 => skip fuel' skipMembers (depth + 1) s1
            end
        else
          match literal "null" s, literal "true" s, literal "false" s with
          | Some rest, _, _ | _, Some rest, _ | _, _, Some rest => Some rest
          | _, _, _ => snd <$> scanNumberLiteral s
          end
      end
    | skipElems =>
      rest ← skip fuel' skipOne depth s;
      match skipSpace rest with
      | ","%char :: s1 => skip fuel' skipElems depth (skipSpace s1)
      | "]"%char :: s1 => Some s1
      | _ => None
      end
    | skipMembers =>
      match s with
      | c :: s' =>
        if byteZ c =? 0x22 then
          '(_, s1) ← scanString s';
          match skipSpace s1 with
          | ":"%char :: s2 =>
            rest ← skip fuel' skipOne depth (skipSpace s2);
            match skipSpace rest with
            | ","%char :: s3 => skip fuel' skipMembers depth (skipSpace s3)
            | "}"%char :: s3 => Some s3
            | _ => None
            end
          | _ => None
          end
        else None
      | [] => None
      end
    end
  end.

(** *** Field names *)

(** [foldRune], as far as it meets ASCII: the long s and the Kelvin sign
    fold to [S] and [K]. *)
Definition foldRune (r : Z) : Z :=
  if r =? 0x17F then 0x53 else if r =? 0x212A then 0x4B else r.

(** [appendFoldedName] *)
Fixpoint foldName_loop (pending : nat) (s : list ascii) : list ascii :=
  match s with
  | [] => []
  | c :: s' =>
    match pending with
    | S p => foldName_loop p s'
    | O =>
      if byteZ c <? RuneSelf then
        (if (0x61 <=? byteZ c) && (byteZ c <=? 0x7A) then byte (byteZ c - 0x20)
         else c) :: foldName_loop 0 s'
      else
        let '(r, n) := DecodeRune s in
        EncodeRune (foldRune r) ++ foldName_loop (n - 1) s'
    end
  end.

Definition foldName (s : list ascii) : list ascii := foldName_loop 0 s.

(** Whether [key] selects the field called [name]: by the exact name, or
    else by the folded one. *)
Definition isField (name : string) (key : list ascii) : bool :=
  bool_decide (key = list_ascii_of_string name)
  || bool_decide (foldName key = foldName (list_ascii_of_string name)).

(** *** Structures *)

Definition zeroTime : time.Time :=
  {| time.Year := 1; time.Month := 1; time.Day := 1; time.Hour := 0;
     time.Minute := 0; time.Second := 0; time.Nanosecond := 0;
     time.ZoneOffset := 0; time.Monotonic := None |}.

Definition zeroTask : Task :=
  {| ID := 0; Description := ""; Completed := false; CreatedAt := zeroTime |}.

Definition zeroTaskList : TaskList := {| Tasks := nil_slice; NextID := 0 |}.

(** The value of one member of a [Task] object. *)
Definition taskField (fuel : nat) (key : list ascii) (t : Task) (s : list ascii)
  : option (Task * list ascii) :=
  if isField "id" key then
    '(v, rest) ← decodeInt s;
    Some ({| ID := default (ID t) v; Description := Description t;
             Completed := Completed t; CreatedAt := CreatedAt t |}, rest)
  else if isField "description" key then
    '(v, rest) ← decodeString s;
    Some ({| ID := ID t; Description := default (Description t) v;
             Completed := Completed t; CreatedAt := CreatedAt t |}, rest)
  else if isField "completed" key then
    '(v, rest) ← decodeBool s;
    Some ({| ID := ID t; Description := Description t;
             Completed := default (Completed t) v; CreatedAt := CreatedAt t |},
          rest)
  else if isField "created_at" key then
    '(v, rest) ← decodeTime s;
    Some ({| ID := ID t; Description := Description t;
             Completed := Completed t; CreatedAt := default (CreatedAt t) v |},
          rest)
  else
    rest ← skip fuel skipOne 3 s; Some (t, rest).

(** The members of a [Task] object, from the first key on. *)
Fixpoint taskMembers (fuel : nat) (t : Task) (s : list ascii)
  : option (Task * list ascii) :=
  match fuel with
  | O => None
  | S fuel' =>
    match s with
    | c :: s' =>
      if byteZ c =? 0x22 then
        '(raw, s1) ← scanString s';
        key ← unquote raw;
        match skipSpace s1 with
        | ":"%char :: s2 =>
          '(t, s3) ← taskField fuel' key t (skipSpace s2);
          match skipSpace s3 with
          | ","%char :: s4 => taskMembers fuel' t (skipSpace s4)
          | "}"%char :: s4 => Some (t, s4)
          | _ => None
          end
        | _ => None
        end
      else None
    | [] => None
    end
  end.

(** A [Task]: an object, or [null]. *)
Definition decodeTask (fuel : nat) (s : list ascii) : option (Task * list ascii) :=
  match literal "null" s with
  | Some rest => Some (zeroTask, rest)
  | None =>
    match s with
    | "{"%char :: s' =>
      match skipSpace s' with
      | "}"%char :: rest => Some (zeroTask, rest)
      | s1 => taskMembers fuel zeroTask s1
      end
    | _ => None
    end
  end.

(** The elements of an array of tasks, from the first one on. *)
Fixpoint taskElems (fuel : nat) (s : list ascii)
  : option (list Task * list ascii) :=
  match fuel with
  | O => None
  | S fuel' =>
    '(t, s1) ← decodeTask fuel' s;
    match skipSpace s1 with
    | ","%char :: s2 =>
      '(ts, rest) ← taskElems fuel' (skipSpace s2); Some (t :: ts, rest)
    | "]"%char :: s2 => Some ([t], s2)
    | _ => None
    end
  end.

(** A slice of tasks: [null] is the nil slice, [[]] an empty one. *)
Definition decodeTasks (fuel : nat) (s : list ascii)
  : option (slice Task * list ascii) :=
  match literal "null" s with
  | Some rest => Some (nil_slice, rest)
  | None =>
    match s with
    | "["%char :: s' =>
      match skipSpace s' with
      | "]"%char :: rest => Some (Slice [], rest)
      | s1 => '(ts, rest) ← taskElems fuel s1; Some (Slice ts, rest)
      end
    | _ => None
    end
  end.

Definition listField (fuel : nat) (key : list ascii) (l : TaskList)
    (s : list ascii) : option (TaskList * list ascii) :=
  if isField "tasks" key then
    '(v, rest) ← decodeTasks fuel s;
    Some ({| Tasks := v; NextID := NextID l |}, rest)
  else if isField "next_id" key then
    '(v, rest) ← decodeInt s;
    Some ({| Tasks := Tasks l; NextID := default (NextID l) v |}, rest)
  else
    rest ← skip fuel skipOne 1 s; Some (l, rest).

Fixpoint listMembers (fuel : nat) (l : TaskList) (s : list ascii)
  : option (TaskList * list ascii) :=
  match fuel with
  | O => None
  | S fuel' =>
    match s with
    | c :: s' =>
      if byteZ c =? 0x22 then
        '(raw, s1) ← scanString s';
        key ← unquote raw;
        match skipSpace s1 with
        | ":"%char :: s2 =>
          '(l, s3) ← listField fuel' key l (skipSpace s2);
          match skipSpace s3 with
          | ","%char :: s4 => listMembers fuel' l (skipSpace s4)
          | "}"%char :: s4 => Some (l, s4)
          | _ => None
          end
        | _ => None
        end
      else None
    | [] => None
    end
  end.

Definition decodeTaskList (fuel : nat) (s : list ascii)
  : option (TaskList * list ascii) :=
  match literal "null" s with
  | Some rest => Some (zeroTaskList, rest)
  | None =>
    match s with
    | "{"%char :: s' =>
      match skipSpace s' with
      | "}"%char :: rest => Some (zeroTaskList, rest)
      | s1 => listMembers fuel zeroTaskList s1
      end
    | _ => None
    end
  end.

(** [json.Unmarshal(data, &taskList)] for a zero [taskList]: one value,
    with white space around it and nothing else. *)
Definition Unmarshal (data : string) : result TaskList :=
  let s := list_ascii_of_string data in
  match decodeTaskList (length s) (skipSpace s) with
  | Some (l, rest) =>
    match skipSpace rest with
    | [] => Ok l
    | _ :: _ => Err (apperrors.External false "invalid character after top-level value")
    end
  | None => Err (apperrors.External false "cannot unmarshal")
  end.

End json.

(** ** The file system (package os) *)

Module os.

Import apperrors.

(** The files by path, and the paths on which the system refuses every
    operation. *)
Record FS : Type := mkFS {
  files : gmap string string;
  denied : gset string
}.

Definition ErrPermission : error := External false "permission denied".
Definition ErrNotExist : error := External true "no such file or directory".

(** [os.ReadFile(name)] *)
Definition ReadFile (w : FS) (name : string) : result string :=
  if bool_decide (name ∈ denied w) then Err ErrPermission
  else
    match files w !! name with
    | Some data => Ok data
    | None => Err ErrNotExist
    end.

(** [os.WriteFile(name, data, 0644)], refused or written in full; for a
    write that fails after a part of it see [FileStorage_Save_with]. *)
Definition WriteFile (w : FS) (name data : string) : FS * option error :=
  if bool_decide (name ∈ denied w) then (w, Some ErrPermission)
  else ({| files := <[name := data]> (files w); denied := denied w |}, None).

(** [os.Rename(oldpath, newpath)] *)
Definition Rename (w : FS) (oldpath newpath : string) : FS * option error :=
  if bool_decide (oldpath ∈ denied w) || bool_decide (newpath ∈ denied w)
  then (w, Some ErrPermission)
  else
    match files w !! oldpath with
    | None => (w, Some ErrNotExist)
    | Some data =>
      ({| files := <[newpath := data]> (delete oldpath (files w));
          denied := denied w |}, None)
    end.

(** [os.Remove(name)], its error dropped. *)
Definition Remove (w : FS) (name : string) : FS :=
  if bool_decide (name ∈ denied w) then w
  else {| files := delete name (files w); denied := denied w |}.

End os.

(** ** The persistence store (package internal/storage) *)

Module storage.

Import apperrors models.

(** The interface [Storage], for an implementation of type [S] whose
    calls act on an outside world of type [W].  [Save] reads the list it is
    given and does not write to it. *)
Class Storage (S W : Type) : Type := {
  Load : S -> W -> W * result TaskList;
  Save : S -> TaskList -> W -> W * option error
}.

Record FileStorage : Type := mkFileStorage { filepath : string }.

Definition NewFileStorage (filepath : string) : FileStorage :=
  {| filepath := filepath |}.

Section WithCodec.

(** [json.MarshalIndent(list, "", "  ")] and [json.Unmarshal(data, &taskList)]
    for a zero [taskList]. *)
Variable json_MarshalIndent : TaskList -> result string.
Variable json_Unmarshal : string -> result TaskList.

Definition FileStorage_Load (fs : FileStorage) (w : os.FS)
  : os.FS * result TaskList :=
  match os.ReadFile w (filepath fs) with
  | Err err =>
    if os_IsNotExist err then
      (w, Ok {| Tasks := Slice []; NextID := 1 |})
    else
      (w, Err (WrapStorageReadError (Join ErrStorageRead err) (filepath fs)))
  | Ok data =>
    match json_Unmarshal data with
    | Err err =>
      (w, Err (WrapJSONError (Join ErrInvalidJSON err) (filepath fs)))
    | Ok taskList =>
      let taskList :=
        match Tasks taskList with
        | nil_slice => {| Tasks := Slice []; NextID := NextID taskList |}
        | Slice _ => taskList
        end in
      (w, Ok taskList)
    end
  end.

Definition FileStorage_Save (fs : FileStorage) (list : TaskList) (w : os.FS)
  : os.FS * option error :=
  match json_MarshalIndent list with
  | Err err =>
    (w, Some (WrapStorageWriteError (Join ErrStorageWrite err) (filepath fs)))
  | Ok data =>
    let tempFile := filepath fs +:+ ".tmp" in
    match os.WriteFile w tempFile data with
    | (w, Some err) =>
      (w, Some (WrapStorageWriteError (Join ErrStorageWrite err) (filepath fs)))
    | (w, None) =>
      match os.Rename w tempFile (filepath fs) with
      | (w, Some err) =>
        let w := os.Remove w tempFile in
        (w, Some (WrapStorageWriteError (Join ErrStorageWrite err) (filepath fs)))
      | (w, None) => (w, None)
      end
    end
  end.

(** [Save] with the call of [os.WriteFile] left open.  [os.WriteFile] of
    the model is refused or writes the whole file; the one of an operating
    system can also fail after it has created or truncated the file, and
    [Save] does not remove the temporary file on that path. *)
Definition FileStorage_Save_with
    (os_WriteFile : os.FS -> string -> string -> os.FS * option error)
    (fs : FileStorage) (list : TaskList) (w : os.FS) : os.FS * option error :=
  match json_MarshalIndent list with
  | Err err =>
    (w, Some (WrapStorageWriteError (Join ErrStorageWrite err) (filepath fs)))
  | Ok data =>
    let tempFile := filepath fs +:+ ".tmp" in
    match os_WriteFile w tempFile data with
    | (w, Some err) =>
      (w, Some (WrapStorageWriteError (Join ErrStorageWrite err) (filepath fs)))
    | (w, None) =>
      match os.Rename w tempFile (filepath fs) with
      | (w, Some err) =>
        let w := os.Remove w tempFile in
        (w, Some (WrapStorageWriteError (Join ErrStorageWrite err) (filepath fs)))
      | (w, None) => (w, None)
      end
    end
  end.

Definition FileStorage_Storage : Storage FileStorage os.FS :=
  {| Load := FileStorage_Load; Save := FileStorage_Save |}.

End WithCodec.

End storage.

(** ** The task service (package internal/todolist) *)

Module todolist.

Import apperrors models storage.

Section WithStorage.

Context {S W : Type} `{!Storage S W}.

Record TodoList : Type := mkTodoList {
  list : TaskList;
  storage : S
}.

Definition NewTodoList (storage : S) (w : W) : W * result TodoList :=
  let '(w, r) := Load storage w in
  match r with
  | Err err => (w, Err (WrapWithContext err "failed to initialize todo list"))
  | Ok list => (w, Ok {| list := list; storage := storage |})
  end.

(** [AddTask]; [now] is the value of [time.Now()]. *)
Definition AddTask (tl : TodoList) (description : string) (now : time.Time)
    (w : W) : TodoList * W * result Task :=
  if String.eqb (strings.TrimSpace description) "" then
    (tl, w, Err ErrEmptyDescription)
  else
    let task := {| ID := NextID (list tl); Description := description;
                   Completed := false; CreatedAt := now |} in
    let l1 := {| Tasks := append (Tasks (list tl)) [task];
                 NextID := GoInt.incr (NextID (list tl)) |} in
    match Save (storage tl) l1 w with
    | (w, Some err) =>
      let l2 := {| Tasks := slice_to (Tasks l1) (len (Tasks l1) - 1);
                   NextID := GoInt.decr (NextID l1) |} in
      ({| list := l2; storage := storage tl |}, w,
       Err (WrapWithContext err "failed to save task after adding"))
    | (w, None) => ({| list := l1; storage := storage tl |}, w, Ok task)
    end.

(** [ListTasks]: a new slice with a copy of the tasks. *)
Definition ListTasks (tl : TodoList) : slice Task :=
  Slice (elems (Tasks (list tl))).

(** The search loop of [CompleteTask] and [DeleteTask], from index [i] on:
    the index of the first task whose ID is [id], or [-1]. *)
Fixpoint find_loop (id : Z) (tasks : Datatypes.list Task) (i : Z) : Z :=
  match tasks with
  | [] => -1
  | task :: rest => if ID task =? id then i else find_loop id rest (i + 1)
  end.

Definition find (id : Z) (tasks : slice Task) : Z :=
  find_loop id (elems tasks) 0.

Definition CompleteTask (tl : TodoList) (id : Z) (w : W)
  : TodoList * W * option error :=
  if id <=? 0 then (tl, w, Some (Sentinel ErrInvalidID))
  else
    let taskIndex := find id (Tasks (list tl)) in
    if taskIndex =? -1 then (tl, w, Some (Sentinel ErrTaskNotFound))
    else
      let l1 := {| Tasks := assign_Completed (Tasks (list tl)) taskIndex true;
                   NextID := NextID (list tl) |} in
      match Save (storage tl) l1 w with
      | (w, Some err) =>
        let l2 := {| Tasks := assign_Completed (Tasks l1) taskIndex false;
                     NextID := NextID l1 |} in
        ({| list := l2; storage := storage tl |}, w,
         Some (WrapWithContext err "failed to save task after completing"))
      | (w, None) => ({| list := l1; storage := storage tl |}, w, None)
      end.

(** [DeleteTask].  The index found by the loop is within the slice (see
    [find_loop_bounds]), so the read of [Tasks[taskIndex]] yields a task;
    the other branch stands for the run-time panic of an index out of
    range. *)
Definition DeleteTask (tl : TodoList) (id : Z) (w : W)
  : TodoList * W * option error :=
  if id <=? 0 then (tl, w, Some (Sentinel ErrInvalidID))
  else
    let taskIndex := find id (Tasks (list tl)) in
    if taskIndex =? -1 then (tl, w, Some (Sentinel ErrTaskNotFound))
    else
      match index (Tasks (list tl)) taskIndex with
      | None => (tl, w, Some (External false "index out of range"))
      | Some deletedTask =>
        let l1 :=
          {| Tasks := append (slice_to (Tasks (list tl)) taskIndex)
                             (elems (slice_from (Tasks (list tl)) (taskIndex + 1)));
             NextID := NextID (list tl) |} in
        match Save (storage tl) l1 w with
        | (w, Some err) =>
          let l2 :=
            {| Tasks := append (slice_to (Tasks l1) taskIndex)
                          (elems (append (Slice [deletedTask])
                                         (elems (slice_from (Tasks l1) taskIndex))));
               NextID := NextID l1 |} in
          ({| list := l2; storage := storage tl |}, w,
           Some (WrapWithContext err "failed to save task after deleting"))
        | (w, None) => ({| list := l1; storage := storage tl |}, w, None)
        end
      end.

End WithStorage.

Global Arguments TodoList S : clear implicits.

End todolist.

(** ** The stores that the service is used with *)

Module stores.

Import apperrors models storage.

(** The store of [cmd/todolist]: a file, written and read with
    encoding/json. *)
Definition fileStorage : Storage FileStorage os.FS :=
  FileStorage_Storage json.MarshalIndent json.Unmarshal.

(** [mockStorage] of the tests, whose world is its field [data]. *)
Record mockStorage : Type := mkMockStorage { }.

Definition mockStorage_Load (ms : mockStorage) (data : option TaskList)
  : option TaskList * result TaskList :=
  match data with
  | None => (data, Ok {| Tasks := Slice []; NextID := 1 |})
  | Some list => (data, Ok list)
  end.

Definition mockStorage_Save (ms : mockStorage) (list : TaskList)
    (data : option TaskList) : option TaskList * option error :=
  (Some {| Tasks := Slice (elems (Tasks list)); NextID := NextID list |}, None).

Definition mock : Storage mockStorage (option TaskList) :=
  {| Load := mockStorage_Load; Save := mockStorage_Save |}.

End stores.

(** ** The command line (package internal/cli) *)

Module cli.

Import apperrors models storage todolist.

Local Open Scope string_scope.

(** A parsed command. *)
Record Command : Type := mkCommand {
  Name : string;
  Args : Datatypes.list string
}.

(** [ParseCommand]; [mapped] stands for [strings.Map(unicode.ToLower, s)],
    which [strings.ToLower] calls on a name that is not ASCII.  After the
    test of [len(args)], [args[1]] is the one argument after the name. *)
Definition ParseCommand (mapped : string -> string) (args : Datatypes.list string)
  : result Command :=
  match args with
  | [] => Err ErrInvalidCommand
  | arg0 :: rest =>
    let cmdName := strings.ToLower mapped arg0 in
    if String.eqb cmdName "add" then
      if (length args <? 2)%nat then
        Err (WrapCommandError ErrInvalidCommand "add command requires a description")
      else Ok {| Name := "add"; Args := [strings.Join rest " "] |}
    else if String.eqb cmdName "list" then Ok {| Name := "list"; Args := [] |}
    else if String.eqb cmdName "done" then
      match rest with
      | [arg1] =>
        match strconv.Atoi arg1 with
        | (_, Some _) =>
          Err (WrapCommandError ErrInvalidCommand "task ID must be a valid number")
        | (_, None) => Ok {| Name := "done"; Args := [arg1] |}
        end
      | _ => Err (WrapCommandError ErrInvalidCommand "done command requires a task ID")
      end
    else if String.eqb cmdName "delete" then
      match rest with
      | [arg1] =>
        match strconv.Atoi arg1 with
        | (_, Some _) =>
          Err (WrapCommandError ErrInvalidCommand "task ID must be a valid number")
        | (_, None) => Ok {| Name := "delete"; Args := [arg1] |}
        end
      | _ => Err (WrapCommandError ErrInvalidCommand "delete command requires a task ID")
      end
    else if String.eqb cmdName "help" then Ok {| Name := "help"; Args := [] |}
    else Err ErrInvalidCommand
  end.

(** [getHelpText] *)
Definition getHelpText : string :=
  "Todo List CLI - A simple command-line todo list manager

Usage:
  todolist <command> [arguments]

Commands:
  add <description>    Add a new task
  list                 List all tasks
  done <id>            Mark a task as completed
  delete <id>          Delete a task
  help                 Show this help message

Examples:
  todolist add " +:+ String json.quote "Buy groceries" +:+ String json.quote "
  todolist list
  todolist done 1
  todolist delete 2".

(** [fmt.Sprintf("%d", n)] *)
Definition decimal (n : Z) : string := string_of_list_ascii (strconv.FormatInt n).

(** [t.Format("2006-01-02 15:04:05")]: the date and the clock reading of
    [t] in its own zone. *)
Definition formatCreated (t : time.Time) : string :=
  string_of_list_ascii
    (rfc3339.appendInt (time.Year t) 4 ++ "-"%char :: rfc3339.appendInt (time.Month t) 2
     ++ "-"%char :: rfc3339.appendInt (time.Day t) 2
     ++ " "%char :: rfc3339.appendInt (time.Hour t) 2
     ++ ":"%char :: rfc3339.appendInt (time.Minute t) 2
     ++ ":"%char :: rfc3339.appendInt (time.Second t) 2).

(** The line that the loop of the [list] case writes for a task. *)
Definition taskLine (task : Task) : string :=
  (if Completed task then "[✓]" else "[ ]") +:+ " [" +:+ decimal (ID task)
  +:+ "] " +:+ Description task +:+ " (created: " +:+ formatCreated (CreatedAt task)
  +:+ ")" +:+ String (ascii_of_nat 10) EmptyString.

Section WithStorage.

Context {S W : Type} `{!Storage S W}.

(** [ExecuteCommand]; [now] is the value of [time.Now()] for [AddTask].
    [None] stands for the run-time panic of [cmd.Args[0]] on a command
    without arguments. *)
Definition ExecuteCommand (cmd : Command) (tl : TodoList S) (now : time.Time)
    (w : W) : option (TodoList S * W * result string) :=
  if String.eqb (Name cmd) "add" then
    match Args cmd with
    | [] => None
    | arg0 :: _ =>
      match AddTask tl arg0 now w with
      | (tl, w, Err err) => Some (tl, w, Err (WrapCommandError err "add"))
      | (tl, w, Ok task) =>
        Some (tl, w, Ok ("✓ Task added: [" +:+ decimal (ID task) +:+ "] "
                         +:+ Description task))
      end
    end
  else if String.eqb (Name cmd) "list" then
    let tasks := ListTasks tl in
    if (len tasks =? 0)%Z then
      Some (tl, w, Ok "No tasks found. Add a task with: todolist add <description>")
    else
      let output :=
        fold_left (fun output task => output +:+ taskLine task) (elems tasks)
                  ("Your tasks:" +:+ String (ascii_of_nat 10) EmptyString) in
      Some (tl, w, Ok (strings.TrimSpace output))
  else if String.eqb (Name cmd) "done" then
    match Args cmd with
    | [] => None
    | arg0 :: _ =>
      let id := fst (strconv.Atoi arg0) in
      match CompleteTask tl id w with
      | (tl, w, Some err) => Some (tl, w, Err (WrapCommandError err "done"))
      | (tl, w, None) =>
        Some (tl, w, Ok ("✓ Task " +:+ decimal id +:+ " marked as completed"))
      end
    end
  else if String.eqb (Name cmd) "delete" then
    match Args cmd with
    | [] => None
    | arg0 :: _ =>
      let id := fst (strconv.Atoi arg0) in
      match DeleteTask tl id w with
      | (tl, w, Some err) => Some (tl, w, Err (WrapCommandError err "delete"))
      | (tl, w, None) => Some (tl, w, Ok ("✓ Task " +:+ decimal id +:+ " deleted"))
      end
    end
  else if String.eqb (Name cmd) "help" then Some (tl, w, Ok getHelpText)
  else Some (tl, w, Err ErrInvalidCommand).

End WithStorage.

End cli.

(** ** The program (package cmd/todolist) *)

Module program.

Import apperrors models storage todolist.

Local Open Scope string_scope.

(** What a run leaves: the text on the two streams and the exit status. *)
Record Exit : Type := mkExit {
  stdout : string;
  stderr : string;
  code : Z
}.

Definition newline : string := String (ascii_of_nat 10) EmptyString.

Definition succeed (output : string) : Exit :=
  {| stdout := output +:+ newline; stderr := EmptyString; code := 0 |}.

Definition fail (text : string) : Exit :=
  {| stdout := EmptyString; stderr := text; code := 1 |}.

(** [main].  [mapped] stands for [strings.Map(unicode.ToLower, s)] and
    [filepath_Join] for [filepath.Join]; [home] is the result of
    [os.UserHomeDir()], [args] is [os.Args[1:]], [now] the value of
    [time.Now()].  [None] stands for a run-time panic. *)
Definition main (mapped : string -> string)
    (filepath_Join : string -> string -> string)
    (home : result string) (args : Datatypes.list string) (now : time.Time) (w : os.FS)
  : option (os.FS * Exit) :=
  match home with
  | Err err =>
    Some (w, fail ("Error: failed to get home directory: " +:+ Error err +:+ newline))
  | Ok homeDir =>
    let storagePath := filepath_Join homeDir ".todolist.json" in
    let fileStorage := NewFileStorage storagePath in
    match NewTodoList (Storage0 := stores.fileStorage) fileStorage w with
    | (w, Err err) =>
      Some (w, fail ("Error: failed to initialize todo list: " +:+ Error err
                     +:+ newline))
    | (w, Ok tl) =>
      let args := if (length args =? 0)%nat then ["help"] else args in
      match cli.ParseCommand mapped args with
      | Err err =>
        Some (w, fail ("Error: " +:+ Error err +:+ newline
                       +:+ newline +:+ "Use 'todolist help' for usage information."
                       +:+ newline))
      | Ok cmd =>
        match cli.ExecuteCommand (Storage0 := stores.fileStorage) cmd tl now w with
        | None => None
        | Some (_, w, Err err) =>
          Some (w, fail ("Error: " +:+ Error err +:+ newline))
        | Some (_, w, Ok output) => Some (w, succeed output)
        end
      end
    end
  end.

End program.

(** ** The vocabulary of the properties *)

Module spec.

Import models storage todolist.

(** [t] is the first task of [ts] whose ID is [id], between [pre] and
    [post]. *)
Definition first_with_id (id : Z) (ts pre : Datatypes.list Task) (t : Task)
    (post : Datatypes.list Task) : Prop :=
  ts = pre ++ t :: post /\ Forall (fun u => ID u <> id) pre /\ ID t = id.

(** A string made of white space only: every rune of it, as [range] decodes
    them, is white space.  [pending] counts the bytes of the current rune that
    are still to be passed over. *)
Fixpoint only_space_loop (pending : nat) (s : Datatypes.list ascii) : bool :=
  match s with
  | [] => true
  | c :: s' =>
    match pending with
    | S p => only_space_loop p s'
    | O =>
      let '(r, size) := utf8.DecodeRune s in
      unicode.IsSpace r && only_space_loop (size - 1) s'
    end
  end.

Definition only_space (s : string) : bool :=
  only_space_loop 0 (list_ascii_of_string s).

(** Every task has an ID below [NextID]. *)
Definition ids_below_next (l : TaskList) : Prop :=
  Forall (fun u => ID u < NextID l) (elems (Tasks l)).

Section WithStorage.

Context {S : Type}.

(** The service [tl] with its tasks replaced. *)
Definition with_tasks (tl : TodoList S) (ts : Datatypes.list Task) : TodoList S :=
  {| todolist.list := {| Tasks := Slice ts; NextID := NextID (todolist.list tl) |};
     storage := storage tl |}.

(** The task that [AddTask] creates, and the service that it saves. *)
Definition new_task (tl : TodoList S) (description : string) (now : time.Time)
  : Task :=
  {| ID := NextID (todolist.list tl); Description := description;
     Completed := false; CreatedAt := now |}.

Definition with_new_task (tl : TodoList S) (description : string)
    (now : time.Time) : TodoList S :=
  {| todolist.list :=
       {| Tasks := append (Tasks (todolist.list tl)) [new_task tl description now];
          NextID := GoInt.incr (NextID (todolist.list tl)) |};
     storage := storage tl |}.

End WithStorage.

(** A call of the service, and what a successful call does to the IDs: it
    assigns one to a new task, or frees that of a deleted task. *)
Inductive op : Type :=
| Add (description : string) (now : time.Time)
| Complete (id : Z)
| Delete (id : Z).

Inductive event : Type :=
| Assigned (id : Z)
| Freed (id : Z).

Section Runs.

Context {S W : Type} `{!Storage S W}.

(** One call, if it succeeds. *)
Definition step (tl : TodoList S) (w : W) (o : op)
  : option (TodoList S * W * Datatypes.list event) :=
  match o with
  | Add description now =>
    match AddTask tl description now w with
    | (tl', w', Ok task) => Some (tl', w', [Assigned (ID task)])
    | (_, _, Err _) => None
    end
  | Complete id =>
    match CompleteTask tl id w with
    | (tl', w', None) => Some (tl', w', [])
    | (_, _, Some _) => None
    end
  | Delete id =>
    match DeleteTask tl id w with
    | (tl', w', None) => Some (tl', w', [Freed id])
    | (_, _, Some _) => None
    end
  end.

(** A sequence of calls that all succeed, with its events in order. *)
Fixpoint run (ops : Datatypes.list op) (tl : TodoList S) (w : W)
  : option (TodoList S * W * Datatypes.list event) :=
  match ops with
  | [] => Some (tl, w, [])
  | o :: ops' =>
    match step tl w o with
    | None => None
    | Some (tl1, w1, evs) =>
      match run ops' tl1 w1 with
      | None => None
      | Some (tl2, w2, trace) => Some (tl2, w2, evs ++ trace)
      end
    end
  end.

End Runs.

(** The IDs assigned in a trace, in order. *)
Fixpoint assigned (trace : Datatypes.list event) : Datatypes.list Z :=
  match trace with
  | [] => []
  | Assigned id :: trace' => id :: assigned trace'
  | Freed _ :: trace' => assigned trace'
  end.

(** The IDs that a trace may show from a state whose [NextID] is [next]: the
    IDs assigned count up from [next], and an ID freed is below it. *)
Fixpoint counts_from (next : Z) (trace : Datatypes.list event) : Prop :=
  match trace with
  | [] => True
  | Assigned id :: trace' => id = next /\ counts_from (next + 1) trace'
  | Freed id :: trace' => id < next /\ counts_from next trace'
  end.

End spec.

(** ** The vocabulary of the round trip through a file *)

Module wire.

Import utf8 strconv rfc3339 models.

(** The digits that [formatBits] writes: at least one, with no zero in front
    of another digit, and read back as the number. *)
Definition digits_of (u : Z) (ds : list ascii) : Prop :=
  ds <> []
  /\ Forall (fun c => isDigit c = true) ds
  /\ (forall n, parseDigits ds n = Some (n * 10 ^ Z.of_nat (length ds) + u))
  /\ (u < 10 -> ds = [digit u])
  /\ (10 <= u -> exists c ds', ds = c :: ds' /\ c <> "0"%char).

(** Where a number ends: at the end of the input, or before a byte that
    cannot go on with it. *)
Definition number_end (rest : list ascii) : bool :=
  match rest with
  | [] => true
  | c :: _ => negb (isDigit c) && negb (byteZ c =? 0x2E) && negb (json.isExp c)
  end.

(** What a rune decoded without error was decoded from. *)
Inductive decoded : list ascii -> Z -> nat -> Prop :=
| decoded1 c0 s :
    byteZ c0 < 0x80 -> decoded (c0 :: s) (byteZ c0) 1
| decoded2 c0 c1 s :
    0xC2 <= byteZ c0 <= 0xDF -> 0x80 <= byteZ c1 <= 0xBF ->
    decoded (c0 :: c1 :: s) ((byteZ c0 - 0xC0) * 64 + (byteZ c1 - 0x80)) 2
| decoded3 c0 c1 c2 s :
    0xE0 <= byteZ c0 <= 0xEF -> 0x80 <= byteZ c1 <= 0xBF ->
    0x80 <= byteZ c2 <= 0xBF ->
    (byteZ c0 = 0xE0 -> 0xA0 <= byteZ c1) -> (byteZ c0 = 0xED -> byteZ c1 <= 0x9F) ->
    decoded (c0 :: c1 :: c2 :: s)
      ((byteZ c0 - 0xE0) * 4096 + (byteZ c1 - 0x80) * 64 + (byteZ c2 - 0x80)) 3
| decoded4 c0 c1 c2 c3 s :
    0xF0 <= byteZ c0 <= 0xF4 -> 0x80 <= byteZ c1 <= 0xBF ->
    0x80 <= byteZ c2 <= 0xBF -> 0x80 <= byteZ c3 <= 0xBF ->
    (byteZ c0 = 0xF0 -> 0x90 <= byteZ c1) -> (byteZ c0 = 0xF4 -> byteZ c1 <= 0x8F) ->
    decoded (c0 :: c1 :: c2 :: c3 :: s)
      ((byteZ c0 - 0xF0) * 262144 + (byteZ c1 - 0x80) * 4096
       + (byteZ c2 - 0x80) * 64 + (byteZ c3 - 0x80)) 4.

(** A byte that stands for itself in a string literal. *)
Definition plain (b : ascii) : Prop :=
  0x20 <= byteZ b /\ byteZ b <> 0x22 /\ byteZ b <> 0x5C.

(** The [width] last decimal digits of [x]. *)
Fixpoint fixed (width : nat) (x : Z) : list ascii :=
  match width with
  | O => []
  | S w => fixed w (x / 10) ++ [digit (x mod 10)]
  end.

(** A time that is written in full and read back as it was: the year has
    four digits, and the zone is a whole number of minutes less than a day
    from UTC. *)
Definition encodable (t : time.Time) : bool :=
  time.wf t && (0 <=? time.Year t) && (time.Year t <=? 9999)
  && (time.ZoneOffset t mod 60 =? 0)
  && (-86400 <? time.ZoneOffset t) && (time.ZoneOffset t <? 86400).

(** The reading of the wall clock: a time without its monotonic reading. *)
Definition wall (t : time.Time) : time.Time :=
  {| time.Year := time.Year t; time.Month := time.Month t;
     time.Day := time.Day t; time.Hour := time.Hour t;
     time.Minute := time.Minute t; time.Second := time.Second t;
     time.Nanosecond := time.Nanosecond t;
     time.ZoneOffset := time.ZoneOffset t; time.Monotonic := None |}.

(** A value starts with a byte that is not white space. *)
Definition starts (v : list ascii) : Prop :=
  from_option json.isSpace true (head v) = false.

(** What can be stored and read back: numbers of the size of an [int],
    text in valid UTF-8, and times that can be written in full. *)
Definition storable_task (t : Task) : Prop :=
  GoInt.in_range (ID t) /\ ValidString (Description t) = true
  /\ encodable (CreatedAt t) = true.

Definition storable (l : TaskList) : Prop :=
  Forall storable_task (elems (Tasks l)) /\ GoInt.in_range (NextID l).

(** A task as it is read back: without the monotonic clock reading. *)
Definition read_back (t : Task) : Task :=
  {| ID := ID t; Description := Description t; Completed := Completed t;
     CreatedAt := wall (CreatedAt t) |}.

(** The list as it is decoded from what was written for it. *)
Definition decoded_list (l : TaskList) : TaskList :=
  {| Tasks := match Tasks l with
              | nil_slice => nil_slice
              | Slice ts => Slice (map read_back ts)
              end;
     NextID := NextID l |}.

(** The list that [Load] returns after [Save] wrote [l]. *)
Definition restored (l : TaskList) : TaskList :=
  {| Tasks := Slice (map read_back (elems (Tasks l))); NextID := NextID l |}.

(** Two tasks that agree on every field, their times as instants. *)
Definition same_task (t u : Task) : Prop :=
  ID t = ID u /\ Description t = Description u /\ Completed t = Completed u
  /\ time.Equal (CreatedAt t) (CreatedAt u) = true
  /\ time.Nanosecond (CreatedAt t) = time.Nanosecond (CreatedAt u).

End wire.

(** ** The vocabulary of the further properties *)

Module props.

Import apperrors models storage todolist spec.

(** The temporary file of a store. *)
Definition tempFile (fs : FileStorage) : string := filepath fs +:+ ".tmp".

(** A [WriteFile] that, whether it succeeds or fails, and however much it
    has written when it fails, touches no file but the one it is given. *)
Definition touches_only_named
    (os_WriteFile : os.FS -> string -> string -> os.FS * option error) : Prop :=
  forall (w : os.FS) (name data : string),
    (forall p, p <> name ->
               os.files (os_WriteFile w name data).1 !! p = os.files w !! p)
    /\ os.denied (os_WriteFile w name data).1 = os.denied w.

(** A list as the service builds it from nothing: the IDs are positive,
    increase along the list and are below [NextID], which is an [int]. *)
Definition well_formed (l : TaskList) : Prop :=
  StronglySorted Z.lt (map ID (elems (Tasks l)))
  /\ Forall (fun u => 0 < ID u < NextID l) (elems (Tasks l))
  /\ 0 < NextID l /\ GoInt.in_range (NextID l).

Section Calls.

Context {S W : Type} `{!Storage S W}.

(** The service and the world after a call, whatever its outcome. *)
Definition after (o : op) (tl : TodoList S) (w : W) : TodoList S * W :=
  match o with
  | Add description now => (AddTask tl description now w).1
  | Complete id => (CompleteTask tl id w).1
  | Delete id => (DeleteTask tl id w).1
  end.

End Calls.

(** A string of ASCII bytes. *)
Definition ascii_only (s : string) : bool :=
  forallb (fun c => utf8.byteZ c <? utf8.RuneSelf) (list_ascii_of_string s).

(** Two strings that differ at most in the case of their ASCII letters. *)
Definition same_spelling (a b : string) : Prop :=
  map strings.lowerByte (list_ascii_of_string a)
  = map strings.lowerByte (list_ascii_of_string b).

(** A command as [ExecuteCommand] expects it: a known name with the
    arguments that its case reads, the ID a number that [Atoi] accepts. *)
Definition valid_command (cmd : cli.Command) : Prop :=
  (cli.Name cmd = "add"%string /\ exists d, cli.Args cmd = [d])
  \/ (cli.Name cmd = "list"%string /\ cli.Args cmd = [])
  \/ (cli.Name cmd = "done"%string
      /\ exists a id, cli.Args cmd = [a] /\ strconv.Atoi a = (id, None))
  \/ (cli.Name cmd = "delete"%string
      /\ exists a id, cli.Args cmd = [a] /\ strconv.Atoi a = (id, None))
  \/ (cli.Name cmd = "help"%string /\ cli.Args cmd = []).

(** An error of the operating system or of a library. *)
Definition external (e : error) : Prop :=
  exists notExist msg, e = External notExist msg.

End props.

(** What [Load] makes of a list that the decoder returns: a nil slice
    becomes an empty one. *)
Definition loaded (l : models.TaskList) : models.TaskList :=
  {| models.Tasks := models.Slice (models.elems (models.Tasks l));
     models.NextID := models.NextID l |}.

(** ** Sample values *)

Module sample.

Import apperrors models storage todolist.

Definition noon : time.Time :=
  {| time.Year := 2026; time.Month := 1; time.Day := 14; time.Hour := 12;
     time.Minute := 0; time.Second := 0; time.Nanosecond := 0;
     time.ZoneOffset := 0; time.Monotonic := Some 1000 |}.

Definition task1 : Task :=
  {| ID := 1; Description := "buy milk"; Completed := true; CreatedAt := noon |}.

Definition task2 : Task :=
  {| ID := 2; Description := "call home"; Completed := false; CreatedAt := noon |}.

Definition two_tasks : TaskList := {| Tasks := Slice [task1; task2]; NextID := 3 |}.

(** A service on a file, and one on the store of the tests. *)
Definition on_file : TodoList FileStorage :=
  {| todolist.list := two_tasks; storage := NewFileStorage "todo.json" |}.

Definition on_mock : TodoList stores.mockStorage :=
  {| todolist.list := two_tasks; storage := stores.mkMockStorage |}.

(** A file system that refuses to write the temporary file, and one that
    refuses nothing. *)
Definition read_only : os.FS :=
  {| os.files := ∅; os.denied := {[ "todo.json.tmp"%string ]} |}.

Definition empty_disk : os.FS := {| os.files := ∅; os.denied := ∅ |}.

(** The error of [Save] on [read_only]. *)
Definition write_refused : error :=
  WrapStorageWriteError (Join ErrStorageWrite os.ErrPermission) "todo.json".

(** A text with every apostrophe turned into a double quote. *)
Fixpoint quoted (s : string) : string :=
  match s with
  | EmptyString => EmptyString
  | String c s' =>
    String (if Ascii.eqb c "'" then json.quote else c) (quoted s')
  end.

(** A file written by hand: two tasks with the same ID, a task with an ID
    that is not positive and with no description, and a [next_id] that a
    task has. *)
Definition odd_file : string :=
  quoted "{'next_id': 7, 'tasks': [
     {'id': 7, 'description': 'first', 'completed': false,
      'created_at': '2026-01-14T12:00:00Z'},
     {'id': 7, 'description': 'twin', 'completed': false,
      'created_at': '2026-01-14T12:00:00Z'},
     {'id': 0, 'description': '', 'completed': true,
      'created_at': '2026-01-14T12:00:00Z'}]}".

(** [noon] as it is read from a file. *)
Definition noon_read : time.Time :=
  {| time.Year := 2026; time.Month := 1; time.Day := 14; time.Hour := 12;
     time.Minute := 0; time.Second := 0; time.Nanosecond := 0;
     time.ZoneOffset := 0; time.Monotonic := None |}.

Definition first7 : Task :=
  {| ID := 7; Description := "first"; Completed := false; CreatedAt := noon_read |}.

Definition twin7 : Task :=
  {| ID := 7; Description := "twin"; Completed := false; CreatedAt := noon_read |}.

Definition blank0 : Task :=
  {| ID := 0; Description := ""; Completed := true; CreatedAt := noon_read |}.

Definition odd_list : TaskList :=
  {| Tasks := Slice [first7; twin7; blank0]; NextID := 7 |}.

(** A disk with that file. *)
Definition odd_disk : os.FS :=
  {| os.files := {[ "todo.json"%string := odd_file ]}; os.denied := ∅ |}.

(** A task whose description is the single byte [0xFF], which is not
    UTF-8. *)
Definition garbled : Task :=
  {| ID := 1; Description := String (ascii_of_nat 255) EmptyString;
     Completed := false; CreatedAt := noon |}.

(** The store of [on_file]. *)
Definition store : FileStorage := NewFileStorage "todo.json".

(** The file system after [two_tasks] was saved on an empty disk. *)
Definition saved_disk : os.FS :=
  (Save (Storage := stores.fileStorage) store two_tasks empty_disk).1.

(** The service after a third task was added, and the disk after that on
    an empty disk. *)
Definition with_third : TodoList FileStorage :=
  spec.with_new_task on_file "water plants" noon.

Definition third_disk : os.FS :=
  (Save (Storage := stores.fileStorage) store (todolist.list with_third) empty_disk).1.

(** A service whose list was read from a file without [next_id]. *)
Definition unnumbered : TodoList stores.mockStorage :=
  {| todolist.list := {| Tasks := Slice []; NextID := 0 |};
     storage := stores.mkMockStorage |}.

(** A home directory, [filepath.Join] on two clean names, and the identity
    for a mapping of letters that is not looked at. *)
Definition home : string := "/home/user".

Definition join (dir name : string) : string := (dir +:+ "/" +:+ name)%string.

Definition unmapped (s : string) : string := s.

(** A disk whose file of the program is not JSON, and the error of [Load]
    on it. *)
Definition broken_disk : os.FS :=
  {| os.files := {[ join home ".todolist.json" := "{"%string ]}; os.denied := ∅ |}.

Definition broken : error :=
  match (Load (Storage := stores.fileStorage)
           (NewFileStorage (join home ".todolist.json")) broken_disk).2 with
  | Err e => e
  | Ok _ => Sentinel ErrInvalidJSON
  end.


(** A [WriteFile] on a full disk: the file is created or truncated, and the
    write of the data fails. *)
Definition short_write (w : os.FS) (name data : string) : os.FS * option error :=
  ({| os.files := <[name := ""%string]> (os.files w); os.denied := os.denied w |},
   Some (External false "no space left on device")).

(** [saved_disk] with a file of the store that cannot be replaced. *)
Definition locked_disk : os.FS :=
  {| os.files := os.files saved_disk; os.denied := {[ "todo.json"%string ]} |}.

End sample.

(** * Properties *)

Import apperrors models storage todolist spec.

(** The field [list] of [TodoList] is written [todolist.list] from here on. *)
Local Abbreviation list := Datatypes.list (only parsing).

(** ** Machine integers *)

Lemma wrap_in_range z : GoInt.in_range z -> GoInt.wrap z = z.
Proof.
  unfold GoInt.in_range, GoInt.wrap, GoInt.min_int, GoInt.max_int. intros Hz.
  rewrite Z.mod_small; lia.
Qed.

Lemma wrap_range z : GoInt.in_range (GoInt.wrap z).
Proof.
  unfold GoInt.in_range, GoInt.wrap, GoInt.min_int, GoInt.max_int.
  pose proof (Z.mod_pos_bound (z + 2 ^ 63) (2 ^ 64) ltac:(lia)). lia.
Qed.

Lemma incr_no_wrap z :
  GoInt.in_range z -> z < GoInt.max_int -> GoInt.incr z = z + 1.
Proof.
  intros Hz Hmax. apply wrap_in_range.
  unfold GoInt.in_range, GoInt.min_int, GoInt.max_int in *. lia.
Qed.

Lemma incr_max_int : GoInt.incr GoInt.max_int = GoInt.min_int.
Proof. reflexivity. Qed.

(** [x++] followed by [x--] gives [x] back, also across the wrap-around. *)
Lemma decr_incr z : GoInt.in_range z -> GoInt.decr (GoInt.incr z) = z.
Proof.
  unfold GoInt.in_range, GoInt.min_int, GoInt.max_int. intros Hz.
  destruct (decide (z = 2 ^ 63 - 1)) as [->|Hne]; [reflexivity|].
  unfold GoInt.decr. rewrite incr_no_wrap.
  - replace (z + 1 - 1) with z by lia. apply wrap_in_range.
    unfold GoInt.in_range, GoInt.min_int, GoInt.max_int. lia.
  - unfold GoInt.in_range, GoInt.min_int, GoInt.max_int. lia.
  - unfold GoInt.max_int. lia.
Qed.

(** ** Runes and white space *)

Import utf8.

Lemma byteZ_range c : 0 <= byteZ c < 256.
Proof. destruct c as [[] [] [] [] [] [] [] []]; vm_compute; split; congruence. Qed.

Lemma DecodeRune_ascii c s : byteZ c < RuneSelf -> DecodeRune (c :: s) = (byteZ c, 1%nat).
Proof.
  intros Hc. unfold DecodeRune. destruct (Z.ltb_spec (byteZ c) RuneSelf); [reflexivity | lia].
Qed.

(** Case analysis on the tests of a decoder. *)
Ltac decode_cases :=
  repeat match goal with
  | |- context [match ?x with _ => _ end] =>
    match type of x with
    | option _ => destruct x as [[[? ?] ?]|] eqn:?
    | list _ => destruct x eqn:?
    | bool => destruct x eqn:?
    | _ => fail 1
    end
  | |- context [if ?b then _ else _] => destruct b eqn:?
  end.

Lemma DecodeRune_size s r size :
  s <> [] -> DecodeRune s = (r, size) -> (1 <= size <= length s)%nat.
Proof.
  intros Hs. unfold DecodeRune. destruct s as [|c0 s]; [contradiction|].
  decode_cases; intros [= <- <-]; simpl in *; try lia.
Qed.

(** A rune that is decoded without error is decoded from its own bytes alone. *)
Lemma DecodeRune_prefix s r size t :
  DecodeRune s = (r, size) -> (r, size) <> (RuneError, 1%nat) -> s <> [] ->
  DecodeRune (take size s ++ t) = (r, size).
Proof.
  intros Hdec Hok Hs. destruct s as [|c0 s]; [contradiction|].
  revert Hdec. unfold DecodeRune.
  destruct (byteZ c0 <? RuneSelf) eqn:H0.
  { intros [= <- <-]. simpl. rewrite H0. reflexivity. }
  destruct (lead (byteZ c0)) as [[[sz lo] hi]|] eqn:Hlead;
    [|intros [= <- <-]; contradiction].
  destruct (length (c0 :: s) <? sz)%nat eqn:Hlen; [intros [= <- <-]; contradiction|].
  destruct s as [|c1 s]; [intros [= <- <-]; contradiction|].
  destruct ((byteZ c1 <? lo) || (hi <? byteZ c1)) eqn:H1;
    [intros [= <- <-]; contradiction|].
  apply Nat.ltb_ge in Hlen. simpl in Hlen.
  destruct (sz <=? 2)%nat eqn:Hsz2.
  { intros [= <- <-]. simpl. rewrite H0, Hlead, H1, Hsz2.
    apply Nat.leb_le in Hsz2.
    destruct (S (S (length t)) <? sz)%nat eqn:E; [apply Nat.ltb_lt in E; lia|].
    reflexivity. }
  destruct s as [|c2 s]; [intros [= <- <-]; contradiction|].
  destruct (negb (cont (byteZ c2))) eqn:H2; [intros [= <- <-]; contradiction|].
  destruct (sz <=? 3)%nat eqn:Hsz3.
  { intros [= <- <-]. simpl. rewrite H0, Hlead, H1, Hsz2, H2, Hsz3.
    apply Nat.leb_le in Hsz3.
    destruct (S (S (S (length t))) <? sz)%nat eqn:E; [apply Nat.ltb_lt in E; lia|].
    reflexivity. }
  destruct s as [|c3 s]; [intros [= <- <-]; contradiction|].
  destruct (negb (cont (byteZ c3))) eqn:H3; [intros [= <- <-]; contradiction|].
  intros [= <- <-]. simpl. rewrite H0, Hlead, H1, Hsz2, H2, Hsz3, H3.
  assert (Hsz : (sz <= 4)%nat).
  { unfold lead in Hlead. revert Hlead. decode_cases; intros [= <- _ _]; lia. }
  destruct (S (S (S (S (length t)))) <? sz)%nat eqn:E; [apply Nat.ltb_lt in E; lia|].
  reflexivity.
Qed.

Lemma IsSpace_ascii c :
  byteZ c < RuneSelf -> unicode.IsSpace (byteZ c) = strings.asciiSpace c.
Proof.
  destruct c as [[] [] [] [] [] [] [] []]; vm_compute; congruence.
Qed.

Lemma IsSpace_RuneError : unicode.IsSpace RuneError = false.
Proof. reflexivity. Qed.

Lemma only_space_loop_drop p s :
  only_space_loop p s = only_space_loop 0 (drop p s).
Proof.
  revert s. induction p as [|p IH]; intros s; [rewrite drop_0; reflexivity|].
  destruct s as [|c s]; [reflexivity|]. simpl. apply IH.
Qed.

Lemma only_space_step s r size :
  s <> [] -> DecodeRune s = (r, size) ->
  only_space_loop 0 s = unicode.IsSpace r && only_space_loop 0 (drop size s).
Proof.
  intros Hs Hdec. pose proof (DecodeRune_size _ _ _ Hs Hdec) as Hsize.
  destruct s as [|c s]; [contradiction|].
  cbn [only_space_loop]. rewrite Hdec, only_space_loop_drop.
  destruct size as [|size]; [lia|]. simpl. rewrite Nat.sub_0_r. reflexivity.
Qed.

Lemma indexFunc_loop_space fuel : forall rest i,
  (length rest <= fuel)%nat ->
  if only_space_loop 0 rest
  then strings.indexFunc_loop unicode.IsSpace false fuel rest i = -1
  else exists k, (k < length rest)%nat
         /\ strings.indexFunc_loop unicode.IsSpace false fuel rest i = i + Z.of_nat k
         /\ unicode.IsSpace (DecodeRune (drop k rest)).1 = false.
Proof.
  induction fuel as [|fuel IH]; intros rest i Hlen.
  - destruct rest; [simpl; reflexivity | simpl in Hlen; lia].
  - destruct rest as [|c rest]; [simpl; reflexivity|].
    destruct (DecodeRune (c :: rest)) as [r size] eqn:Hdec.
    assert (Hne : c :: rest <> []) by discriminate.
    pose proof (DecodeRune_size _ _ _ Hne Hdec) as Hsize.
    rewrite (only_space_step _ _ _ Hne Hdec).
    cbn [strings.indexFunc_loop]. rewrite Hdec.
    destruct (unicode.IsSpace r) eqn:Hr; simpl.
    + assert (Hlen' : (length (drop size (c :: rest)) <= fuel)%nat).
      { rewrite length_drop. simpl in *. lia. }
      specialize (IH (drop size (c :: rest)) (i + Z.of_nat size) Hlen').
      destruct (only_space_loop 0 (drop size (c :: rest))); [exact IH|].
      destruct IH as (k & Hk & Hidx & Hsp).
      rewrite length_drop in Hk. exists (size + k)%nat.
      cbn [length] in *.
      split; [lia|]. split; [rewrite Hidx; lia|].
      rewrite <- drop_drop. exact Hsp.
    + exists 0%nat. split; [simpl; lia|]. split; [lia|].
      rewrite drop_0, Hdec. exact Hr.
Qed.

Lemma scan_start_le back lim : (scan_start back lim <= S lim)%nat.
Proof.
  revert back. induction lim as [|lim IH]; intros [|c back]; simpl; try lia.
  destruct (RuneStart c); [lia|]. specialize (IH back). lia.
Qed.

Lemma DecodeLastRune_size p r size :
  p <> [] -> DecodeLastRune p = (r, size) -> (1 <= size <= length p)%nat.
Proof.
  intros Hp. unfold DecodeLastRune.
  destruct (rev p) as [|c back] eqn:Hrev.
  { apply (f_equal (@length _)) in Hrev. rewrite length_rev in Hrev.
    destruct p; [contradiction | discriminate]. }
  assert (Hlen : length p = S (length back)).
  { apply (f_equal (@length _)) in Hrev. rewrite length_rev in Hrev. exact Hrev. }
  destruct (byteZ c <? RuneSelf); [intros [= <- <-]; lia|].
  destruct (DecodeRune _) as [r' sz] eqn:Hdec.
  destruct (Nat.eqb_spec sz (S (Nat.min (scan_start back (UTFMax - 1)) (length back))));
    intros [= <- <-]; lia.
Qed.

Lemma DecodeLastRune_whole p r :
  p <> [] -> DecodeLastRune p = (r, length p) -> unicode.IsSpace r = true ->
  DecodeRune p = (r, length p).
Proof.
  intros Hp. unfold DecodeLastRune.
  destruct (rev p) as [|c back] eqn:Hrev.
  { apply (f_equal (@length _)) in Hrev. rewrite length_rev in Hrev.
    destruct p; [contradiction | discriminate]. }
  assert (Hp' : p = rev back ++ [c]).
  { rewrite <- (rev_involutive p), Hrev. reflexivity. }
  destruct (byteZ c <? RuneSelf) eqn:Hc.
  - intros [= <- Hlen] _. rewrite Hp' in Hlen. rewrite length_app, length_rev in Hlen.
    simpl in Hlen. destruct back; [|simpl in Hlen; lia].
    rewrite Hp'. change (rev [] ++ [c]) with [c].
    apply DecodeRune_ascii. apply Z.ltb_lt, Hc.
  - destruct (DecodeRune _) as [r' sz] eqn:Hdec.
    destruct (Nat.eqb_spec sz (S (Nat.min (scan_start back (UTFMax - 1)) (length back))))
      as [Hsz|Hsz].
    + intros [= <- Hlen] _. rewrite <- Hsz in Hdec. rewrite Hlen in Hdec.
      rewrite Nat.sub_diag, drop_0 in Hdec. exact Hdec.
    + intros [= <- _] Hspace. discriminate.
Qed.

Lemma lastIndexFunc_loop_nonneg s :
  s <> [] -> unicode.IsSpace (DecodeRune s).1 = false ->
  forall fuel i, (1 <= i <= length s)%nat -> (i <= fuel)%nat ->
  0 <= strings.lastIndexFunc_loop unicode.IsSpace false fuel s i
    < Z.of_nat (length s).
Proof.
  intros Hs Hfirst. induction fuel as [|fuel IH]; intros i Hi Hfuel; [lia|].
  destruct i as [|i]; [lia|]. cbn [strings.lastIndexFunc_loop].
  destruct (DecodeLastRune (take (S i) s)) as [r size] eqn:Hlast.
  assert (Hne : take (S i) s <> []).
  { destruct s; [contradiction | discriminate]. }
  pose proof (DecodeLastRune_size _ _ _ Hne Hlast) as Hsize.
  rewrite length_take in Hsize.
  destruct (unicode.IsSpace r) eqn:Hr; simpl; [|lia].
  destruct (decide (size = S i)) as [->|Hlt].
  - exfalso.
    assert (Hlen : length (take (S i) s) = S i) by (rewrite length_take; lia).
    rewrite <- Hlen in Hlast at 2.
    pose proof (DecodeLastRune_whole _ _ Hne Hlast Hr) as Hdec.
    assert (Hok : (r, length (take (S i) s)) <> (RuneError, 1%nat)).
    { intros [= -> _]. discriminate. }
    pose proof (DecodeRune_prefix _ _ _ (drop (S i) s) Hdec Hok Hne) as Hwhole.
    rewrite Hlen in Hwhole. rewrite take_take, Nat.min_id, take_drop in Hwhole.
    rewrite Hwhole in Hfirst. simpl in Hfirst. congruence.
  - apply IH; lia.
Qed.

Lemma TrimRightFunc_nonempty s :
  s <> [] -> unicode.IsSpace (DecodeRune s).1 = false ->
  strings.TrimRightFunc s unicode.IsSpace <> [].
Proof.
  intros Hs Hfirst. unfold strings.TrimRightFunc, strings.lastIndexFunc.
  assert (Hlen : (1 <= length s)%nat) by (destruct s; [contradiction | simpl; lia]).
  pose proof (lastIndexFunc_loop_nonneg s Hs Hfirst (length s) (length s)
                ltac:(lia) ltac:(lia)) as Hi.
  set (i := strings.lastIndexFunc_loop unicode.IsSpace false (length s) s (length s)) in *.
  cbv zeta.
  match goal with |- take (Z.to_nat ?x) s <> [] => assert (Hi2 : 1 <= x) end.
  { destruct (_ && _) eqn:Hcond; [|lia].
    destruct (DecodeRune (drop (Z.to_nat i) s)) as [r size] eqn:Hdec.
    assert (Hdrop : drop (Z.to_nat i) s <> []).
    { intros Hnil. apply (f_equal (@length _)) in Hnil.
      rewrite length_drop in Hnil. simpl in Hnil. lia. }
    pose proof (DecodeRune_size _ _ _ Hdrop Hdec). simpl. lia. }
  intros Hnil. apply (f_equal (@length _)) in Hnil. rewrite length_take in Hnil.
  simpl in Hnil. lia.
Qed.

Lemma trimSpace_stop_nonempty r0 c :
  byteZ c < RuneSelf -> strings.asciiSpace c = false ->
  strings.trimSpace_stop (r0 ++ [c]) <> [].
Proof.
  intros Hc Hsp. induction r0 as [|d r0 IH]; simpl.
  - destruct (Z.leb_spec RuneSelf (byteZ c)); [lia|]. rewrite Hsp. discriminate.
  - destruct (RuneSelf <=? byteZ d).
    + rewrite rev_app_distr. simpl.
      apply TrimRightFunc_nonempty; [discriminate|].
      rewrite DecodeRune_ascii by assumption. simpl.
      rewrite IsSpace_ascii by assumption. exact Hsp.
    + destruct (strings.asciiSpace d); [exact IH|].
      intros Hnil. apply (f_equal (@length _)) in Hnil.
      rewrite length_app in Hnil. simpl in Hnil. lia.
Qed.

Lemma TrimFunc_empty_iff s :
  strings.TrimFunc s unicode.IsSpace = [] <-> only_space_loop 0 s = true.
Proof.
  unfold strings.TrimFunc, strings.TrimLeftFunc, strings.indexFunc.
  pose proof (indexFunc_loop_space (length s) s 0 ltac:(lia)) as Hidx.
  destruct (only_space_loop 0 s).
  - rewrite Hidx. simpl. split; reflexivity || (intros _; reflexivity).
  - destruct Hidx as (k & Hk & -> & Hsp).
    destruct (Z.eqb_spec (0 + Z.of_nat k) (-1)); [lia|].
    replace (Z.to_nat (0 + Z.of_nat k)) with k by lia.
    split; [|discriminate]. intros Hnil. exfalso.
    revert Hnil. apply TrimRightFunc_nonempty; [|exact Hsp].
    intros Hnil. apply (f_equal (@length _)) in Hnil.
    rewrite length_drop in Hnil. simpl in Hnil. lia.
Qed.

Lemma trimSpace_start_empty_iff s :
  strings.trimSpace_start s = [] <-> only_space_loop 0 s = true.
Proof.
  induction s as [|c s IH]; [simpl; tauto|].
  cbn [strings.trimSpace_start].
  destruct (Z.leb_spec RuneSelf (byteZ c)) as [Hc|Hc]; [apply TrimFunc_empty_iff|].
  rewrite (only_space_step (c :: s) (byteZ c) 1) by
    (discriminate || (apply DecodeRune_ascii; assumption)).
  rewrite IsSpace_ascii by assumption. change (drop 1 (c :: s)) with s.
  destruct (strings.asciiSpace c) eqn:Hsp; [exact IH|].
  change (rev (c :: s)) with (rev s ++ [c]). rewrite andb_false_l.
  split; [|discriminate]. intros Hnil. exfalso. revert Hnil.
  apply trimSpace_stop_nonempty; assumption.
Qed.

Lemma string_of_list_ascii_nil l : string_of_list_ascii l = ""%string <-> l = [].
Proof. destruct l; simpl; split; congruence. Qed.

(** The trimmed string is empty exactly when the string is made of white
    space only. *)
Lemma TrimSpace_empty_iff s :
  strings.TrimSpace s = ""%string <-> only_space s = true.
Proof.
  unfold strings.TrimSpace, only_space.
  rewrite string_of_list_ascii_nil. apply trimSpace_start_empty_iff.
Qed.

(** ** Errors *)

Lemma Is_WrapWithContext err context target :
  Is (WrapWithContext err context) target = Is err target.
Proof. reflexivity. Qed.

Lemma IsStorageError_WrapWithContext err context :
  IsStorageError (WrapWithContext err context) = IsStorageError err.
Proof. reflexivity. Qed.

(** ** The search loop *)

Lemma find_loop_none id ts i :
  Forall (fun u => ID u <> id) ts -> find_loop id ts i = -1.
Proof.
  revert i. induction ts as [|u ts IH]; intros i Hall; simpl; [reflexivity|].
  inversion Hall as [|? ? Hu Hts]; subst.
  destruct (Z.eqb_spec (ID u) id) as [Heq|_]; [contradiction|]. apply IH, Hts.
Qed.

Lemma find_loop_first id ts pre t post i :
  first_with_id id ts pre t post ->
  find_loop id ts i = i + Z.of_nat (length pre).
Proof.
  intros (-> & Hpre & Hid). revert i.
  induction pre as [|u pre IH]; intros i; simpl.
  - rewrite Hid, Z.eqb_refl. lia.
  - inversion Hpre as [|? ? Hu Hrest]; subst.
    destruct (Z.eqb_spec (ID u) (ID t)) as [Heq|_]; [contradiction|].
    rewrite IH by assumption. lia.
Qed.

(** The loop finds a task exactly when there is one. *)
Lemma first_with_id_exists id ts :
  (exists t, t ∈ ts /\ ID t = id) ->
  exists pre t post, first_with_id id ts pre t post.
Proof.
  induction ts as [|u ts IH]; intros (t & Hin & Hid).
  - inversion Hin.
  - destruct (decide (ID u = id)) as [Hu|Hu].
    + exists [], u, ts. repeat split; [constructor | assumption].
    + apply elem_of_cons in Hin as [->|Hin]; [contradiction|].
      destruct IH as (pre & t' & post & -> & Hpre & Hid'); [eauto|].
      exists (u :: pre), t', post. repeat split; [|assumption].
      constructor; assumption.
Qed.

(** The index that the loop returns is [-1] or within the slice, so the
    accesses at [taskIndex] never go out of range. *)
Lemma find_loop_bounds id ts i :
  0 <= i ->
  find_loop id ts i = -1 \/ i <= find_loop id ts i < i + Z.of_nat (length ts).
Proof.
  revert i. induction ts as [|u ts IH]; intros i Hi; simpl; [left; reflexivity|].
  destruct (ID u =? id); [right; lia|].
  destruct (IH (i + 1) ltac:(lia)) as [->|?]; [left; reflexivity | right; lia].
Qed.

(** ** Slices at the index of a task *)

Lemma assign_Completed_at pre t post b :
  assign_Completed (Slice (pre ++ t :: post)) (Z.of_nat (length pre)) b
  = Slice (pre ++ set_Completed b t :: post).
Proof.
  unfold assign_Completed. rewrite Nat2Z.id. f_equal.
  replace (length pre) with (length pre + 0)%nat by lia.
  rewrite alter_app_r. reflexivity.
Qed.


Lemma set_Completed_same t : set_Completed (Completed t) t = t.
Proof. destruct t; reflexivity. Qed.

Lemma index_at (pre : list Task) t post :
  index (Slice (pre ++ t :: post)) (Z.of_nat (length pre)) = Some t.
Proof.
  unfold index. simpl. rewrite Nat2Z.id.
  rewrite lookup_app_r by lia. rewrite Nat.sub_diag. reflexivity.
Qed.

(** [append(s[:i], s[i+1:]...)] takes the element at [i] out. *)
Lemma remove_at (pre : list Task) t post :
  let s := Slice (pre ++ t :: post) in
  let i := Z.of_nat (length pre) in
  append (slice_to s i) (elems (slice_from s (i + 1))) = Slice (pre ++ post).
Proof.
  simpl. unfold append. rewrite Nat2Z.id.
  replace (Z.to_nat (Z.of_nat (length pre) + 1)) with (S (length pre)) by lia.
  rewrite take_app_length. simpl.
  replace (S (length pre)) with (length (pre ++ [t])) by (rewrite length_app; simpl; lia).
  replace (pre ++ t :: post) with ((pre ++ [t]) ++ post) by (rewrite <- app_assoc; reflexivity).
  rewrite drop_app_length. reflexivity.
Qed.

(** [append(s[:i], append([]Task{t}, s[i:]...)...)] puts it back. *)
Lemma insert_at (pre : list Task) t post :
  let s := Slice (pre ++ post) in
  let i := Z.of_nat (length pre) in
  append (slice_to s i) (elems (append (Slice [t]) (elems (slice_from s i))))
  = Slice (pre ++ t :: post).
Proof.
  simpl. unfold append. rewrite Nat2Z.id.
  rewrite take_app_length, drop_app_length. reflexivity.
Qed.

(** ** The task service *)

Section TaskService.

Context {S W : Type} `{!Storage S W}.

Implicit Types (tl : TodoList S) (w : W) (id : Z).

Lemma find_first tl id pre t post :
  first_with_id id (elems (Tasks (todolist.list tl))) pre t post ->
  find id (Tasks (todolist.list tl)) = Z.of_nat (length pre)
  /\ Tasks (todolist.list tl) = Slice (pre ++ t :: post).
Proof.
  intros Hfirst. split.
  - unfold find. rewrite (find_loop_first _ _ _ _ _ _ Hfirst). lia.
  - destruct Hfirst as (Hts & _ & _).
    destruct (Tasks (todolist.list tl)) as [|xs]; simpl in Hts.
    + destruct pre; discriminate.
    + congruence.
Qed.

(** What [CompleteTask] does with the first task of the given ID, by the
    outcome of the save. *)
Lemma CompleteTask_first tl id w pre t post :
  0 < id ->
  first_with_id id (elems (Tasks (todolist.list tl))) pre t post ->
  CompleteTask tl id w =
  match Save (storage tl) (todolist.list (with_tasks tl (pre ++ set_Completed true t :: post))) w with
  | (w1, Some err) =>
    (with_tasks tl (pre ++ set_Completed false t :: post), w1,
     Some (WrapWithContext err "failed to save task after completing"))
  | (w1, None) =>
    (with_tasks tl (pre ++ set_Completed true t :: post), w1, None)
  end.
Proof.
  intros Hid Hfirst. destruct (find_first _ _ _ _ _ Hfirst) as [Hfind Hts].
  unfold CompleteTask. destruct (Z.leb_spec id 0) as [?|_]; [lia|].
  rewrite Hfind. destruct (Z.eqb_spec (Z.of_nat (length pre)) (-1)); [lia|].
  rewrite Hts, assign_Completed_at. unfold with_tasks.
  cbn [Tasks NextID todolist.list storage].
  destruct (Save _ _ _) as [w1 [err|]]; [|reflexivity].
  rewrite assign_Completed_at. reflexivity.
Qed.

(** What [DeleteTask] does with the first task of the given ID. *)
Lemma DeleteTask_first tl id w pre t post :
  0 < id ->
  first_with_id id (elems (Tasks (todolist.list tl))) pre t post ->
  DeleteTask tl id w =
  match Save (storage tl) (todolist.list (with_tasks tl (pre ++ post))) w with
  | (w1, Some err) =>
    (with_tasks tl (pre ++ t :: post), w1,
     Some (WrapWithContext err "failed to save task after deleting"))
  | (w1, None) => (with_tasks tl (pre ++ post), w1, None)
  end.
Proof.
  intros Hid Hfirst. destruct (find_first _ _ _ _ _ Hfirst) as [Hfind Hts].
  unfold DeleteTask. destruct (Z.leb_spec id 0) as [?|_]; [lia|].
  rewrite Hfind. destruct (Z.eqb_spec (Z.of_nat (length pre)) (-1)); [lia|].
  rewrite Hts, index_at, remove_at. unfold with_tasks.
  cbn [Tasks NextID todolist.list storage].
  destruct (Save _ _ _) as [w1 [err|]]; [|reflexivity].
  rewrite insert_at. reflexivity.
Qed.

Lemma with_tasks_same tl ts :
  Tasks (todolist.list tl) = Slice ts -> with_tasks tl ts = tl.
Proof.
  destruct tl as [[tasks next] st]. simpl. intros ->. reflexivity.
Qed.

End TaskService.

Section TaskServiceClaims.

Context {S W : Type} `{!Storage S W}.

Implicit Types (tl : TodoList S) (w : W) (id : Z).

(** C8.  [CompleteTask] and [DeleteTask] with [id <= 0] fail with
    [ErrInvalidID], and with a positive id that no task has they fail with
    [ErrTaskNotFound].  In both cases the service and the world of the
    store come back as they were: for every store, also one whose [Save]
    changes its world at every call, so no save was attempted. *)
Theorem invalid_or_unknown_id_rejected tl id w :
  id <= 0 \/ Forall (fun u => ID u <> id) (elems (Tasks (todolist.list tl))) ->
  let err := Sentinel (if id <=? 0 then ErrInvalidID else ErrTaskNotFound) in
  CompleteTask tl id w = (tl, w, Some err)
  /\ DeleteTask tl id w = (tl, w, Some err).
Proof.
  intros Hcase. unfold CompleteTask, DeleteTask.
  destruct (Z.leb_spec id 0) as [Hle|Hpos]; [split; reflexivity|].
  destruct Hcase as [?|Hall]; [lia|].
  unfold find. rewrite (find_loop_none _ _ _ Hall). split; reflexivity.
Qed.


(** C3.  When the save after the removal fails, [DeleteTask] puts the task
    back where it was: the service is exactly as before the call, and the
    call fails with the error of the store wrapped, a storage error when
    that of the store is one. *)
Theorem DeleteTask_rollback tl id w pre t post w1 err :
  0 < id ->
  first_with_id id (elems (Tasks (todolist.list tl))) pre t post ->
  Save (storage tl) (todolist.list (with_tasks tl (pre ++ post))) w = (w1, Some err) ->
  let failure := WrapWithContext err "failed to save task after deleting" in
  DeleteTask tl id w = (tl, w1, Some failure)
  /\ (IsStorageError err = true -> IsStorageError failure = true).
Proof.
  intros Hid Hfirst Hsave failure. split; [|intros Herr; exact Herr].
  rewrite (DeleteTask_first _ _ _ _ _ _ Hid Hfirst), Hsave.
  rewrite with_tasks_same; [reflexivity|].
  apply (find_first _ _ _ _ _ Hfirst).
Qed.

Lemma elems_with_new_task tl description now :
  elems (Tasks (todolist.list (with_new_task tl description now)))
  = elems (Tasks (todolist.list tl)) ++ [new_task tl description now].
Proof. simpl. destruct (Tasks (todolist.list tl)); reflexivity. Qed.

Lemma AddTask_nonblank tl description now w :
  strings.TrimSpace description <> ""%string ->
  AddTask tl description now w =
  match Save (storage tl) (todolist.list (with_new_task tl description now)) w with
  | (w1, Some err) =>
    ({| todolist.list :=
          {| Tasks := Slice (elems (Tasks (todolist.list tl)));
             NextID := GoInt.decr (GoInt.incr (NextID (todolist.list tl))) |};
        storage := storage tl |}, w1,
     Err (WrapWithContext err "failed to save task after adding"))
  | (w1, None) =>
    (with_new_task tl description now, w1, Ok (new_task tl description now))
  end.
Proof.
  intros Hne. unfold AddTask.
  destruct (String.eqb_spec (strings.TrimSpace description) "") as [?|_];
    [contradiction|].
  unfold with_new_task, new_task. cbn [Tasks NextID todolist.list storage].
  destruct (Save _ _ _) as [w1 [err|]]; [|reflexivity].
  do 3 f_equal. f_equal.
  unfold len, slice_to, append.
  destruct (Tasks (todolist.list tl)) as [|xs]; simpl.
  - reflexivity.
  - rewrite length_app. simpl.
    replace (Z.to_nat (Z.of_nat (length xs + 1) - 1)) with (length xs) by lia.
    rewrite take_app_length. reflexivity.
Qed.

(** C2.  When the save fails, [AddTask] takes the new task off again and
    decrements [NextID]: the tasks and [NextID] are those before the call
    (and the whole service is, when its slice was not [nil], as it is after
    [Load]); the call fails with the error of the store wrapped, a storage
    error when that of the store is one, and returns no task. *)
Theorem AddTask_rollback tl description now w w1 err :
  strings.TrimSpace description <> ""%string ->
  GoInt.in_range (NextID (todolist.list tl)) ->
  Save (storage tl) (todolist.list (with_new_task tl description now)) w
  = (w1, Some err) ->
  let failure := WrapWithContext err "failed to save task after adding" in
  exists tl',
    AddTask tl description now w = (tl', w1, Err failure)
    /\ elems (Tasks (todolist.list tl')) = elems (Tasks (todolist.list tl))
    /\ NextID (todolist.list tl') = NextID (todolist.list tl)
    /\ storage tl' = storage tl
    /\ (Tasks (todolist.list tl) <> nil_slice -> tl' = tl)
    /\ (IsStorageError err = true -> IsStorageError failure = true).
Proof.
  intros Hne Hrange Hsave failure.
  rewrite (AddTask_nonblank _ _ _ _ Hne), Hsave, (decr_incr _ Hrange).
  eexists. split; [reflexivity|]. repeat split.
  - intros Hnil. destruct tl as [[[|xs] next] st]; [contradiction|reflexivity].
  - intros Herr. exact Herr.
Qed.

(** C5, as amended.  In a state whose task IDs are all below [NextID], with
    [NextID] below the largest [int], [AddTask] of a non-blank description
    whose save succeeds returns the task it created by value: its ID is
    [NextID], which no task had; it is not completed and carries the time
    of the call; it is appended, so that [ListTasks] is longer by one; and
    [NextID] is greater by one. *)
Theorem AddTask_success tl description now w w1 :
  strings.TrimSpace description <> ""%string ->
  ids_below_next (todolist.list tl) ->
  GoInt.in_range (NextID (todolist.list tl)) ->
  NextID (todolist.list tl) < GoInt.max_int ->
  Save (storage tl) (todolist.list (with_new_task tl description now)) w
  = (w1, None) ->
  exists tl',
    let task := {| ID := NextID (todolist.list tl); Description := description;
                   Completed := false; CreatedAt := now |} in
    AddTask tl description now w = (tl', w1, Ok task)
    /\ elems (Tasks (todolist.list tl')) = elems (Tasks (todolist.list tl)) ++ [task]
    /\ len (ListTasks tl') = len (ListTasks tl) + 1
    /\ Forall (fun u => ID u <> ID task) (elems (Tasks (todolist.list tl)))
    /\ NextID (todolist.list tl') = NextID (todolist.list tl) + 1
    /\ storage tl' = storage tl.
Proof.
  intros Hne Hbelow Hrange Hmax Hsave.
  rewrite (AddTask_nonblank _ _ _ _ Hne), Hsave.
  eexists. split; [reflexivity|]. repeat split.
  - apply elems_with_new_task.
  - unfold ListTasks, len. cbn [elems]. rewrite elems_with_new_task.
    rewrite length_app. simpl. lia.
  - eapply Forall_impl; [exact Hbelow|]. simpl. intros u Hu. lia.
  - simpl. apply incr_no_wrap; assumption.
Qed.

(** What a failed save leaves of [CompleteTask]: the flag of the task is
    [false], whatever it was before the call. *)
Lemma CompleteTask_save_failure tl id w pre t post w1 err :
  0 < id ->
  first_with_id id (elems (Tasks (todolist.list tl))) pre t post ->
  Save (storage tl)
       (todolist.list (with_tasks tl (pre ++ set_Completed true t :: post))) w
  = (w1, Some err) ->
  CompleteTask tl id w
  = (with_tasks tl (pre ++ set_Completed false t :: post), w1,
     Some (WrapWithContext err "failed to save task after completing")).
Proof.
  intros Hid Hfirst Hsave.
  rewrite (CompleteTask_first _ _ _ _ _ _ Hid Hfirst), Hsave. reflexivity.
Qed.

End TaskServiceClaims.

(** ** The claims on sample values *)

(** Splits the conjunctions of a goal, and no definition that unfolds to one. *)
Ltac conjuncts := repeat match goal with |- _ /\ _ => split end.

Lemma invalid_or_unknown_id_rejected_witness :
  (7 <= 0 \/ Forall (fun u => ID u <> 7) (elems (Tasks (todolist.list sample.on_mock))))
  /\ CompleteTask (Storage0 := stores.mock) sample.on_mock 7 None
     = (sample.on_mock, None, Some (Sentinel ErrTaskNotFound))
  /\ DeleteTask (Storage0 := stores.mock) sample.on_mock 7 None
     = (sample.on_mock, None, Some (Sentinel ErrTaskNotFound)).
Proof.
  assert (Hcase : 7 <= 0 \/ Forall (fun u => ID u <> 7)
                                (elems (Tasks (todolist.list sample.on_mock)))).
  { right. repeat constructor; simpl; lia. }
  split; [exact Hcase|].
  exact (invalid_or_unknown_id_rejected (Storage0 := stores.mock)
           sample.on_mock 7 None Hcase).
Defined.


Lemma DeleteTask_rollback_witness :
  0 < 1
  /\ first_with_id 1 (elems (Tasks (todolist.list sample.on_file)))
       [] sample.task1 [sample.task2]
  /\ Save (Storage := stores.fileStorage) (storage sample.on_file)
       (todolist.list (with_tasks sample.on_file [sample.task2])) sample.read_only
     = (sample.read_only, Some sample.write_refused)
  /\ DeleteTask (Storage0 := stores.fileStorage) sample.on_file 1 sample.read_only
     = (sample.on_file, sample.read_only,
        Some (WrapWithContext sample.write_refused "failed to save task after deleting"))
  /\ IsStorageError
       (WrapWithContext sample.write_refused "failed to save task after deleting")
     = true.
Proof.
  assert (Hid : 0 < 1) by lia.
  assert (Hfirst : first_with_id 1 (elems (Tasks (todolist.list sample.on_file)))
                     [] sample.task1 [sample.task2]).
  { split; [reflexivity|]. split; [constructor | reflexivity]. }
  assert (Hsave : Save (Storage := stores.fileStorage) (storage sample.on_file)
                    (todolist.list (with_tasks sample.on_file [sample.task2]))
                    sample.read_only
                  = (sample.read_only, Some sample.write_refused))
    by (vm_compute; reflexivity).
  pose proof (DeleteTask_rollback (Storage0 := stores.fileStorage) sample.on_file 1
                sample.read_only [] sample.task1 [sample.task2] sample.read_only
                sample.write_refused Hid Hfirst Hsave) as (Hdel & Herr).
  conjuncts; try assumption. apply Herr. reflexivity.
Defined.

Lemma AddTask_rollback_witness :
  strings.TrimSpace "water plants" <> ""%string
  /\ GoInt.in_range (NextID (todolist.list sample.on_file))
  /\ Save (Storage := stores.fileStorage) (storage sample.on_file)
       (todolist.list (with_new_task sample.on_file "water plants" sample.noon))
       sample.read_only
     = (sample.read_only, Some sample.write_refused)
  /\ AddTask (Storage0 := stores.fileStorage) sample.on_file "water plants"
       sample.noon sample.read_only
     = (sample.on_file, sample.read_only,
        Err (WrapWithContext sample.write_refused "failed to save task after adding")).
Proof.
  assert (Hne : strings.TrimSpace "water plants" <> ""%string)
    by (vm_compute; discriminate).
  assert (Hrange : GoInt.in_range (NextID (todolist.list sample.on_file)))
    by (vm_compute; split; discriminate).
  assert (Hsave : Save (Storage := stores.fileStorage) (storage sample.on_file)
                    (todolist.list (with_new_task sample.on_file "water plants" sample.noon))
                    sample.read_only
                  = (sample.read_only, Some sample.write_refused))
    by (vm_compute; reflexivity).
  destruct (AddTask_rollback (Storage0 := stores.fileStorage) sample.on_file
              "water plants" sample.noon sample.read_only sample.read_only
              sample.write_refused Hne Hrange Hsave)
    as (tl' & Hadd & _ & _ & _ & Hsame & _).
  conjuncts; try assumption.
  rewrite Hadd. rewrite Hsame; [reflexivity | discriminate].
Defined.

Lemma AddTask_success_witness :
  let task3 := {| ID := 3; Description := "water plants"; Completed := false;
                  CreatedAt := sample.noon |} in
  let tl' := {| todolist.list :=
                  {| Tasks := Slice [sample.task1; sample.task2; task3]; NextID := 4 |};
                storage := stores.mkMockStorage |} in
  strings.TrimSpace "water plants" <> ""%string
  /\ ids_below_next (todolist.list sample.on_mock)
  /\ GoInt.in_range (NextID (todolist.list sample.on_mock))
  /\ NextID (todolist.list sample.on_mock) < GoInt.max_int
  /\ Save (Storage := stores.mock) (storage sample.on_mock)
       (todolist.list (with_new_task sample.on_mock "water plants" sample.noon)) None
     = (Some (todolist.list tl'), None)
  /\ AddTask (Storage0 := stores.mock) sample.on_mock "water plants" sample.noon None
     = (tl', Some (todolist.list tl'), Ok task3)
  /\ len (ListTasks tl') = len (ListTasks sample.on_mock) + 1.
Proof.
  intros task3 tl'.
  assert (Hne : strings.TrimSpace "water plants" <> ""%string)
    by (vm_compute; discriminate).
  assert (Hbelow : ids_below_next (todolist.list sample.on_mock))
    by (repeat constructor).
  assert (Hrange : GoInt.in_range (NextID (todolist.list sample.on_mock)))
    by (vm_compute; split; discriminate).
  assert (Hmax : NextID (todolist.list sample.on_mock) < GoInt.max_int)
    by reflexivity.
  assert (Hsave : Save (Storage := stores.mock) (storage sample.on_mock)
                    (todolist.list (with_new_task sample.on_mock "water plants" sample.noon))
                    None
                  = (Some (todolist.list tl'), None)) by reflexivity.
  destruct (AddTask_success (Storage0 := stores.mock) sample.on_mock "water plants"
              sample.noon None (Some (todolist.list tl')) Hne Hbelow Hrange Hmax Hsave)
    as (tl'' & Hadd & _ & Hlen & _).
  assert (Hrun : AddTask (Storage0 := stores.mock) sample.on_mock "water plants"
                   sample.noon None
                 = (tl', Some (todolist.list tl'), Ok task3)) by reflexivity.
  rewrite Hrun in Hadd. injection Hadd as <-.
  conjuncts; assumption.
Defined.

(** C5 as stated fails where a task already has the ID [NextID], as in a
    list read from a file that says so: the ID of the task created is in use. *)
Lemma AddTask_id_in_use :
  let tl := {| todolist.list := {| Tasks := Slice [sample.task1]; NextID := 1 |};
               storage := stores.mkMockStorage |} in
  exists tl' w' task,
    AddTask (Storage0 := stores.mock) tl "water plants" sample.noon None
    = (tl', w', Ok task)
    /\ sample.task1 ∈ elems (Tasks (todolist.list tl))
    /\ ID sample.task1 = ID task.
Proof.
  do 3 eexists. split; [vm_compute; reflexivity|].
  split; [left | reflexivity].
Qed.


(** C1.  The claim fails on the code: a task that was completed before the
    call is not completed after a call whose save failed, because the
    rollback assigns [false] instead of the value saved before. *)
Theorem CompleteTask_rollback_loses_flag :
  Completed sample.task1 = true
  /\ CompleteTask (Storage0 := stores.fileStorage) sample.on_file 1 sample.read_only
     = (with_tasks sample.on_file [set_Completed false sample.task1; sample.task2],
        sample.read_only,
        Some (WrapWithContext sample.write_refused
                "failed to save task after completing")).
Proof. split; [reflexivity | vm_compute; reflexivity]. Qed.

(** ** Sequences of calls *)

Section Runs.

Context {S W : Type} `{!Storage S W}.

Implicit Types (tl : TodoList S) (w : W) (id : Z).

Lemma AddTask_inv tl description now w tl' w' task :
  AddTask tl description now w = (tl', w', Ok task) ->
  tl' = with_new_task tl description now /\ task = new_task tl description now.
Proof.
  intros Hadd.
  destruct (decide (strings.TrimSpace description = ""%string)) as [Heq|Hne].
  - unfold AddTask in Hadd. rewrite Heq in Hadd. discriminate.
  - rewrite (AddTask_nonblank _ _ _ _ Hne) in Hadd.
    destruct (Save _ _ _) as [w1 [err|]]; [discriminate|].
    injection Hadd as <- _ <-. split; reflexivity.
Qed.

Lemma find_some_first id (ts : list Task) :
  find_loop id ts 0 <> -1 -> exists pre t post, first_with_id id ts pre t post.
Proof.
  intros Hfound. apply first_with_id_exists.
  destruct (decide (Forall (fun u => ID u <> id) ts)) as [Hall|Hnot].
  - contradict Hfound. apply find_loop_none, Hall.
  - apply not_Forall_Exists in Hnot; [|intros u; apply _].
    apply Exists_exists in Hnot as (t & Hin & Ht).
    exists t. split; [assumption|].
    destruct (decide (ID t = id)); [assumption | contradiction].
Qed.

Lemma CompleteTask_inv tl id w tl' w' :
  CompleteTask tl id w = (tl', w', None) ->
  exists pre t post,
    first_with_id id (elems (Tasks (todolist.list tl))) pre t post
    /\ tl' = with_tasks tl (pre ++ set_Completed true t :: post).
Proof.
  intros Hdone.
  assert (Hid : 0 < id).
  { unfold CompleteTask in Hdone. destruct (Z.leb_spec id 0); [discriminate | lia]. }
  assert (Hfound : find_loop id (elems (Tasks (todolist.list tl))) 0 <> -1).
  { unfold CompleteTask, find in Hdone.
    destruct (id <=? 0); [discriminate|].
    destruct (Z.eqb_spec (find_loop id (elems (Tasks (todolist.list tl))) 0) (-1));
      [discriminate | assumption]. }
  destruct (find_some_first _ _ Hfound) as (pre & t & post & Hfirst).
  exists pre, t, post. split; [assumption|].
  rewrite (CompleteTask_first _ _ _ _ _ _ Hid Hfirst) in Hdone.
  destruct (Save _ _ _) as [w1 [err|]]; [discriminate|].
  injection Hdone as <- _. reflexivity.
Qed.

Lemma DeleteTask_inv tl id w tl' w' :
  DeleteTask tl id w = (tl', w', None) ->
  exists pre t post,
    first_with_id id (elems (Tasks (todolist.list tl))) pre t post
    /\ tl' = with_tasks tl (pre ++ post).
Proof.
  intros Hdone.
  assert (Hid : 0 < id).
  { unfold DeleteTask in Hdone. destruct (Z.leb_spec id 0); [discriminate | lia]. }
  assert (Hfound : find_loop id (elems (Tasks (todolist.list tl))) 0 <> -1).
  { unfold DeleteTask, find in Hdone.
    destruct (id <=? 0); [discriminate|].
    destruct (Z.eqb_spec (find_loop id (elems (Tasks (todolist.list tl))) 0) (-1));
      [discriminate | assumption]. }
  destruct (find_some_first _ _ Hfound) as (pre & t & post & Hfirst).
  exists pre, t, post. split; [assumption|].
  rewrite (DeleteTask_first _ _ _ _ _ _ Hid Hfirst) in Hdone.
  destruct (Save _ _ _) as [w1 [err|]]; [discriminate|].
  injection Hdone as <- _. reflexivity.
Qed.

(** [DeleteTask] and [CompleteTask] leave [NextID] as it is. *)
Lemma DeleteTask_NextID tl id w :
  NextID (todolist.list (DeleteTask tl id w).1.1) = NextID (todolist.list tl).
Proof.
  unfold DeleteTask. destruct (id <=? 0); [reflexivity|].
  destruct (_ =? -1); [reflexivity|].
  destruct (index _ _); [|reflexivity].
  destruct (Save _ _ _) as [w1 [err|]]; reflexivity.
Qed.

Lemma CompleteTask_NextID tl id w :
  NextID (todolist.list (CompleteTask tl id w).1.1) = NextID (todolist.list tl).
Proof.
  unfold CompleteTask. destruct (id <=? 0); [reflexivity|].
  destruct (_ =? -1); [reflexivity|].
  destruct (Save _ _ _) as [w1 [err|]]; reflexivity.
Qed.

(** One successful call keeps the IDs below [NextID], which it moves by the
    number of IDs it assigns, and its events count from [NextID]. *)
Lemma step_counts tl w o tl' w' evs :
  ids_below_next (todolist.list tl) ->
  GoInt.in_range (NextID (todolist.list tl)) ->
  NextID (todolist.list tl) + Z.of_nat (length (assigned evs)) <= GoInt.max_int ->
  step tl w o = Some (tl', w', evs) ->
  ids_below_next (todolist.list tl')
  /\ NextID (todolist.list tl')
     = NextID (todolist.list tl) + Z.of_nat (length (assigned evs))
  /\ (forall trace, counts_from (NextID (todolist.list tl')) trace ->
                    counts_from (NextID (todolist.list tl)) (evs ++ trace)).
Proof.
  intros Hbelow Hrange Hmax Hstep. destruct o as [description now|id|id]; simpl in Hstep.
  - destruct (AddTask tl description now w) as [[tl1 w1] [task|err]] eqn:Hadd;
      [|discriminate].
    injection Hstep as <- <- <-.
    apply AddTask_inv in Hadd as [-> ->]. simpl in Hmax.
    assert (Hincr : GoInt.incr (NextID (todolist.list tl))
                    = NextID (todolist.list tl) + 1).
    { apply incr_no_wrap; [assumption | lia]. }
    split; [|split].
    + unfold ids_below_next. rewrite elems_with_new_task. simpl. rewrite Hincr.
      apply Forall_app. split.
      * eapply Forall_impl; [exact Hbelow|]. simpl. intros u Hu. lia.
      * repeat constructor. simpl. lia.
    + simpl. rewrite Hincr. lia.
    + simpl. rewrite Hincr. intros trace Htrace. split; [reflexivity | assumption].
  - destruct (CompleteTask tl id w) as [[tl1 w1] [err|]] eqn:Hdone; [discriminate|].
    injection Hstep as <- <- <-.
    apply CompleteTask_inv in Hdone as (pre & t & post & (Hts & _ & _) & ->).
    simpl. rewrite Z.add_0_r. split; [|split; [reflexivity | tauto]].
    unfold ids_below_next in *. simpl. rewrite Hts in Hbelow.
    apply Forall_app in Hbelow as [Hpre Hpost]. apply Forall_app. split; [assumption|].
    inversion Hpost; subst. constructor; assumption.
  - destruct (DeleteTask tl id w) as [[tl1 w1] [err|]] eqn:Hdone; [discriminate|].
    injection Hstep as <- <- <-.
    apply DeleteTask_inv in Hdone as (pre & t & post & (Hts & _ & Ht) & ->).
    unfold ids_below_next in *. rewrite Hts in Hbelow.
    apply Forall_app in Hbelow as [Hpre Hpost]. inversion Hpost; subst.
    simpl. rewrite Z.add_0_r. split; [|split; [reflexivity|]].
    + apply Forall_app. split; assumption.
    + intros trace Htrace. split; assumption.
Qed.

Lemma assigned_app tr1 tr2 : assigned (tr1 ++ tr2) = assigned tr1 ++ assigned tr2.
Proof.
  induction tr1 as [|[id|id] tr1 IH]; simpl; [reflexivity | f_equal; exact IH | exact IH].
Qed.

Lemma run_counts ops : forall tl w tl' w' trace,
  ids_below_next (todolist.list tl) ->
  GoInt.in_range (NextID (todolist.list tl)) ->
  NextID (todolist.list tl) + Z.of_nat (length (assigned trace)) <= GoInt.max_int ->
  run ops tl w = Some (tl', w', trace) ->
  ids_below_next (todolist.list tl')
  /\ NextID (todolist.list tl')
     = NextID (todolist.list tl) + Z.of_nat (length (assigned trace))
  /\ counts_from (NextID (todolist.list tl)) trace.
Proof.
  induction ops as [|o ops IH]; intros tl w tl' w' trace Hbelow Hrange Hmax Hrun;
    simpl in Hrun.
  - injection Hrun as <- <- <-. simpl. rewrite Z.add_0_r. tauto.
  - destruct (step tl w o) as [[[tl1 w1] evs]|] eqn:Hstep; [|discriminate].
    destruct (run ops tl1 w1) as [[[tl2 w2] rest]|] eqn:Hrest; [|discriminate].
    injection Hrun as <- <- <-.
    rewrite assigned_app, length_app, Nat2Z.inj_add in Hmax.
    assert (Hmax0 : NextID (todolist.list tl) + Z.of_nat (length (assigned evs))
                    <= GoInt.max_int) by lia.
    destruct (step_counts _ _ _ _ _ _ Hbelow Hrange Hmax0 Hstep)
      as (Hbelow1 & Hnext1 & Hcount1).
    assert (Hrange1 : GoInt.in_range (NextID (todolist.list tl1))).
    { unfold GoInt.in_range in *. lia. }
    assert (Hmax1 : NextID (todolist.list tl1) + Z.of_nat (length (assigned rest))
                    <= GoInt.max_int) by lia.
    destruct (IH _ _ _ _ _ Hbelow1 Hrange1 Hmax1 Hrest)
      as (Hbelow2 & Hnext2 & Hcount2).
    split; [assumption|]. split.
    + rewrite assigned_app, length_app, Nat2Z.inj_add. lia.
    + apply Hcount1, Hcount2.
Qed.

End Runs.

Lemma counts_from_app next tr1 tr2 :
  counts_from next (tr1 ++ tr2) ->
  counts_from (next + Z.of_nat (length (assigned tr1))) tr2.
Proof.
  revert next. induction tr1 as [|[id|id] tr1 IH]; intros next; simpl.
  - rewrite Z.add_0_r. tauto.
  - intros [_ Hrest]. apply IH in Hrest.
    replace (next + Z.of_nat (S (length (assigned tr1))))
      with (next + 1 + Z.of_nat (length (assigned tr1))) by lia.
    exact Hrest.
  - intros [_ Hrest]. apply IH, Hrest.
Qed.

Lemma counts_from_lower next trace :
  counts_from next trace -> Forall (fun id => next <= id) (assigned trace).
Proof.
  revert next. induction trace as [|[id|id] trace IH]; intros next; simpl.
  - constructor.
  - intros [-> Hrest]. constructor; [lia|].
    eapply Forall_impl; [apply IH, Hrest|]. simpl. intros; lia.
  - intros [_ Hrest]. apply IH, Hrest.
Qed.

Lemma counts_from_upper next trace :
  counts_from next trace ->
  Forall (fun id => id < next + Z.of_nat (length (assigned trace))) (assigned trace).
Proof.
  revert next. induction trace as [|[id|id] trace IH]; intros next; simpl.
  - constructor.
  - intros [-> Hrest]. constructor; [lia|].
    eapply Forall_impl; [apply IH, Hrest|]. simpl. intros; lia.
  - intros [_ Hrest]. apply IH, Hrest.
Qed.

Lemma counts_from_sorted next trace :
  counts_from next trace -> StronglySorted Z.lt (assigned trace).
Proof.
  revert next. induction trace as [|[id|id] trace IH]; intros next; simpl.
  - constructor.
  - intros [-> Hrest]. constructor; [apply (IH _ Hrest)|].
    eapply Forall_impl; [apply counts_from_lower, Hrest|]. simpl. intros; lia.
  - intros [_ Hrest]. apply (IH _ Hrest).
Qed.

Lemma counts_from_freed next before id after :
  counts_from next (before ++ Freed id :: after) ->
  Forall (fun id' => id < id') (assigned after).
Proof.
  intros Hcount. apply counts_from_app in Hcount. simpl in Hcount.
  destruct Hcount as [Hid Hafter].
  eapply Forall_impl; [apply counts_from_lower, Hafter|]. simpl. intros; lia.
Qed.

Lemma sorted_NoDup (ids : list Z) : StronglySorted Z.lt ids -> NoDup ids.
Proof.
  induction 1 as [|id ids Hsorted IH Hall]; constructor; [|assumption].
  intros Hin. rewrite Forall_forall in Hall. specialize (Hall _ Hin). lia.
Qed.

Section RunClaims.

Context {S W : Type} `{!Storage S W}.

(** C7, as amended.  From a state whose task IDs are below [NextID], along
    any sequence of successful calls that does not take [NextID] past the
    largest [int]: the IDs assigned by [AddTask] increase strictly in the
    order of the calls, so no two are equal; each is greater than the ID of
    every task of the first state and than every ID freed by [DeleteTask]
    before it, so no ID is assigned again; and at the end [NextID], which
    only [AddTask] has moved, is greater than every ID assigned and than the
    ID of every task. *)
Theorem ids_increase_and_are_not_reused
    ops (tl : TodoList S) (w : W) tl' w' trace :
  ids_below_next (todolist.list tl) ->
  GoInt.in_range (NextID (todolist.list tl)) ->
  NextID (todolist.list tl) + Z.of_nat (length (assigned trace)) <= GoInt.max_int ->
  run ops tl w = Some (tl', w', trace) ->
  StronglySorted Z.lt (assigned trace)
  /\ NoDup (assigned trace)
  /\ Forall (fun t => Forall (fun id' => ID t < id') (assigned trace))
       (elems (Tasks (todolist.list tl)))
  /\ (forall before id after,
        trace = before ++ Freed id :: after ->
        Forall (fun id' => id < id') (assigned after))
  /\ NextID (todolist.list tl')
     = NextID (todolist.list tl) + Z.of_nat (length (assigned trace))
  /\ Forall (fun id' => id' < NextID (todolist.list tl')) (assigned trace)
  /\ ids_below_next (todolist.list tl').
Proof.
  intros Hbelow Hrange Hmax Hrun.
  destruct (run_counts _ _ _ _ _ _ Hbelow Hrange Hmax Hrun)
    as (Hbelow' & Hnext & Hcount).
  pose proof (counts_from_sorted _ _ Hcount) as Hsorted.
  split; [assumption|]. split; [apply sorted_NoDup, Hsorted|].
  split; [|split; [|split; [assumption|split; [|assumption]]]].
  - eapply Forall_impl; [exact Hbelow|]. simpl. intros t Ht.
    eapply Forall_impl; [apply counts_from_lower, Hcount|]. simpl. intros; lia.
  - intros before id after ->. eapply counts_from_freed, Hcount.
  - rewrite Hnext. apply counts_from_upper, Hcount.
Qed.

End RunClaims.

Lemma ids_increase_and_are_not_reused_witness :
  let start := {| todolist.list := {| Tasks := Slice []; NextID := 1 |};
                  storage := stores.mkMockStorage |} in
  let ops := [Add "a" sample.noon; Add "b" sample.noon; Delete 1;
              Add "c" sample.noon; Complete 2] in
  let trace := [Assigned 1; Assigned 2; Freed 1; Assigned 3] in
  exists tl' w',
    ids_below_next (todolist.list start)
    /\ GoInt.in_range (NextID (todolist.list start))
    /\ NextID (todolist.list start) + Z.of_nat (length (assigned trace))
       <= GoInt.max_int
    /\ run (Storage0 := stores.mock) ops start None = Some (tl', w', trace)
    /\ StronglySorted Z.lt (assigned trace)
    /\ NextID (todolist.list tl') = 4.
Proof.
  intros start ops trace. do 2 eexists.
  assert (Hbelow : ids_below_next (todolist.list start)) by constructor.
  assert (Hrange : GoInt.in_range (NextID (todolist.list start)))
    by (vm_compute; split; discriminate).
  assert (Hmax : NextID (todolist.list start) + Z.of_nat (length (assigned trace))
                 <= GoInt.max_int) by (vm_compute; discriminate).
  pose proof (fun tl' w' =>
    ids_increase_and_are_not_reused (Storage0 := stores.mock) ops start None
      tl' w' trace Hbelow Hrange Hmax) as Hthm.
  assert (Hrun : run (Storage0 := stores.mock) ops start None
                 = Some (with_tasks
                           {| todolist.list := {| Tasks := Slice []; NextID := 4 |};
                              storage := stores.mkMockStorage |}
                           [set_Completed true (new_task
                              {| todolist.list := {| Tasks := Slice []; NextID := 2 |};
                                 storage := stores.mkMockStorage |} "b" sample.noon);
                            new_task
                              {| todolist.list := {| Tasks := Slice []; NextID := 3 |};
                                 storage := stores.mkMockStorage |} "c" sample.noon],
                         Some {| Tasks := Slice
                           [set_Completed true (new_task
                              {| todolist.list := {| Tasks := Slice []; NextID := 2 |};
                                 storage := stores.mkMockStorage |} "b" sample.noon);
                            new_task
                              {| todolist.list := {| Tasks := Slice []; NextID := 3 |};
                                 storage := stores.mkMockStorage |} "c" sample.noon];
                           NextID := 4 |}, trace))
    by (vm_compute; reflexivity).
  destruct (Hthm _ _ Hrun) as (Hsorted & _ & _ & _ & Hnext & _).
  conjuncts; [exact Hbelow | exact Hrange | exact Hmax | exact Hrun
             | exact Hsorted | exact Hnext].
Defined.

(** C7 as stated fails at the largest [int]: from the well-formed state with
    no task and [NextID = 2^63 - 1], two calls of [AddTask] assign that ID and
    then the smallest [int], which is not greater. *)
Lemma ids_wrap_around :
  let start := {| todolist.list := {| Tasks := Slice []; NextID := GoInt.max_int |};
                  storage := stores.mkMockStorage |} in
  exists tl' w',
    ids_below_next (todolist.list start)
    /\ run (Storage0 := stores.mock) [Add "a" sample.noon; Add "b" sample.noon]
         start None
       = Some (tl', w', [Assigned GoInt.max_int; Assigned GoInt.min_int])
    /\ GoInt.min_int < GoInt.max_int
    /\ NextID (todolist.list tl') < GoInt.max_int.
Proof.
  intros start. do 2 eexists.
  split; [constructor|]. split; [vm_compute; reflexivity|].
  split; reflexivity.
Qed.

(** ** Loading *)

Section LoadClaims.

Variable json_MarshalIndent : TaskList -> result string.
Variable json_Unmarshal : string -> result TaskList.

(** C10.  For any decoder: [Load] fails only when the file cannot be read
    (and is not just missing) or cannot be parsed; every list that the
    decoder returns is accepted as it is, whatever its IDs, descriptions and
    [NextID], and [NewTodoList] starts the service on it; and on any list
    [CompleteTask] and [DeleteTask] act on the first task, in the order of
    the list, that has the ID. *)
Theorem Load_validates_nothing (fs : FileStorage) (w : os.FS) :
  let store := FileStorage_Storage json_MarshalIndent json_Unmarshal in
  (forall w' err,
     Load (Storage := store) fs w = (w', Err err) ->
     (exists e, os.ReadFile w (filepath fs) = Err e /\ os_IsNotExist e = false
                /\ Is err ErrStorageRead = true)
     \/ (exists data e, os.ReadFile w (filepath fs) = Ok data
                        /\ json_Unmarshal data = Err e
                        /\ Is err ErrInvalidJSON = true))
  /\ (forall data l,
        os.ReadFile w (filepath fs) = Ok data ->
        json_Unmarshal data = Ok l ->
        Load (Storage := store) fs w = (w, Ok (loaded l))
        /\ NewTodoList (Storage0 := store) fs w
           = (w, Ok {| todolist.list := loaded l; storage := fs |}))
  /\ (forall (tl : TodoList FileStorage) id pre t post w0 w1,
        0 < id ->
        first_with_id id (elems (Tasks (todolist.list tl))) pre t post ->
        (Save (Storage := store) (storage tl)
           (todolist.list (with_tasks tl (pre ++ set_Completed true t :: post))) w0
         = (w1, None) ->
         CompleteTask (Storage0 := store) tl id w0
         = (with_tasks tl (pre ++ set_Completed true t :: post), w1, None))
        /\ (Save (Storage := store) (storage tl)
              (todolist.list (with_tasks tl (pre ++ post))) w0
            = (w1, None) ->
            DeleteTask (Storage0 := store) tl id w0
            = (with_tasks tl (pre ++ post), w1, None))).
Proof.
  intros store. split; [|split].
  - intros w' err. simpl. unfold FileStorage_Load.
    destruct (os.ReadFile w (filepath fs)) as [data|e] eqn:Hread.
    + destruct (json_Unmarshal data) as [l|e] eqn:Hparse; [discriminate|].
      intros [= <- <-]. right. exists data, e.
      split; [reflexivity|]. split; [assumption | reflexivity].
    + destruct (os_IsNotExist e) eqn:Hne; [discriminate|].
      intros [= <- <-]. left. exists e.
      split; [reflexivity|]. split; [assumption | reflexivity].
  - intros data l Hread Hparse.
    assert (Hload : Load (Storage := store) fs w = (w, Ok (loaded l))).
    { simpl. unfold FileStorage_Load. rewrite Hread, Hparse.
      destruct l as [[|xs] next]; reflexivity. }
    split; [exact Hload|]. unfold NewTodoList. rewrite Hload. reflexivity.
  - intros tl id pre t post w0 w1 Hid Hfirst. split; intros Hsave.
    + rewrite (CompleteTask_first (Storage0 := store) _ _ _ _ _ _ Hid Hfirst), Hsave.
      reflexivity.
    + rewrite (DeleteTask_first (Storage0 := store) _ _ _ _ _ _ Hid Hfirst), Hsave.
      reflexivity.
Qed.

End LoadClaims.

(** The file [sample.odd_file] is loaded as it is, and completing or
    deleting ID 7 acts on the first of its two tasks with that ID. *)
Lemma Load_validates_nothing_witness :
  let fs := NewFileStorage "todo.json" in
  let tl := {| todolist.list := sample.odd_list; storage := fs |} in
  os.ReadFile sample.odd_disk (filepath fs) = Ok sample.odd_file
  /\ json.Unmarshal sample.odd_file = Ok sample.odd_list
  /\ NewTodoList (Storage0 := stores.fileStorage) fs sample.odd_disk
     = (sample.odd_disk, Ok tl)
  /\ (CompleteTask (Storage0 := stores.fileStorage) tl 7 sample.odd_disk).1.1
     = with_tasks tl [set_Completed true sample.first7; sample.twin7; sample.blank0]
  /\ (DeleteTask (Storage0 := stores.fileStorage) tl 7 sample.odd_disk).1.1
     = with_tasks tl [sample.twin7; sample.blank0].
Proof.
  intros fs tl.
  assert (Hread : os.ReadFile sample.odd_disk (filepath fs) = Ok sample.odd_file)
    by (vm_compute; reflexivity).
  assert (Hparse : json.Unmarshal sample.odd_file = Ok sample.odd_list)
    by (vm_compute; reflexivity).
  destruct (Load_validates_nothing json.MarshalIndent json.Unmarshal fs sample.odd_disk)
    as (_ & Hload & _).
  destruct (Hload _ _ Hread Hparse) as [_ Hnew].
  conjuncts; [exact Hread | exact Hparse | exact Hnew | |];
    vm_compute; reflexivity.
Defined.

(** ** Blank descriptions *)

Section BlankClaims.

Context {S W : Type} `{!Storage S W}.

(** C4.  [AddTask] fails with [ErrEmptyDescription] exactly when the
    description trimmed of white space is empty, that is when it is made of
    white space only (the empty string is); it then returns the service and
    the world of the store as they were.  When [AddTask] succeeds, the task
    it returns and stores, the last of the list, has the description as it
    was given, not trimmed. *)
Theorem AddTask_blank_description (tl : TodoList S) description now (w : W) :
  (strings.TrimSpace description = ""%string <-> only_space description = true)
  /\ ((AddTask tl description now w).2 = Err (Sentinel ErrEmptyDescription)
      <-> strings.TrimSpace description = ""%string)
  /\ (strings.TrimSpace description = ""%string ->
      AddTask tl description now w = (tl, w, Err (Sentinel ErrEmptyDescription)))
  /\ (forall tl' w' task,
        AddTask tl description now w = (tl', w', Ok task) ->
        Description task = description
        /\ last (elems (Tasks (todolist.list tl'))) = Some task).
Proof.
  split; [apply TrimSpace_empty_iff|].
  assert (Hblank : strings.TrimSpace description = ""%string ->
                   AddTask tl description now w
                   = (tl, w, Err (Sentinel ErrEmptyDescription))).
  { intros Heq. unfold AddTask. rewrite Heq. reflexivity. }
  split; [|split; [exact Hblank|]].
  - split; [|intros Heq; rewrite (Hblank Heq); reflexivity].
    intros Herr.
    destruct (decide (strings.TrimSpace description = ""%string)) as [|Hne];
      [assumption|].
    rewrite (AddTask_nonblank _ _ _ _ Hne) in Herr.
    destruct (Save _ _ _) as [w1 [err|]]; discriminate.
  - intros tl' w' task Hadd. apply AddTask_inv in Hadd as [-> ->].
    split; [reflexivity|]. rewrite elems_with_new_task. apply last_snoc.
Qed.

End BlankClaims.

Lemma AddTask_blank_description_witness :
  let blank := String (ascii_of_nat 9) (String (ascii_of_nat 194)
                 (String (ascii_of_nat 160) " ")) in
  only_space blank = true
  /\ AddTask (Storage0 := stores.mock) sample.on_mock blank sample.noon None
     = (sample.on_mock, None, Err (Sentinel ErrEmptyDescription))
  /\ only_space " x " = false
  /\ (AddTask (Storage0 := stores.mock) sample.on_mock " x " sample.noon None).2
     = Ok {| ID := 3; Description := " x "; Completed := false;
             CreatedAt := sample.noon |}.
Proof.
  intros blank.
  destruct (AddTask_blank_description (Storage0 := stores.mock) sample.on_mock blank
              sample.noon None) as (Hiff & _ & Hfail & _).
  assert (Hspace : only_space blank = true) by reflexivity.
  conjuncts; [exact Hspace | apply Hfail, Hiff, Hspace | reflexivity | reflexivity].
Defined.

(** * Properties of the round trip through a file *)

Import wire strconv rfc3339.

(** ** Decimal numbers *)

Lemma byteZ_digit d : 0 <= d <= 9 -> byteZ (digit d) = 48 + d.
Proof.
  intros Hd. assert (Hcases : d = 0 \/ d = 1 \/ d = 2 \/ d = 3 \/ d = 4 \/ d = 5
                              \/ d = 6 \/ d = 7 \/ d = 8 \/ d = 9) by lia.
  repeat (destruct Hcases as [->|Hcases]; [reflexivity|]). subst. reflexivity.
Qed.

Lemma isDigit_digit d : 0 <= d <= 9 -> isDigit (digit d) = true.
Proof.
  intros Hd. unfold isDigit. rewrite byteZ_digit by assumption.
  apply andb_true_intro. split; apply Z.leb_le; lia.
Qed.

Lemma parseDigits_app a b n :
  parseDigits (a ++ b) n = parseDigits a n ≫= parseDigits b.
Proof.
  revert n. induction a as [|c a IH]; intros n; simpl; [reflexivity|].
  destruct (isDigit c); [apply IH | reflexivity].
Qed.

Lemma digit_nonzero d : 1 <= d <= 9 -> digit d <> "0"%char.
Proof.
  intros Hd Heq. apply (f_equal byteZ) in Heq. rewrite byteZ_digit in Heq by lia.
  change (byteZ "0") with 48 in Heq. lia.
Qed.

Lemma formatBits_digits fuel : forall u a,
  0 <= u < 10 ^ (Z.of_nat fuel + 1) ->
  exists ds, formatBits fuel u a = ds ++ a /\ digits_of u ds
             /\ (length ds <= S fuel)%nat.
Proof.
  induction fuel as [|fuel IH]; intros u a Hu.
  - change (10 ^ (Z.of_nat 0 + 1)) with 10 in Hu. simpl.
    exists [digit u]. split; [reflexivity|]. split; [|simpl; lia].
    split; [discriminate|]. split; [repeat constructor; apply isDigit_digit; lia|].
    split; [|split; [reflexivity | lia]].
    intros n. simpl. rewrite isDigit_digit, byteZ_digit by lia.
    f_equal. change (10 ^ Z.of_nat 1) with 10. lia.
  - cbn [formatBits]. destruct (Z.leb_spec 10 u) as [Hge|Hlt].
    + assert (Hq : 0 <= u / 10 < 10 ^ (Z.of_nat fuel + 1)).
      { replace (Z.of_nat (S fuel) + 1) with (Z.succ (Z.of_nat fuel + 1)) in Hu by lia.
        rewrite Z.pow_succ_r in Hu by lia.
        split; [apply Z.div_pos; lia|]. apply Z.div_lt_upper_bound; lia. }
      destruct (IH (u / 10) (digit (u mod 10) :: a) Hq)
        as (ds & Hfmt & (Hne & Hall & Hval & Hsmall & Hbig) & Hlen).
      pose proof (Z.mod_pos_bound u 10 ltac:(lia)) as Hmod.
      exists (ds ++ [digit (u mod 10)]). split; [rewrite Hfmt, <- app_assoc; reflexivity|].
      split; [|rewrite length_app; simpl; lia].
      split; [destruct ds; discriminate|].
      split; [apply Forall_app; split; [assumption|];
              repeat constructor; apply isDigit_digit; lia|].
      split; [|split; [lia|]].
      * intros n. rewrite parseDigits_app, Hval. simpl.
        rewrite isDigit_digit, byteZ_digit by lia. f_equal.
        rewrite length_app. simpl.
        replace (Z.of_nat (length ds + 1)) with (Z.succ (Z.of_nat (length ds))) by lia.
        rewrite Z.pow_succ_r by lia.
        pose proof (Z.div_mod u 10 ltac:(lia)). lia.
      * intros _. destruct (Z.leb_spec 10 (u / 10)) as [Hq10|Hq10].
        -- destruct (Hbig Hq10) as (c & ds' & -> & Hc). exists c, (ds' ++ [digit (u mod 10)]).
           split; [reflexivity | assumption].
        -- rewrite (Hsmall Hq10). exists (digit (u / 10)), [digit (u mod 10)].
           split; [reflexivity|]. apply digit_nonzero.
           assert (1 <= u / 10) by (apply Z.div_le_lower_bound; lia). lia.
    + assert (0 <= u <= 9) by lia.
      exists [digit u]. split; [reflexivity|]. split; [|simpl; lia].
      split; [discriminate|]. split; [repeat constructor; apply isDigit_digit; lia|].
      split; [|split; [reflexivity | lia]].
      intros n. simpl. rewrite isDigit_digit, byteZ_digit by lia.
      f_equal. change (10 ^ Z.of_nat 1) with 10. lia.
Qed.

Lemma byteZ_inj c d : byteZ c = byteZ d -> c = d.
Proof.
  unfold byteZ. intros Heq. apply N2Z.inj in Heq.
  rewrite <- (ascii_N_embedding c), <- (ascii_N_embedding d), Heq. reflexivity.
Qed.

Lemma scanNumber_state0 rest :
  number_end rest = true -> json.scanNumber json.state0 rest = Some ([], rest).
Proof.
  destruct rest as [|c rest]; [reflexivity|]. cbn [json.scanNumber number_end].
  intros Hend. apply andb_true_iff in Hend as [Hend Hexp].
  apply andb_true_iff in Hend as [_ Hdot].
  apply negb_true_iff in Hexp, Hdot. rewrite Hdot, Hexp. reflexivity.
Qed.

Lemma scanNumber_state1 ds rest :
  Forall (fun c => isDigit c = true) ds -> number_end rest = true ->
  json.scanNumber json.state1 (ds ++ rest) = Some (ds, rest).
Proof.
  intros Hds Hend. induction Hds as [|d ds Hd _ IH]; cbn [json.scanNumber app].
  - destruct rest as [|c rest]; [reflexivity|]. cbn [json.scanNumber number_end] in *.
    apply andb_true_iff in Hend as [Hend Hexp].
    apply andb_true_iff in Hend as [Hdig Hdot].
    apply negb_true_iff in Hexp, Hdot, Hdig. rewrite Hdig, Hdot, Hexp. reflexivity.
  - rewrite Hd, IH. reflexivity.
Qed.

Lemma isDigit_not_minus c : isDigit c = true -> (byteZ c =? 0x2D) = false.
Proof.
  unfold isDigit. intros H. apply andb_true_iff in H as [H1 H2].
  apply Z.leb_le in H1, H2. apply Z.eqb_neq. lia.
Qed.

(** The literal of a number that starts with the digits of [u]. *)
Lemma scanNumber_digits st u ds rest :
  digits_of u ds -> 0 <= u -> number_end rest = true ->
  st = json.stateNeg \/ st = json.state1 ->
  (st = json.state1 -> hd "0"%char ds <> "0"%char) ->
  json.scanNumber st (ds ++ rest) = Some (ds, rest).
Proof.
  intros (Hne & Hall & _ & Hsmall & Hbig) Hu Hend Hst Hlead.
  destruct Hst as [->| ->]; [|apply scanNumber_state1; assumption].
  destruct ds as [|c ds]; [contradiction|]. inversion Hall as [|? ? Hc Hds]; subst.
  simpl. destruct (Z.eqb_spec (byteZ c) 0x30) as [Hzero|Hnz].
  - assert (c = "0"%char) by (apply byteZ_inj; exact Hzero). subst c.
    destruct (Z.leb_spec 10 u) as [Hge|Hlt].
    + destruct (Hbig Hge) as (c' & ds' & [= <- <-] & Hc'). contradiction.
    + specialize (Hsmall Hlt). injection Hsmall as _ ->.
      simpl. rewrite scanNumber_state0 by assumption. reflexivity.
  - rewrite Hc. rewrite scanNumber_state1 by assumption. reflexivity.
Qed.

Lemma FormatInt_digits z :
  GoInt.in_range z ->
  exists ds, digits_of (Z.abs z) ds
             /\ FormatInt z = (if z <? 0 then "-"%char :: ds else ds).
Proof.
  unfold GoInt.in_range, GoInt.min_int, GoInt.max_int. intros Hz.
  assert (Habs : 0 <= Z.abs z < 10 ^ (Z.of_nat 19 + 1)).
  { change (10 ^ (Z.of_nat 19 + 1)) with 100000000000000000000. lia. }
  destruct (formatBits_digits 19 (Z.abs z) [] Habs) as (ds & Hfmt & Hds & _).
  rewrite app_nil_r in Hfmt. exists ds. split; [assumption|].
  unfold FormatInt. destruct (Z.ltb_spec z 0).
  - replace (- z) with (Z.abs z) by lia. rewrite Hfmt. reflexivity.
  - replace z with (Z.abs z) at 1 by lia. rewrite Hfmt. reflexivity.
Qed.

Lemma scanNumberLiteral_FormatInt z rest :
  GoInt.in_range z -> number_end rest = true ->
  json.scanNumberLiteral (FormatInt z ++ rest) = Some (FormatInt z, rest).
Proof.
  intros Hz Hend. destruct (FormatInt_digits z Hz) as (ds & Hds & ->).
  pose proof Hds as (Hne & Hall & _ & Hsmall & Hbig).
  destruct (z <? 0).
  - simpl. rewrite (scanNumber_digits json.stateNeg (Z.abs z) ds rest)
      by (auto; lia || congruence). reflexivity.
  - destruct ds as [|c ds]; [contradiction|]. inversion Hall as [|? ? Hc Hrest]; subst.
    simpl. rewrite (isDigit_not_minus _ Hc).
    destruct (Z.eqb_spec (byteZ c) 0x30) as [Hzero|Hnz].
    + assert (c = "0"%char) by (apply byteZ_inj; exact Hzero). subst c.
      destruct (Z.leb_spec 10 (Z.abs z)) as [Hge|Hlt].
      * destruct (Hbig Hge) as (c' & ds' & [= <- <-] & Hc'). contradiction.
      * specialize (Hsmall Hlt). injection Hsmall as _ ->.
        simpl. rewrite scanNumber_state0 by assumption. reflexivity.
    + rewrite Hc, scanNumber_state1 by assumption. reflexivity.
Qed.

Lemma digit_not_sign c {A} (s : list ascii) (a b : list ascii -> A) (d : A) :
  isDigit c = true ->
  match c :: s with
  | "+"%char :: s' => a s'
  | "-"%char :: s' => b s'
  | _ => d
  end = d.
Proof.
  destruct c as [[] [] [] [] [] [] [] []]; try reflexivity; vm_compute; congruence.
Qed.

Lemma ParseInt_FormatInt z : GoInt.in_range z -> ParseInt (FormatInt z) = Some z.
Proof.
  intros Hz. destruct (FormatInt_digits z Hz) as (ds & Hds & ->).
  destruct Hds as (Hne & Hall & Hval & _ & _).
  unfold GoInt.in_range, GoInt.min_int, GoInt.max_int in Hz.
  unfold ParseInt. destruct (Z.ltb_spec z 0) as [Hneg|Hpos].
  - destruct ds as [|c ds]; [contradiction|]. rewrite Hval. simpl negb. cbv iota beta.
    unfold GoInt.max_int. rewrite Z.mul_0_l, Z.add_0_l.
    destruct (Z.ltb_spec (2 ^ 63 - 1 + 1) (Z.abs z)); [lia|].
    simpl. f_equal. lia.
  - destruct ds as [|c ds]; [contradiction|]. inversion Hall as [|? ? Hc Hrest]; subst.
    rewrite (digit_not_sign c ds _ _ (false, c :: ds) Hc).
    rewrite Hval. unfold GoInt.max_int. rewrite Z.mul_0_l, Z.add_0_l.
    destruct (Z.ltb_spec (2 ^ 63 - 1) (Z.abs z)); [lia|].
    simpl. f_equal. lia.
Qed.

Lemma FormatInt_head z :
  GoInt.in_range z ->
  exists c s, FormatInt z = c :: s /\ (isDigit c = true \/ c = "-"%char).
Proof.
  intros Hz. destruct (FormatInt_digits z Hz) as (ds & (Hne & Hall & _) & ->).
  destruct (z <? 0); [eauto|].
  destruct ds as [|c ds]; [contradiction|]. inversion Hall; subst. eauto.
Qed.

Lemma literal_mismatch name c (s : list ascii) :
  match list_ascii_of_string name with
  | [] => False
  | n :: _ => n <> c
  end ->
  json.literal name (c :: s) = None.
Proof.
  unfold json.literal. destruct (list_ascii_of_string name) as [|n p]; [tauto|].
  intros Hne. simpl. rewrite bool_decide_eq_false_2 by assumption. reflexivity.
Qed.

Lemma decodeInt_FormatInt z rest :
  GoInt.in_range z -> number_end rest = true ->
  json.decodeInt (FormatInt z ++ rest) = Some (Some z, rest).
Proof.
  intros Hz Hend. unfold json.decodeInt.
  destruct (FormatInt_head z Hz) as (c & s & Hfmt & Hc).
  assert (Hnull : json.literal "null" (FormatInt z ++ rest) = None).
  { rewrite Hfmt. simpl app. apply literal_mismatch. simpl.
    destruct Hc as [Hc| ->]; [|discriminate].
    intros <-. discriminate. }
  rewrite Hnull, scanNumberLiteral_FormatInt by assumption. simpl.
  rewrite ParseInt_FormatInt by assumption. reflexivity.
Qed.


(** ** Runes and their bytes *)

Lemma byte_byteZ c : byte (byteZ c) = c.
Proof. unfold byte, byteZ. rewrite N2Z.id. apply ascii_N_embedding. Qed.

Lemma lead_cases b sz lo hi :
  lead b = Some (sz, lo, hi) ->
  (sz = 2%nat /\ 0xC2 <= b <= 0xDF /\ lo = 0x80 /\ hi = 0xBF)
  \/ (sz = 3%nat /\ b = 0xE0 /\ lo = 0xA0 /\ hi = 0xBF)
  \/ (sz = 3%nat /\ (0xE1 <= b <= 0xEC \/ 0xEE <= b <= 0xEF) /\ lo = 0x80 /\ hi = 0xBF)
  \/ (sz = 3%nat /\ b = 0xED /\ lo = 0x80 /\ hi = 0x9F)
  \/ (sz = 4%nat /\ b = 0xF0 /\ lo = 0x90 /\ hi = 0xBF)
  \/ (sz = 4%nat /\ 0xF1 <= b <= 0xF3 /\ lo = 0x80 /\ hi = 0xBF)
  \/ (sz = 4%nat /\ b = 0xF4 /\ lo = 0x80 /\ hi = 0x8F).
Proof.
  unfold lead.
  repeat match goal with
  | |- context [if ?c then _ else _] => destruct c eqn:?
  end; intros [= <- <- <-];
  repeat match goal with
  | H : (_ && _) = true |- _ => apply andb_true_iff in H as [? ?]
  | H : (_ <=? _) = true |- _ => apply Z.leb_le in H
  | H : (_ =? _) = true |- _ => apply Z.eqb_eq in H
  end; try lia.
  all: try (right; lia). 
Qed.

(** Bits that do not overlap add up. *)
Lemma lor_add a b k :
  0 <= k -> 0 <= b < 2 ^ k -> Z.lor (a * 2 ^ k) b = a * 2 ^ k + b.
Proof.
  intros Hk Hb. rewrite <- Z.lxor_lor, <- Z.add_nocarry_lxor; try reflexivity.
  all: apply Z.bits_inj'; intros n Hn; rewrite Z.land_spec, Z.bits_0;
    destruct (Z.ltb_spec n k);
    [rewrite Z.mul_pow2_bits_low by lia; reflexivity|];
    rewrite <- (Z.mod_small b (2 ^ k)) by lia;
    rewrite Z.mod_pow2_bits_high by lia; apply andb_false_r.
Qed.

Lemma land_low x k : 0 <= k -> Z.land x (Z.ones k) = x mod 2 ^ k.
Proof. intros. apply Z.land_ones. assumption. Qed.

(** The bit operations of the codec as arithmetic, for values in range. *)
Ltac bits_to_arith :=
  change 0x3F with (Z.ones 6) in *; change 0x1F with (Z.ones 5) in *;
  change 0x0F with (Z.ones 4) in *; change 0x07 with (Z.ones 3) in *;
  rewrite ?land_low in * by lia;
  rewrite ?Z.shiftl_mul_pow2, ?Z.shiftr_div_pow2 in * by lia.

Lemma decode2_arith s0 s1 :
  0xC0 <= s0 <= 0xDF -> 0x80 <= s1 <= 0xBF ->
  Z.lor (Z.shiftl (Z.land s0 0x1F) 6) (Z.land s1 0x3F)
  = (s0 - 0xC0) * 64 + (s1 - 0x80).
Proof.
  intros H0 H1. bits_to_arith.
  rewrite lor_add by (try lia; apply Z.mod_pos_bound; lia).
  change (2 ^ 6) with 64. change (2 ^ 5) with 32.
  pose proof (Z.div_mod s0 32 ltac:(lia)). pose proof (Z.mod_pos_bound s0 32 ltac:(lia)).
  pose proof (Z.div_mod s1 64 ltac:(lia)). pose proof (Z.mod_pos_bound s1 64 ltac:(lia)).
  lia.
Qed.

Lemma cont_low s : 0x80 <= s <= 0xBF -> Z.land s 0x3F = s - 0x80.
Proof.
  intros Hs. change 0x3F with (Z.ones 6). rewrite Z.land_ones by lia.
  change (2 ^ 6) with 64.
  pose proof (Z.div_mod s 64 ltac:(lia)). pose proof (Z.mod_pos_bound s 64 ltac:(lia)). lia.
Qed.

Lemma lead3_low s : 0xE0 <= s <= 0xEF -> Z.land s 0x0F = s - 0xE0.
Proof.
  intros Hs. change 0x0F with (Z.ones 4). rewrite Z.land_ones by lia.
  change (2 ^ 4) with 16.
  pose proof (Z.div_mod s 16 ltac:(lia)). pose proof (Z.mod_pos_bound s 16 ltac:(lia)). lia.
Qed.

Lemma lead4_low s : 0xF0 <= s <= 0xF7 -> Z.land s 0x07 = s - 0xF0.
Proof.
  intros Hs. change 0x07 with (Z.ones 3). rewrite Z.land_ones by lia.
  change (2 ^ 3) with 8.
  pose proof (Z.div_mod s 8 ltac:(lia)). pose proof (Z.mod_pos_bound s 8 ltac:(lia)). lia.
Qed.

Lemma lor_shiftl a b k :
  0 <= k -> 0 <= b < 2 ^ k -> Z.lor (Z.shiftl a k) b = a * 2 ^ k + b.
Proof. intros. rewrite Z.shiftl_mul_pow2 by lia. apply lor_add; assumption. Qed.

Lemma decode3_arith s0 s1 s2 :
  0xE0 <= s0 <= 0xEF -> 0x80 <= s1 <= 0xBF -> 0x80 <= s2 <= 0xBF ->
  Z.lor (Z.lor (Z.shiftl (Z.land s0 0x0F) 12) (Z.shiftl (Z.land s1 0x3F) 6))
        (Z.land s2 0x3F)
  = (s0 - 0xE0) * 4096 + (s1 - 0x80) * 64 + (s2 - 0x80).
Proof.
  intros H0 H1 H2. rewrite lead3_low, !cont_low by assumption.
  rewrite (Z.shiftl_mul_pow2 (s1 - 128)) by lia.
  rewrite (lor_shiftl _ ((s1 - 128) * 2 ^ 6) 12) by (change (2 ^ 6) with 64; change (2 ^ 12) with 4096; lia).
  replace ((s0 - 224) * 2 ^ 12 + (s1 - 128) * 2 ^ 6)
    with (((s0 - 224) * 64 + (s1 - 128)) * 2 ^ 6)
    by (change (2 ^ 6) with 64; change (2 ^ 12) with 4096; lia).
  rewrite lor_add by (change (2 ^ 6) with 64; lia).
  change (2 ^ 6) with 64. lia.
Qed.

Lemma decode4_arith s0 s1 s2 s3 :
  0xF0 <= s0 <= 0xF7 -> 0x80 <= s1 <= 0xBF -> 0x80 <= s2 <= 0xBF ->
  0x80 <= s3 <= 0xBF ->
  Z.lor (Z.lor (Z.lor (Z.shiftl (Z.land s0 0x07) 18)
                      (Z.shiftl (Z.land s1 0x3F) 12))
               (Z.shiftl (Z.land s2 0x3F) 6))
        (Z.land s3 0x3F)
  = (s0 - 0xF0) * 262144 + (s1 - 0x80) * 4096 + (s2 - 0x80) * 64 + (s3 - 0x80).
Proof.
  intros H0 H1 H2 H3. rewrite lead4_low, !cont_low by assumption.
  rewrite (Z.shiftl_mul_pow2 (s1 - 128)), (Z.shiftl_mul_pow2 (s2 - 128)) by lia.
  rewrite (lor_shiftl _ ((s1 - 128) * 2 ^ 12) 18)
    by (change (2 ^ 18) with 262144; change (2 ^ 12) with 4096; lia).
  replace ((s0 - 240) * 2 ^ 18 + (s1 - 128) * 2 ^ 12)
    with (((s0 - 240) * 64 + (s1 - 128)) * 2 ^ 12)
    by (change (2 ^ 18) with 262144; change (2 ^ 12) with 4096; lia).
  rewrite (lor_add _ ((s2 - 128) * 2 ^ 6) 12)
    by (change (2 ^ 6) with 64; change (2 ^ 12) with 4096; lia).
  replace (((s0 - 240) * 64 + (s1 - 128)) * 2 ^ 12 + (s2 - 128) * 2 ^ 6)
    with ((((s0 - 240) * 64 + (s1 - 128)) * 64 + (s2 - 128)) * 2 ^ 6)
    by (change (2 ^ 6) with 64; change (2 ^ 12) with 4096; lia).
  rewrite lor_add by (change (2 ^ 6) with 64; lia).
  change (2 ^ 6) with 64. lia.
Qed.

(** The bytes that [EncodeRune] computes, as arithmetic. *)
Lemma encode_cont r : 0 <= r -> Z.lor 0x80 (Z.land r 0x3F) = 0x80 + r mod 64.
Proof.
  intros Hr. change 0x3F with (Z.ones 6). rewrite Z.land_ones by lia.
  change 0x80 with (2 * 2 ^ 6). rewrite lor_add; [reflexivity | lia |].
  apply Z.mod_pos_bound. lia.
Qed.

Ltac bool_cases :=
  repeat match goal with
  | |- context [?a <=? ?b] => destruct (Z.leb_spec a b)
  | |- context [?a <? ?b] => destruct (Z.ltb_spec a b)
  end; cbn [andb orb negb]; try lia.

Ltac byte_arith :=
  rewrite ?Z.shiftr_div_pow2 by lia;
  change (2 ^ 6) with 64; change (2 ^ 12) with 4096; change (2 ^ 18) with 262144;
  Z.div_mod_to_equations; lia.

Lemma encode2 s0 s1 :
  0xC2 <= s0 <= 0xDF -> 0x80 <= s1 <= 0xBF ->
  EncodeRune ((s0 - 0xC0) * 64 + (s1 - 0x80)) = [byte s0; byte s1].
Proof.
  intros H0 H1. set (r := (s0 - 0xC0) * 64 + (s1 - 0x80)).
  assert (Hr : 0x80 <= r <= 0x7FF) by (subst r; lia).
  unfold EncodeRune. bool_cases.
  rewrite encode_cont by lia. rewrite Z.shiftr_div_pow2 by lia.
  change 0xC0 with (6 * 2 ^ 5). rewrite lor_add; try lia.
  - f_equal; [|f_equal]; f_equal; subst r; byte_arith.
  - change (2 ^ 5) with 32. subst r. byte_arith.
Qed.

Lemma encode3 s0 s1 s2 :
  0xE0 <= s0 <= 0xEF -> 0x80 <= s1 <= 0xBF -> 0x80 <= s2 <= 0xBF ->
  (s0 = 0xE0 -> 0xA0 <= s1) -> (s0 = 0xED -> s1 <= 0x9F) ->
  EncodeRune ((s0 - 0xE0) * 4096 + (s1 - 0x80) * 64 + (s2 - 0x80))
  = [byte s0; byte s1; byte s2].
Proof.
  intros H0 H1 H2 Hlo Hhi.
  set (r := (s0 - 0xE0) * 4096 + (s1 - 0x80) * 64 + (s2 - 0x80)).
  assert (Hr : 0x800 <= r <= 0xFFFF /\ (r < 0xD800 \/ 0xDFFF < r)) by (subst r; lia).
  unfold EncodeRune. bool_cases.
  all: rewrite (encode_cont r) by lia;
    rewrite (encode_cont (Z.shiftr r 6))
      by (rewrite Z.shiftr_div_pow2 by lia; apply Z.div_pos; lia);
    change 0xE0 with (14 * 2 ^ 4);
    (rewrite lor_add; [| lia | change (2 ^ 4) with 16; byte_arith]);
    (f_equal; [|f_equal; [|f_equal]]); f_equal; subst r; byte_arith.
Qed.

Lemma encode4 s0 s1 s2 s3 :
  0xF0 <= s0 <= 0xF4 -> 0x80 <= s1 <= 0xBF -> 0x80 <= s2 <= 0xBF ->
  0x80 <= s3 <= 0xBF ->
  (s0 = 0xF0 -> 0x90 <= s1) -> (s0 = 0xF4 -> s1 <= 0x8F) ->
  EncodeRune ((s0 - 0xF0) * 262144 + (s1 - 0x80) * 4096 + (s2 - 0x80) * 64
              + (s3 - 0x80))
  = [byte s0; byte s1; byte s2; byte s3].
Proof.
  intros H0 H1 H2 H3 Hlo Hhi.
  set (r := (s0 - 0xF0) * 262144 + (s1 - 0x80) * 4096 + (s2 - 0x80) * 64
            + (s3 - 0x80)).
  assert (Hr : 0x10000 <= r <= 0x10FFFF) by (subst r; lia).
  unfold EncodeRune. bool_cases.
  rewrite (encode_cont r) by lia.
  rewrite (encode_cont (Z.shiftr r 6)), (encode_cont (Z.shiftr r 12))
    by (rewrite Z.shiftr_div_pow2 by lia; apply Z.div_pos; lia).
  change 0xF0 with (30 * 2 ^ 3).
  rewrite lor_add; [| lia | change (2 ^ 3) with 8; byte_arith].
  (f_equal; [|f_equal; [|f_equal; [|f_equal]]]); f_equal; subst r; byte_arith.
Qed.

Lemma cont_range b : cont b = true <-> 0x80 <= b <= 0xBF.
Proof.
  unfold cont. rewrite andb_true_iff, !Z.leb_le. tauto.
Qed.

Lemma DecodeRune_decoded s c size :
  s <> [] -> DecodeRune s = (c, size) -> (c, size) <> (RuneError, 1%nat) ->
  decoded s c size.
Proof.
  intros Hs Hdec Hok. destruct s as [|c0 s]; [contradiction|].
  revert Hdec. unfold DecodeRune.
  destruct (Z.ltb_spec (byteZ c0) RuneSelf) as [H0|H0].
  { intros [= <- <-]. constructor. exact H0. }
  destruct (lead (byteZ c0)) as [[[sz lo] hi]|] eqn:Hlead;
    [|intros [= <- <-]; contradiction].
  apply lead_cases in Hlead.
  destruct (length (c0 :: s) <? sz)%nat; [intros [= <- <-]; contradiction|].
  destruct s as [|c1 s]; [intros [= <- <-]; contradiction|].
  destruct ((byteZ c1 <? lo) || (hi <? byteZ c1)) eqn:H1;
    [intros [= <- <-]; contradiction|].
  apply orb_false_iff in H1 as [H1lo H1hi].
  apply Z.ltb_ge in H1lo, H1hi.
  destruct (sz <=? 2)%nat eqn:Hsz2.
  { apply Nat.leb_le in Hsz2. intros [= <- <-].
    assert (Hc0 : 0xC2 <= byteZ c0 <= 0xDF /\ 0x80 <= byteZ c1 <= 0xBF) by lia.
    destruct Hc0. rewrite decode2_arith by lia. constructor; assumption. }
  apply Nat.leb_gt in Hsz2.
  destruct s as [|c2 s]; [intros [= <- <-]; contradiction|].
  destruct (cont (byteZ c2)) eqn:H2; [|intros [= <- <-]; contradiction].
  apply cont_range in H2. cbn [negb].
  destruct (sz <=? 3)%nat eqn:Hsz3.
  { apply Nat.leb_le in Hsz3. intros [= <- <-].
    rewrite decode3_arith by lia. constructor; lia. }
  apply Nat.leb_gt in Hsz3.
  destruct s as [|c3 s]; [intros [= <- <-]; contradiction|].
  destruct (cont (byteZ c3)) eqn:H3; [|intros [= <- <-]; contradiction].
  apply cont_range in H3. cbn [negb]. intros [= <- <-].
  rewrite decode4_arith by lia. constructor; lia.
Qed.

(** [EncodeRune] writes the bytes that the rune was decoded from. *)
Lemma EncodeRune_decoded s c size : decoded s c size -> EncodeRune c = take size s.
Proof.
  intros [c0 s' H0|c0 c1 s' H0 H1|c0 c1 c2 s' H0 H1 H2 Hlo Hhi
          |c0 c1 c2 c3 s' H0 H1 H2 H3 Hlo Hhi]; cbn [take].
  - pose proof (byteZ_range c0). unfold EncodeRune.
    destruct (Z.leb_spec 0 (byteZ c0)); [|lia].
    destruct (Z.leb_spec (byteZ c0) 0x7F); [|lia].
    cbn [andb]. rewrite byte_byteZ. reflexivity.
  - rewrite encode2, !byte_byteZ by assumption. reflexivity.
  - rewrite encode3, !byte_byteZ by assumption. reflexivity.
  - rewrite encode4, !byte_byteZ by assumption. reflexivity.
Qed.

(** Its bytes after a first byte that is not ASCII are not ASCII either. *)
Lemma decoded_high s c size :
  decoded s c size -> 0x80 <= byteZ (hd "000"%char s) ->
  Forall (fun b => 0x80 <= byteZ b) (take size s).
Proof.
  intros [c0 s' H0|c0 c1 s' H0 H1|c0 c1 c2 s' H0 H1 H2 Hlo Hhi
          |c0 c1 c2 c3 s' H0 H1 H2 H3 Hlo Hhi] Hhd; cbn [take hd] in *;
    repeat constructor; lia.
Qed.

Lemma decoded_size s c size : decoded s c size -> (1 <= size <= 4)%nat.
Proof. intros []; lia. Qed.

Lemma decoded_not_error s c size : decoded s c size -> (c, size) <> (RuneError, 1%nat).
Proof.
  intros Hdec Heq. injection Heq as Hc Hsize.
  destruct Hdec; try discriminate. unfold RuneError in Hc. lia.
Qed.

Lemma lead_size b sz lo hi : lead b = Some (sz, lo, hi) -> (2 <= sz <= 4)%nat.
Proof. intros H. apply lead_cases in H. lia. Qed.

Lemma DecodeRune_take_UTFMax s : DecodeRune (take UTFMax s) = DecodeRune s.
Proof.
  destruct s as [|c0 [|c1 [|c2 [|c3 s]]]]; try reflexivity.
  unfold UTFMax. change (take 4 (c0 :: c1 :: c2 :: c3 :: s)) with [c0; c1; c2; c3].
  unfold DecodeRune.
  destruct (lead (byteZ c0)) as [[[sz lo] hi]|] eqn:Hlead; [|reflexivity].
  apply lead_size in Hlead.
  change (length [c0; c1; c2; c3]) with 4%nat.
  change (length (c0 :: c1 :: c2 :: c3 :: s)) with (S (S (S (S (length s))))).
  destruct (Nat.ltb_spec 4 sz); [lia|].
  destruct (Nat.ltb_spec (S (S (S (S (length s))))) sz); [lia|].
  repeat match goal with
  | |- context [if ?b then _ else _] => destruct b
  end; reflexivity.
Qed.


(** ** String literals *)

Lemma scanString_plain bs tail :
  Forall plain bs ->
  json.scanString (bs ++ tail)
  = '(raw, rest) ← json.scanString tail; Some (bs ++ raw, rest).
Proof.
  induction 1 as [|b bs (H20 & H22 & H5C) _ IH]; cbn [app json.scanString].
  - destruct (json.scanString tail) as [[raw rest]|]; reflexivity.
  - destruct (Z.eqb_spec (byteZ b) 0x22); [contradiction|].
    destruct (Z.eqb_spec (byteZ b) 0x5C); [contradiction|].
    destruct (Z.ltb_spec (byteZ b) 0x20); [lia|].
    rewrite IH. destruct (json.scanString tail) as [[raw rest]|]; reflexivity.
Qed.

Lemma scanString_quote tail : json.scanString (json.quote :: tail) = Some ([], tail).
Proof. reflexivity. Qed.

Lemma htmlSafe_plain b : json.htmlSafe b = true -> plain b.
Proof.
  unfold json.htmlSafe, plain. intros H.
  repeat (apply andb_true_iff in H as [H ?]).
  repeat match goal with
  | H : negb _ = true |- _ => apply negb_true_iff, Z.eqb_neq in H
  | H : (_ <=? _) = true |- _ => apply Z.leb_le in H
  end. lia.
Qed.

Lemma high_plain b : 0x80 <= byteZ b -> plain b.
Proof. unfold plain. lia. Qed.

Lemma escape_scan b X :
  byteZ b < RuneSelf -> json.htmlSafe b = false ->
  json.scanString (json.escapeByte b ++ X)
  = '(raw, rest) ← json.scanString X; Some (json.escapeByte b ++ raw, rest).
Proof.
  destruct b as [[] [] [] [] [] [] [] []]; intros H1 H2;
    try (vm_compute in H1; discriminate); try (vm_compute in H2; discriminate);
    simpl; destruct (json.scanString X) as [[raw rest]|]; reflexivity.
Qed.

Lemma escape_unquote b X :
  byteZ b < RuneSelf -> json.htmlSafe b = false ->
  json.unquote_loop 0 (json.escapeByte b ++ X)
  = out ← json.unquote_loop 0 X; Some (b :: out).
Proof.
  destruct b as [[] [] [] [] [] [] [] []]; intros H1 H2;
    try (vm_compute in H1; discriminate); try (vm_compute in H2; discriminate);
    simpl; destruct (json.unquote_loop 0 X) as [out|]; reflexivity.
Qed.

Lemma valid_loop_drop p s : valid_loop p s = valid_loop 0 (drop p s).
Proof.
  revert s. induction p as [|p IH]; intros s; [rewrite drop_0; reflexivity|].
  destruct s as [|c s]; [reflexivity|]. simpl. apply IH.
Qed.

(** The first rune of a valid string, and the rest of it. *)
Lemma valid_step s :
  s <> [] -> valid_loop 0 s = true ->
  exists c size, DecodeRune s = (c, size) /\ decoded s c size
                 /\ valid_loop 0 (drop size s) = true.
Proof.
  intros Hs Hvalid. destruct s as [|b s]; [contradiction|].
  cbn [valid_loop] in Hvalid. destruct (DecodeRune (b :: s)) as [c size] eqn:Hdec.
  destruct ((c =? RuneError) && (size =? 1)%nat) eqn:Herr; [discriminate|].
  assert (Hok : (c, size) <> (RuneError, 1%nat)).
  { intros [= -> ->]. discriminate. }
  pose proof (DecodeRune_decoded _ _ _ Hs Hdec Hok) as Hd.
  exists c, size. split; [reflexivity|]. split; [assumption|].
  rewrite valid_loop_drop in Hvalid. pose proof (decoded_size _ _ _ Hd).
  destruct size as [|size]; [lia|]. simpl in Hvalid. rewrite Nat.sub_0_r in Hvalid.
  exact Hvalid.
Qed.

Lemma unquote_pending bs X :
  json.unquote_loop (length bs) (bs ++ X) = json.unquote_loop 0 X.
Proof.
  induction bs as [|b bs IH]; [reflexivity|]. exact IH.
Qed.

Lemma scanString_chunk (chunk : list ascii) fuel src tail :
  (forall X, json.scanString (chunk ++ X)
             = '(raw, rest) ← json.scanString X; Some (chunk ++ raw, rest)) ->
  json.scanString (json.appendString_loop fuel src ++ json.quote :: tail)
  = Some (json.appendString_loop fuel src, tail) ->
  json.scanString ((chunk ++ json.appendString_loop fuel src) ++ json.quote :: tail)
  = Some (chunk ++ json.appendString_loop fuel src, tail).
Proof.
  intros Hchunk IH. rewrite <- app_assoc, Hchunk, IH. reflexivity.
Qed.

Lemma replacement_scan X :
  json.scanString (list_ascii_of_string "\ufffd" ++ X)
  = '(raw, rest) ← json.scanString X;
    Some (list_ascii_of_string "\ufffd" ++ raw, rest).
Proof. simpl. destruct (json.scanString X) as [[raw rest]|]; reflexivity. Qed.

Lemma separator_scan c X :
  c = 0x2028 \/ c = 0x2029 ->
  json.scanString ((list_ascii_of_string "\u202" ++ [json.hex (Z.land c 0xF)]) ++ X)
  = '(raw, rest) ← json.scanString X;
    Some ((list_ascii_of_string "\u202" ++ [json.hex (Z.land c 0xF)]) ++ raw, rest).
Proof.
  intros [-> | ->]; simpl; destruct (json.scanString X) as [[raw rest]|]; reflexivity.
Qed.

(** The scanner finds the closing quote of a literal that the encoder wrote. *)
Lemma appendString_scan fuel : forall src tail,
  json.scanString (json.appendString_loop fuel src ++ json.quote :: tail)
  = Some (json.appendString_loop fuel src, tail).
Proof.
  induction fuel as [|fuel IH]; intros src tail; [reflexivity|].
  destruct src as [|b src]; [reflexivity|]. cbn [json.appendString_loop].
  destruct (Z.ltb_spec (byteZ b) RuneSelf) as [Hb|Hb].
  { destruct (json.htmlSafe b) eqn:Hsafe.
    - apply scanString_chunk; [|apply IH]. intros X.
      apply scanString_plain.
      constructor; [apply htmlSafe_plain, Hsafe | constructor].
    - apply scanString_chunk; [|apply IH]. intros X. apply escape_scan; assumption. }
  rewrite DecodeRune_take_UTFMax.
  destruct (DecodeRune (b :: src)) as [c size] eqn:Hdec.
  destruct ((c =? RuneError) && (size =? 1)%nat) eqn:Herr.
  { apply scanString_chunk; [|apply IH]. apply replacement_scan. }
  assert (Hok : (c, size) <> (RuneError, 1%nat)).
  { intros [= -> ->]. discriminate. }
  assert (Hd : decoded (b :: src) c size).
  { apply DecodeRune_decoded; [discriminate|assumption..]. }
  destruct ((c =? 0x2028) || (c =? 0x2029)) eqn:Hsep.
  { set (out := json.appendString_loop fuel (drop size (b :: src))).
    change (list_ascii_of_string "\u202" ++ json.hex (Z.land c 0xF) :: out)
      with ((list_ascii_of_string "\u202" ++ [json.hex (Z.land c 0xF)]) ++ out).
    apply scanString_chunk; [|apply IH]. intros X. apply separator_scan.
    apply orb_true_iff in Hsep as [H|H]; apply Z.eqb_eq in H; auto. }
  apply scanString_chunk; [|apply IH]. intros X. apply scanString_plain.
  eapply Forall_impl; [apply (decoded_high _ _ _ Hd); exact Hb|].
  intros a Ha. apply high_plain. exact Ha.
Qed.

Lemma separator_unquote c X :
  c = 0x2028 \/ c = 0x2029 ->
  json.unquote_loop 0 (list_ascii_of_string "\u202" ++ json.hex (Z.land c 0xF) :: X)
  = out ← json.unquote_loop 0 X; Some (EncodeRune c ++ out).
Proof.
  intros [-> | ->]; simpl; destruct (json.unquote_loop 0 X) as [out|]; reflexivity.
Qed.

Lemma decoded_length s c size : decoded s c size -> (size <= length s)%nat.
Proof. intros []; cbn [length]; lia. Qed.

Lemma rune_unquote s c size X :
  DecodeRune s = (c, size) -> decoded s c size -> 0x80 <= byteZ (hd "000"%char s) ->
  json.unquote_loop 0 (take size s ++ X)
  = out ← json.unquote_loop 0 X; Some (take size s ++ out).
Proof.
  intros Hrune Hd Hhigh.
  assert (Hs : s <> []) by (destruct Hd; discriminate).
  pose proof (DecodeRune_prefix s c size X Hrune (decoded_not_error _ _ _ Hd) Hs) as Hdec.
  pose proof (EncodeRune_decoded _ _ _ Hd) as Henc.
  pose proof (decoded_size _ _ _ Hd) as Hsize.
  destruct s as [|b s]; [contradiction|]. cbn [hd] in Hhigh.
  destruct size as [|size]; [lia|].
  change (take (S size) (b :: s)) with (b :: take size s) in *.
  cbn [app json.unquote_loop].
  destruct (Z.eqb_spec (byteZ b) 0x5C); [lia|].
  destruct (Z.eqb_spec (byteZ b) 0x22); [lia|].
  destruct (Z.ltb_spec (byteZ b) 0x20); [lia|].
  destruct (Z.ltb_spec (byteZ b) RuneSelf); [unfold RuneSelf in *; lia|].
  cbn [orb]. cbn [app] in Hdec. rewrite Hdec.
  replace (S size - 1)%nat with (length (take size s)).
  - rewrite unquote_pending, Henc. reflexivity.
  - rewrite length_take. apply decoded_length in Hd. cbn [length] in Hd. lia.
Qed.

(** Reading back the literal of a valid string gives the string. *)
Lemma appendString_unquote fuel : forall src,
  (length src <= fuel)%nat -> valid_loop 0 src = true ->
  json.unquote_loop 0 (json.appendString_loop fuel src) = Some src.
Proof.
  induction fuel as [|fuel IH]; intros src Hlen Hvalid.
  { destruct src; [reflexivity|cbn [length] in Hlen; lia]. }
  destruct src as [|b src]; [reflexivity|].
  destruct (valid_step (b :: src)) as (c & size & Hrune & Hd & Hrest);
    [discriminate|assumption|].
  pose proof (decoded_size _ _ _ Hd) as Hsize.
  assert (Hdrop : (length (drop size (b :: src)) <= fuel)%nat).
  { rewrite length_drop. cbn [length] in *. lia. }
  cbn [json.appendString_loop].
  destruct (Z.ltb_spec (byteZ b) RuneSelf) as [Hb|Hb].
  { assert (size = 1%nat) as ->.
    { revert Hrune. unfold DecodeRune.
      destruct (Z.ltb_spec (byteZ b) RuneSelf); [|lia]. intros [= _ <-]. reflexivity. }
    change (drop 1 (b :: src)) with src in *.
    destruct (json.htmlSafe b) eqn:Hsafe.
    - cbn [app json.unquote_loop].
      apply htmlSafe_plain in Hsafe as (H20 & H22 & H5C).
      destruct (Z.eqb_spec (byteZ b) 0x5C); [lia|].
      destruct (Z.eqb_spec (byteZ b) 0x22); [lia|].
      destruct (Z.ltb_spec (byteZ b) 0x20); [lia|].
      destruct (Z.ltb_spec (byteZ b) RuneSelf); [|lia].
      cbn [orb]. rewrite IH by assumption. reflexivity.
    - rewrite escape_unquote, IH by assumption. reflexivity. }
  rewrite DecodeRune_take_UTFMax, Hrune.
  destruct ((c =? RuneError) && (size =? 1)%nat) eqn:Herr.
  { apply andb_true_iff in Herr as [Hc Hs]. apply Z.eqb_eq in Hc.
    apply Nat.eqb_eq in Hs. subst. destruct (decoded_not_error _ _ _ Hd). reflexivity. }
  destruct ((c =? 0x2028) || (c =? 0x2029)) eqn:Hsep.
  { rewrite separator_unquote, IH, (EncodeRune_decoded _ _ _ Hd) by
      (try assumption; apply orb_true_iff in Hsep as [H|H]; apply Z.eqb_eq in H; auto).
    cbn. rewrite take_drop. reflexivity. }
  rewrite (rune_unquote _ _ _ _ Hrune Hd Hb), IH by assumption.
  cbn. rewrite take_drop. reflexivity.
Qed.


(** ** Time stamps on the wire *)

Lemma length_fixed w : forall x, length (fixed w x) = w.
Proof.
  induction w as [|w IH]; intros x; [reflexivity|].
  cbn [fixed]. rewrite length_app, IH. simpl. lia.
Qed.

Lemma fixed_digits w : forall x, Forall (fun c => isDigit c = true) (fixed w x).
Proof.
  induction w as [|w IH]; intros x; [constructor|]. cbn [fixed].
  apply Forall_app. split; [apply IH|]. constructor; [|constructor].
  apply isDigit_digit. pose proof (Z.mod_pos_bound x 10). lia.
Qed.

Lemma fixed_zero w : fixed w 0 = replicate w "0"%char.
Proof.
  induction w as [|w IH]; [reflexivity|]. cbn [fixed].
  change (0 / 10) with 0. rewrite IH. change [digit (0 mod 10)] with ["0"%char].
  clear IH. induction w as [|w IH]; [reflexivity|]. simpl. rewrite IH. reflexivity.
Qed.

Lemma parseDigits_fixed w : forall x n,
  0 <= x < 10 ^ Z.of_nat w ->
  parseDigits (fixed w x) n = Some (n * 10 ^ Z.of_nat w + x).
Proof.
  induction w as [|w IH]; intros x n Hx.
  - change (10 ^ Z.of_nat 0) with 1 in *. simpl. f_equal. lia.
  - replace (Z.of_nat (S w)) with (Z.succ (Z.of_nat w)) in * by lia.
    rewrite Z.pow_succ_r in * by lia. cbn [fixed].
    pose proof (Z.mod_pos_bound x 10 ltac:(lia)) as Hmod.
    pose proof (Z.div_mod x 10 ltac:(lia)) as Hdiv.
    rewrite parseDigits_app, IH.
    + simpl. rewrite isDigit_digit, byteZ_digit by lia. f_equal. lia.
    + split; [apply Z.div_pos; lia|]. apply Z.div_lt_upper_bound; lia.
Qed.

Lemma pad_replicate w : forall ds,
  pad w ds = replicate (w - length ds) "0"%char ++ ds.
Proof.
  induction w as [|w IH]; intros ds; [reflexivity|]. cbn [pad].
  destruct (Nat.leb_spec (length ds) w) as [Hle|Hgt].
  - rewrite IH. replace (S w - length ds)%nat with (S (w - length ds)) by lia.
    reflexivity.
  - replace (S w - length ds)%nat with 0%nat by lia. reflexivity.
Qed.

Lemma formatBits_fixed fuel : forall u a w,
  (1 <= w <= S fuel)%nat -> 0 <= u < 10 ^ Z.of_nat w ->
  exists ds, formatBits fuel u a = ds ++ a /\ (1 <= length ds <= w)%nat
             /\ fixed w u = replicate (w - length ds) "0"%char ++ ds.
Proof.
  assert (Hsmall : forall u w, (1 <= w)%nat -> 0 <= u < 10 ->
            fixed w u = replicate (w - 1) "0"%char ++ [digit u]).
  { intros u [|w] Hw Hu; [lia|]. cbn [fixed].
    rewrite Z.div_small, Z.mod_small, fixed_zero by lia.
    replace (S w - 1)%nat with w by lia. reflexivity. }
  induction fuel as [|fuel IH]; intros u a w Hw Hu.
  - assert (w = 1%nat) as -> by lia. change (10 ^ Z.of_nat 1) with 10 in Hu.
    exists [digit u]. cbn [formatBits length]. split; [reflexivity|]. split; [lia|].
    apply Hsmall; lia.
  - cbn [formatBits]. destruct (Z.leb_spec 10 u) as [Hge|Hlt].
    + destruct w as [|w]; [lia|]. destruct w as [|w].
      { change (10 ^ Z.of_nat 1) with 10 in Hu. lia. }
      replace (Z.of_nat (S (S w))) with (Z.succ (Z.of_nat (S w))) in Hu by lia.
      rewrite Z.pow_succ_r in Hu by lia.
      destruct (IH (u / 10) (digit (u mod 10) :: a) (S w)) as (ds & Hfmt & Hlen & Hfix).
      { lia. }
      { split; [apply Z.div_pos; lia|]. apply Z.div_lt_upper_bound; lia. }
      exists (ds ++ [digit (u mod 10)]). rewrite Hfmt, <- app_assoc.
      split; [reflexivity|]. rewrite length_app. cbn [length]. split; [lia|].
      change (fixed (S (S w)) u) with (fixed (S w) (u / 10) ++ [digit (u mod 10)]).
      rewrite Hfix, <- app_assoc. f_equal. f_equal. lia.
    + exists [digit u]. cbn [length]. split; [reflexivity|]. split; [lia|].
      apply Hsmall; lia.
Qed.

(** [appendInt] writes a number that fits the width with all its digits. *)
Lemma appendInt_fixed x w :
  (1 <= w <= 20)%nat -> 0 <= x < 10 ^ Z.of_nat w -> appendInt x w = fixed w x.
Proof.
  intros Hw Hx. unfold appendInt. destruct (Z.ltb_spec x 0); [lia|].
  destruct (formatBits_fixed 19 x [] w ltac:(lia) Hx) as (ds & Hfmt & Hlen & Hfix).
  rewrite app_nil_r in Hfmt. rewrite Hfmt, pad_replicate, Hfix. reflexivity.
Qed.

Lemma parseUint_fixed w x lo hi :
  0 <= x < 10 ^ Z.of_nat w -> lo <= x <= hi ->
  parseUint (fixed w x) lo hi = Some x.
Proof.
  intros Hx Hrange. unfold parseUint. rewrite parseDigits_fixed by assumption.
  destruct (Z.ltb_spec (0 * 10 ^ Z.of_nat w + x) lo); [lia|].
  destruct (Z.ltb_spec hi (0 * 10 ^ Z.of_nat w + x)); [lia|].
  cbn [orb]. f_equal; lia.
Qed.

(** The zeros at the end of a fraction. *)
Lemma dropZeros_replicate r :
  r = replicate (length r - length (dropZeros r)) "0"%char ++ dropZeros r.
Proof.
  induction r as [|c r IH]; [reflexivity|]. cbn [dropZeros].
  destruct (bool_decide_reflect (c = "0"%char)) as [->|Hc].
  - assert (length (dropZeros r) <= length r)%nat.
    { clear. induction r as [|c r IH]; [reflexivity|]. cbn [dropZeros].
      destruct (bool_decide (c = "0"%char)); cbn [length]; lia. }
    cbn [length]. replace (S (length r) - length (dropZeros r))%nat
      with (S (length r - length (dropZeros r))) by lia.
    cbn [replicate app]. f_equal. exact IH.
  - rewrite Nat.sub_diag. reflexivity.
Qed.

Lemma trimZeros_replicate ds :
  ds = trimZeros ds ++ replicate (length ds - length (trimZeros ds)) "0"%char.
Proof.
  unfold trimZeros. rewrite length_rev.
  pose proof (dropZeros_replicate (rev ds)) as H. rewrite length_rev in H.
  apply (f_equal (@rev ascii)) in H. rewrite rev_involutive, rev_app_distr in H.
  rewrite H at 1. f_equal.
  clear. generalize (length ds - length (dropZeros (rev ds)))%nat as k.
  induction k as [|k IH]; [reflexivity|]. cbn [replicate rev]. rewrite IH.
  clear. induction k as [|k IH]; [reflexivity|]. cbn [replicate app]. f_equal. exact IH.
Qed.

Lemma parseDigits_zeros k : forall n,
  parseDigits (replicate k "0"%char) n = Some (n * 10 ^ Z.of_nat k).
Proof.
  induction k as [|k IH]; intros n.
  - simpl. f_equal. lia.
  - cbn [replicate parseDigits]. change (isDigit "0") with true. cbn iota.
    rewrite IH. f_equal. change (byteZ "0") with 48.
    replace (Z.of_nat (S k)) with (Z.succ (Z.of_nat k)) by lia.
    rewrite Z.pow_succ_r by lia. lia.
Qed.

Lemma takeDigits_app ds rest :
  Forall (fun c => isDigit c = true) ds ->
  from_option isDigit false (head rest) = false ->
  takeDigits (ds ++ rest) = ds.
Proof.
  intros Hds Hrest. induction Hds as [|c ds Hc _ IH].
  - destruct rest as [|c rest]; [reflexivity|]. cbn in *. rewrite Hrest. reflexivity.
  - cbn [app takeDigits]. rewrite Hc, IH. reflexivity.
Qed.

(** The fraction of a second, as [appendNano] writes it and
    [parseNanoseconds] reads it. *)
Lemma appendNano_digits ns :
  0 < ns <= 999999999 ->
  exists c ds, appendNano ns = "."%char :: c :: ds
               /\ Forall (fun c => isDigit c = true) (c :: ds)
               /\ parseNanoseconds (c :: ds) = Some ns.
Proof.
  intros Hns. unfold appendNano. destruct (Z.eqb_spec ns 0); [lia|].
  rewrite appendInt_fixed by (change (10 ^ Z.of_nat 9) with 1000000000; lia).
  pose proof (trimZeros_replicate (fixed 9 ns)) as Htrim.
  pose proof (length_fixed 9 ns) as Hlen.
  pose proof (fixed_digits 9 ns) as Hdigits.
  pose proof (parseDigits_fixed 9 ns 0) as Hparse.
  change (10 ^ Z.of_nat 9) with 1000000000 in Hparse.
  specialize (Hparse ltac:(lia)).
  remember (trimZeros (fixed 9 ns)) as ds eqn:Hds.
  rewrite Hlen in Htrim. rewrite Htrim in Hdigits, Hparse, Hlen.
  apply Forall_app in Hdigits as [Hdigits _].
  rewrite length_app, length_replicate in Hlen.
  rewrite parseDigits_app in Hparse.
  destruct (parseDigits ds 0) as [v|] eqn:Hv; [|discriminate]. cbn [mbind option_bind] in Hparse.
  rewrite parseDigits_zeros in Hparse. injection Hparse as Hparse.
  destruct ds as [|c ds'] eqn:Eds.
  { cbn in Hv. injection Hv as <-. lia. }
  exists c, ds'. split; [reflexivity|]. split; [assumption|].
  cbn [length] in Hlen. unfold parseNanoseconds. rewrite take_ge by (cbn [length]; lia). rewrite Hv. f_equal.
  rewrite Hparse. lia.
Qed.

Lemma fixed2_shape x : exists a b, fixed 2 x = [a; b].
Proof. eexists _, _. reflexivity. Qed.

Lemma fixed4_shape x : exists a b c d, fixed 4 x = [a; b; c; d].
Proof. eexists _, _, _, _. reflexivity. Qed.

Ltac bounds H :=
  repeat match type of H with
  | _ && _ = true => let H' := fresh "B" in apply andb_true_iff in H as [H H']
  end;
  repeat match goal with
  | B : (_ <=? _) = true |- _ => apply Z.leb_le in B
  | B : (_ <? _) = true |- _ => apply Z.ltb_lt in B
  | B : (_ =? _) = true |- _ => apply Z.eqb_eq in B
  end.

Lemma appendZone_shape off :
  off <> 0 -> off mod 60 = 0 -> -86400 < off < 86400 ->
  exists a b c d,
    appendZone off = [if off <? 0 then "-"%char else "+"%char; a; b; ":"%char; c; d]
    /\ isDigit a = true
    /\ parseUint [a; b] 0 23 = Some (Z.abs off / 3600)
    /\ parseUint [c; d] 0 59 = Some (Z.abs off / 60 mod 60).
Proof.
  intros Hne Hmod Hrange. unfold appendZone.
  destruct (Z.eqb_spec off 0); [contradiction|]. cbv zeta.
  assert (Hquot : Z.abs (Z.quot off 60) = Z.abs off / 60).
  { rewrite <- Z.quot_abs by lia. apply Z.quot_div_nonneg; lia. }
  assert (Hsign : (Z.quot off 60 <? 0) = (off <? 0)).
  { pose proof (Z.quot_rem' off 60) as Hqr.
    pose proof (Z.rem_mod_eq_0 off 60 ltac:(lia)) as Hrem.
    apply Hrem in Hmod. destruct (Z.ltb_spec off 0), (Z.ltb_spec (Z.quot off 60) 0);
      try reflexivity; lia. }
  rewrite Hquot, Hsign.
  assert (Habs : 0 <= Z.abs off / 60 < 1440).
  { split; [apply Z.div_pos; lia|]. apply Z.div_lt_upper_bound; lia. }
  assert (Hh : 0 <= Z.abs off / 60 / 60 <= 23).
  { split; [apply Z.div_pos; lia|].
    assert (Z.abs off / 60 / 60 < 24) by (apply Z.div_lt_upper_bound; lia). lia. }
  pose proof (Z.mod_pos_bound (Z.abs off / 60) 60 ltac:(lia)) as Hm.
  rewrite !appendInt_fixed by (change (10 ^ Z.of_nat 2) with 100; lia).
  pose proof (parseUint_fixed 2 (Z.abs off / 60 / 60) 0 23) as Hp1.
  pose proof (parseUint_fixed 2 (Z.abs off / 60 mod 60) 0 59) as Hp2.
  pose proof (fixed_digits 2 (Z.abs off / 60 / 60)) as Hd.
  change (10 ^ Z.of_nat 2) with 100 in *.
  destruct (fixed2_shape (Z.abs off / 60 / 60)) as (a & b & Hab).
  destruct (fixed2_shape (Z.abs off / 60 mod 60)) as (c & d & Hcd).
  rewrite Hab in *. rewrite Hcd in *.
  exists a, b, c, d. split; [reflexivity|].
  split; [apply Forall_cons in Hd as [Hd _]; exact Hd|].
  rewrite Hp1, Hp2 by lia. rewrite Z.div_div by lia. split; reflexivity.
Qed.

Lemma appendFormat_shape t :
  encodable t = true ->
  exists y1 y2 y3 y4 m1 m2 d1 d2 h1 h2 i1 i2 s1 s2,
    appendFormatRFC3339 t
    = [y1; y2; y3; y4; "-"%char; m1; m2; "-"%char; d1; d2; "T"%char;
       h1; h2; ":"%char; i1; i2; ":"%char; s1; s2]
      ++ appendNano (time.Nanosecond t) ++ appendZone (time.ZoneOffset t)
    /\ parseUint [y1; y2; y3; y4] 0 9999 = Some (time.Year t)
    /\ parseUint [m1; m2] 1 12 = Some (time.Month t)
    /\ parseUint [d1; d2] 1 (time.daysIn (time.Month t) (time.Year t))
       = Some (time.Day t)
    /\ parseUint [h1; h2] 0 23 = Some (time.Hour t)
    /\ parseUint [i1; i2] 0 59 = Some (time.Minute t)
    /\ parseUint [s1; s2] 0 59 = Some (time.Second t).
Proof.
  intros H. unfold encodable, time.wf in H. bounds H.
  assert (Hdays : time.daysIn (time.Month t) (time.Year t) <= 31).
  { unfold time.daysIn.
    repeat match goal with |- context [if ?b then _ else _] => destruct b end; lia. }
  unfold appendFormatRFC3339.
  rewrite (appendInt_fixed (time.Year t) 4), (appendInt_fixed (time.Month t) 2),
    (appendInt_fixed (time.Day t) 2), (appendInt_fixed (time.Hour t) 2),
    (appendInt_fixed (time.Minute t) 2), (appendInt_fixed (time.Second t) 2)
    by (try change (10 ^ Z.of_nat 2) with 100;
        try change (10 ^ Z.of_nat 4) with 10000; lia).
  pose proof (parseUint_fixed 4 (time.Year t) 0 9999) as Py.
  pose proof (parseUint_fixed 2 (time.Month t) 1 12) as Pm.
  pose proof (parseUint_fixed 2 (time.Day t) 1
                (time.daysIn (time.Month t) (time.Year t))) as Pd.
  pose proof (parseUint_fixed 2 (time.Hour t) 0 23) as Ph.
  pose proof (parseUint_fixed 2 (time.Minute t) 0 59) as Pi.
  pose proof (parseUint_fixed 2 (time.Second t) 0 59) as Ps.
  change (10 ^ Z.of_nat 2) with 100 in *. change (10 ^ Z.of_nat 4) with 10000 in *.
  destruct (fixed4_shape (time.Year t)) as (y1 & y2 & y3 & y4 & Ey).
  destruct (fixed2_shape (time.Month t)) as (m1 & m2 & Em).
  destruct (fixed2_shape (time.Day t)) as (d1 & d2 & Ed).
  destruct (fixed2_shape (time.Hour t)) as (h1 & h2 & Eh).
  destruct (fixed2_shape (time.Minute t)) as (i1 & i2 & Ei).
  destruct (fixed2_shape (time.Second t)) as (s1 & s2 & Es).
  rewrite Ey, Em, Ed, Eh, Ei, Es in *.
  exists y1, y2, y3, y4, m1, m2, d1, d2, h1, h2, i1, i2, s1, s2.
  split; [reflexivity|].
  rewrite Py, Pm, Pd, Ph, Pi, Ps by lia. repeat split.
Qed.

Lemma zone_value off :
  off mod 60 = 0 ->
  (Z.abs off / 3600 * 60 + Z.abs off / 60 mod 60) * 60 = Z.abs off.
Proof.
  intros Hmod.
  assert (Habs : Z.abs off mod 60 = 0).
  { destruct (Z.abs_spec off) as [[_ ->]|[_ ->]]; [assumption|].
    apply Z.mod_divide in Hmod; [|lia]. apply Z.mod_divide; [lia|].
    apply Z.divide_opp_r. exact Hmod. }
  pose proof (Z.div_mod (Z.abs off) 60 ltac:(lia)) as H1.
  pose proof (Z.div_mod (Z.abs off / 60) 60 ltac:(lia)) as H2.
  rewrite Z.div_div in H2 by lia. change (60 * 60) with 3600 in H2. lia.
Qed.

(** Reading the zone at the end of a time stamp. *)
Lemma appendZone_head off :
  off mod 60 = 0 -> -86400 < off < 86400 ->
  from_option isDigit false (head (appendZone off)) = false
  /\ head (appendZone off) <> Some "."%char.
Proof.
  intros Hmod Hrange. destruct (Z.eq_dec off 0) as [->|Hne]; [split; [reflexivity|discriminate]|].
  destruct (appendZone_shape off Hne Hmod Hrange) as (a & b & c & d & -> & _).
  destruct (off <? 0); split; first [reflexivity | discriminate].
Qed.

Lemma parseRFC3339_appendFormat t :
  encodable t = true -> parseRFC3339 (appendFormatRFC3339 t) = Some (wall t).
Proof.
  intros H.
  destruct (appendFormat_shape t H)
    as (y1 & y2 & y3 & y4 & m1 & m2 & d1 & d2 & h1 & h2 & i1 & i2 & s1 & s2
        & -> & Py & Pm & Pd & Ph & Pi & Ps).
  unfold encodable, time.wf in H. bounds H.
  set (tail := appendNano (time.Nanosecond t) ++ appendZone (time.ZoneOffset t)).
  unfold parseRFC3339.
  cbn [app length Nat.ltb Nat.leb firstn skipn].
  change (take 0 tail) with (@nil ascii). change (drop 0 tail) with tail.
  rewrite Py, Pm, Pd, Ph, Pi, Ps.
  cbn [lookup list_lookup]. rewrite !bool_decide_eq_true_2 by reflexivity.
  cbn [andb negb].
  assert (Hfrac : (match tail with
            | "."%char :: c :: _ =>
              if isDigit c then
                (from_option id 0 (parseNanoseconds (takeDigits (drop 1 tail))),
                 drop (S (length (takeDigits (drop 1 tail)))) tail)
              else (0, tail)
            | _ => (0, tail)
            end) = (time.Nanosecond t, appendZone (time.ZoneOffset t))).
  { destruct (appendZone_head (time.ZoneOffset t) B1 ltac:(lia)) as [Hdigit Hdot].
    subst tail. destruct (Z.eq_dec (time.Nanosecond t) 0) as [Hns|Hns].
    - rewrite Hns. change (appendNano 0) with (@nil ascii). cbn [app].
      destruct (appendZone (time.ZoneOffset t)) as [|z zs]; [reflexivity|].
      cbn [head] in Hdot.
      destruct (ascii_dec z "."%char) as [->|Hz]; [contradiction|].
      destruct z as [[] [] [] [] [] [] [] []]; try reflexivity. contradiction.
    - destruct (appendNano_digits (time.Nanosecond t) ltac:(lia))
        as (c & ds & -> & Hds & Hparse).
      cbn [app skipn]. change (drop 0 ?l) with l.
      pose proof Hds as Hc. apply Forall_cons in Hc as [Hc _]. rewrite Hc.
      rewrite app_comm_cons, takeDigits_app by assumption.
      rewrite Hparse. cbn [from_option id]. f_equal.
      change (drop (S (length (c :: ds))) ("."%char :: (c :: ds) ++ ?l))
        with (drop (length (c :: ds)) ((c :: ds) ++ l)).
      apply drop_app_length. }
  rewrite Hfrac. clear Hfrac tail.
  destruct (Z.eq_dec (time.ZoneOffset t) 0) as [Hoff|Hoff].
  - rewrite Hoff. change (appendZone 0) with ["Z"%char]. cbv iota.
    unfold wall. rewrite Hoff. reflexivity.
  - destruct (appendZone_shape (time.ZoneOffset t) Hoff B1 ltac:(lia))
      as (a & b & c & d & -> & _ & Phr & Pmm).
    pose proof (zone_value (time.ZoneOffset t) B1) as Hval.
    destruct (Z.ltb_spec (time.ZoneOffset t) 0) as [Hneg|Hpos]; cbv iota;
      rewrite Phr, Pmm; cbn; rewrite Hval; unfold wall;
      rewrite ?bool_decide_eq_true_2 by reflexivity;
      rewrite ?bool_decide_eq_false_2 by discriminate;
      cbn [orb andb negb]; do 2 f_equal; lia.
Qed.

Lemma parseUint_num2 a b lo hi v rest :
  parseUint [a; b] lo hi = Some v -> num2 (a :: b :: rest) = v /\ v <= hi.
Proof.
  unfold parseUint, num2. cbn [parseDigits].
  destruct (isDigit a); [|discriminate]. destruct (isDigit b); [|discriminate].
  destruct (Z.ltb_spec ((0 * 10 + (byteZ a - 48)) * 10 + (byteZ b - 48)) lo);
    [discriminate|].
  destruct (Z.ltb_spec hi ((0 * 10 + (byteZ a - 48)) * 10 + (byteZ b - 48)));
    [discriminate|].
  cbn [orb]. intros [= <-]. lia.
Qed.

(** A time that can be written is written under the strict rules too. *)
Lemma appendStrictRFC3339_encodable t :
  encodable t = true -> appendStrictRFC3339 t = Ok (appendFormatRFC3339 t).
Proof.
  intros H. unfold appendStrictRFC3339.
  destruct (appendFormat_shape t H)
    as (y1 & y2 & y3 & y4 & m1 & m2 & d1 & d2 & h1 & h2 & i1 & i2 & s1 & s2
        & -> & _).
  unfold encodable in H. bounds H.
  match goal with |- context [?head ++ ?nano ++ ?zone] =>
    rewrite (app_assoc head nano zone); set (pre := head ++ nano) end.
  assert (H4 : (pre ++ appendZone (time.ZoneOffset t)) !! 4%nat = Some "-"%char).
  { apply lookup_app_l_Some. reflexivity. }
  rewrite bool_decide_eq_true_2 by exact H4. cbn [negb].
  destruct (Z.eq_dec (time.ZoneOffset t) 0) as [Hoff|Hoff].
  - rewrite Hoff. change (appendZone 0) with ["Z"%char].
    rewrite last_snoc, bool_decide_eq_true_2 by reflexivity. reflexivity.
  - destruct (appendZone_shape (time.ZoneOffset t) Hoff B1 ltac:(lia))
      as (a & b & c & d & -> & _ & Phr & _).
    apply (parseUint_num2 _ _ _ _ _ [":"%char; c; d]) in Phr as [Hnum Hle].
    rewrite length_app. cbn [length].
    replace (length pre + 6 - 6)%nat with (length pre + 0)%nat by lia.
    replace (length pre + 6 - 5)%nat with (length pre + 1)%nat by lia.
    rewrite lookup_app_r, drop_app_add by lia.
    replace (length pre + 0 - length pre)%nat with 0%nat by lia.
    cbn [lookup list_lookup from_option skipn]. rewrite Hnum.
    destruct (Z.leb_spec 24 (Z.abs (time.ZoneOffset t) / 3600)); [lia|].
    rewrite orb_false_r.
    destruct (time.ZoneOffset t <? 0); change (isDigit _) with false;
      rewrite andb_false_r; reflexivity.
Qed.


Lemma parseDigits_digits s : forall n v,
  parseDigits s n = Some v -> Forall (fun c => isDigit c = true) s.
Proof.
  induction s as [|c s IH]; intros n v H; [constructor|].
  cbn [parseDigits] in H. destruct (isDigit c) eqn:Hc; [|discriminate].
  constructor; [exact Hc | exact (IH _ _ H)].
Qed.

Lemma parseUint_digits s lo hi v :
  parseUint s lo hi = Some v -> Forall (fun c => isDigit c = true) s.
Proof.
  unfold parseUint. destruct (parseDigits s 0) eqn:H; [|discriminate].
  intros _. exact (parseDigits_digits _ _ _ H).
Qed.

Lemma digit_plain c : isDigit c = true -> plain c.
Proof.
  unfold isDigit, plain. intros H. apply andb_true_iff in H as [H1 H2].
  apply Z.leb_le in H1, H2. lia.
Qed.

Lemma digits_plain s : Forall (fun c => isDigit c = true) s -> Forall plain s.
Proof. intros H. eapply Forall_impl; [exact H | exact digit_plain]. Qed.

Ltac plain_bytes :=
  repeat first
    [ apply Forall_nil_2
    | apply Forall_app_2
    | assumption
    | apply Forall_cons_2; [first [assumption | vm_compute; intuition discriminate]|] ].

Lemma appendFormat_plain t :
  encodable t = true -> Forall plain (appendFormatRFC3339 t).
Proof.
  intros H.
  destruct (appendFormat_shape t H)
    as (y1 & y2 & y3 & y4 & m1 & m2 & d1 & d2 & h1 & h2 & i1 & i2 & s1 & s2
        & -> & Py & Pm & Pd & Ph & Pi & Ps).
  unfold encodable, time.wf in H. bounds H.
  apply parseUint_digits, digits_plain in Py, Pm, Pd, Ph, Pi, Ps.
  repeat match goal with
  | P : Forall plain (_ :: _) |- _ => apply Forall_cons in P as [? P]
  end.
  assert (Hnano : Forall plain (appendNano (time.Nanosecond t))).
  { destruct (Z.eq_dec (time.Nanosecond t) 0) as [->|Hns]; [constructor|].
    destruct (appendNano_digits (time.Nanosecond t) ltac:(lia))
      as (c & ds & -> & Hds & _).
    apply digits_plain in Hds. plain_bytes. }
  assert (Hzone : Forall plain (appendZone (time.ZoneOffset t))).
  { destruct (Z.eq_dec (time.ZoneOffset t) 0) as [->|Hoff].
    { change (appendZone 0) with ["Z"%char]. plain_bytes. }
    destruct (appendZone_shape (time.ZoneOffset t) Hoff B1 ltac:(lia))
      as (a & b & c & d & -> & _ & Phr & Pmm).
    apply parseUint_digits, digits_plain in Phr, Pmm.
    repeat match goal with
    | P : Forall plain (_ :: _) |- _ => apply Forall_cons in P as [? P]
    end.
    destruct (time.ZoneOffset t <? 0); plain_bytes. }
  plain_bytes.
Qed.

Lemma marshalTime_encodable c :
  encodable c = true ->
  json.marshalTime c = Ok (json.quote :: appendFormatRFC3339 c ++ [json.quote]).
Proof.
  intros H. unfold json.marshalTime.
  rewrite appendStrictRFC3339_encodable by assumption. reflexivity.
Qed.

(** A time stamp is read back as the wall clock reading that was written. *)
Lemma decodeTime_literal t rest :
  encodable t = true ->
  json.decodeTime ((json.quote :: appendFormatRFC3339 t ++ [json.quote]) ++ rest)
  = Some (Some (wall t), rest).
Proof.
  intros H. cbn [app]. unfold json.decodeTime.
  change (json.literal "null" (json.quote :: ?s)) with (@None (list ascii)).
  cbv iota. change (byteZ json.quote =? 34) with true. cbv iota.
  rewrite <- app_assoc. cbn [app].
  rewrite scanString_plain by (apply appendFormat_plain; assumption).
  rewrite scanString_quote. cbn [mbind option_bind].
  rewrite app_nil_r, parseRFC3339_appendFormat by assumption. reflexivity.
Qed.

(** A string of valid UTF-8 is read back as it was written. *)
Lemma decodeString_appendString s rest :
  ValidString s = true ->
  json.decodeString (json.appendString s ++ rest) = Some (Some s, rest).
Proof.
  intros H. unfold json.appendString, json.decodeString. cbn [app].
  change (json.literal "null" (json.quote :: ?s)) with (@None (list ascii)).
  cbv iota. change (byteZ json.quote =? 34) with true. cbv iota.
  rewrite <- app_assoc. cbn [app].
  rewrite appendString_scan. cbn [mbind option_bind]. unfold json.unquote.
  rewrite appendString_unquote; [|reflexivity|exact H].
  cbn [mbind option_bind]. rewrite string_of_list_ascii_of_string. reflexivity.
Qed.

Lemma decodeBool_marshalBool b rest :
  json.decodeBool (json.marshalBool b ++ rest) = Some (Some b, rest).
Proof. destruct b; reflexivity. Qed.


(** ** Documents *)

Lemma skipSpace_starts v rest : starts v -> json.skipSpace (v ++ rest) = v ++ rest.
Proof.
  unfold starts. destruct v as [|c v]; [discriminate|]. cbn [head from_option app].
  intros H. cbn [json.skipSpace]. rewrite H. reflexivity.
Qed.

Lemma skipSpace_nl depth s : json.skipSpace (json.nl depth ++ s) = json.skipSpace s.
Proof.
  unfold json.nl. cbn [app json.skipSpace]. change (json.isSpace (ascii_of_nat 10)) with true.
  cbv iota. induction depth as [|depth IH]; [reflexivity|].
  cbn [replicate concat app json.skipSpace]. change (json.isSpace " ") with true.
  cbv iota. exact IH.
Qed.

Lemma starts_FormatInt z : GoInt.in_range z -> starts (FormatInt z).
Proof.
  intros Hz. destruct (FormatInt_head z Hz) as (c & s & -> & Hc).
  unfold starts. cbn [head from_option]. destruct Hc as [Hc| ->]; [|reflexivity].
  unfold isDigit in Hc. apply andb_true_iff in Hc as [H1 H2].
  apply Z.leb_le in H1, H2. unfold json.isSpace.
  repeat match goal with
  | |- context [byteZ c =? ?k] => destruct (Z.eqb_spec (byteZ c) k); [lia|]
  end. reflexivity.
Qed.

(** One member of an object that holds a task. *)
Lemma taskMembers_member fuel t name v :
  Forall plain name -> json.unquote name = Some name -> starts v ->
  json.taskMembers (S fuel) t
    (json.quote :: name ++ json.quote :: ":"%char :: " "%char :: v)
  = '(t', s3) ← json.taskField fuel name t v;
    match json.skipSpace s3 with
    | ","%char :: s4 => json.taskMembers fuel t' (json.skipSpace s4)
    | "}"%char :: s4 => Some (t', s4)
    | _ => None
    end.
Proof.
  intros Hplain Hname Hv. cbn [json.taskMembers].
  change (byteZ json.quote =? 34) with true. cbv iota.
  rewrite scanString_plain, scanString_quote by assumption.
  cbn [mbind option_bind]. rewrite app_nil_r, Hname. cbn [mbind option_bind].
  change (json.skipSpace (":"%char :: " "%char :: v)) with (":"%char :: " "%char :: v).
  cbv iota. change (json.skipSpace (" "%char :: v)) with (json.skipSpace v).
  rewrite <- (app_nil_r v), skipSpace_starts, app_nil_r by assumption.
  reflexivity.
Qed.

Lemma listMembers_member fuel l name v :
  Forall plain name -> json.unquote name = Some name -> starts v ->
  json.listMembers (S fuel) l
    (json.quote :: name ++ json.quote :: ":"%char :: " "%char :: v)
  = '(l', s3) ← json.listField fuel name l v;
    match json.skipSpace s3 with
    | ","%char :: s4 => json.listMembers fuel l' (json.skipSpace s4)
    | "}"%char :: s4 => Some (l', s4)
    | _ => None
    end.
Proof.
  intros Hplain Hname Hv. cbn [json.listMembers].
  change (byteZ json.quote =? 34) with true. cbv iota.
  rewrite scanString_plain, scanString_quote by assumption.
  cbn [mbind option_bind]. rewrite app_nil_r, Hname. cbn [mbind option_bind].
  change (json.skipSpace (":"%char :: " "%char :: v)) with (":"%char :: " "%char :: v).
  cbv iota. change (json.skipSpace (" "%char :: v)) with (json.skipSpace v).
  rewrite <- (app_nil_r v), skipSpace_starts, app_nil_r by assumption.
  reflexivity.
Qed.

Ltac field_names :=
  repeat match goal with
  | |- context [json.isField ?n ?k] =>
    let b := eval vm_compute in (json.isField n k) in
    change (json.isField n k) with b
  end; cbv iota.

Lemma taskField_id fuel t z rest :
  GoInt.in_range z -> number_end rest = true ->
  json.taskField fuel (list_ascii_of_string "id") t (FormatInt z ++ rest)
  = Some ({| ID := z; Description := Description t; Completed := Completed t;
             CreatedAt := CreatedAt t |}, rest).
Proof.
  intros Hz Hrest. unfold json.taskField. field_names.
  rewrite decodeInt_FormatInt by assumption. reflexivity.
Qed.

Lemma taskField_description fuel t s rest :
  ValidString s = true ->
  json.taskField fuel (list_ascii_of_string "description") t
    (json.appendString s ++ rest)
  = Some ({| ID := ID t; Description := s; Completed := Completed t;
             CreatedAt := CreatedAt t |}, rest).
Proof.
  intros Hs. unfold json.taskField. field_names.
  rewrite decodeString_appendString by assumption. reflexivity.
Qed.

Lemma taskField_completed fuel t b rest :
  json.taskField fuel (list_ascii_of_string "completed") t
    (json.marshalBool b ++ rest)
  = Some ({| ID := ID t; Description := Description t; Completed := b;
             CreatedAt := CreatedAt t |}, rest).
Proof.
  unfold json.taskField. field_names.
  rewrite decodeBool_marshalBool. reflexivity.
Qed.

Lemma taskField_created_at fuel t c rest :
  encodable c = true ->
  json.taskField fuel (list_ascii_of_string "created_at") t
    (json.quote :: appendFormatRFC3339 c ++ json.quote :: rest)
  = Some ({| ID := ID t; Description := Description t; Completed := Completed t;
             CreatedAt := wall c |}, rest).
Proof.
  intros Hc. unfold json.taskField. field_names.
  pose proof (decodeTime_literal c rest Hc) as Hdec.
  cbn [app] in Hdec. rewrite <- app_assoc in Hdec. cbn [app] in Hdec.
  rewrite Hdec. reflexivity.
Qed.

Lemma decodeTask_object fuel depth X :
  json.decodeTask fuel ("{"%char :: json.nl depth ++ json.quote :: X)
  = json.taskMembers fuel json.zeroTask (json.quote :: X).
Proof.
  unfold json.decodeTask.
  change (json.literal "null" ("{"%char :: ?s)) with (@None (list ascii)).
  cbv iota. rewrite skipSpace_nl. reflexivity.
Qed.

Lemma next_member depth X :
  json.skipSpace (","%char :: json.nl depth ++ json.quote :: X)
  = ","%char :: json.nl depth ++ json.quote :: X.
Proof. reflexivity. Qed.

Lemma skipSpace_member depth X :
  json.skipSpace (json.nl depth ++ json.quote :: X) = json.quote :: X.
Proof. rewrite skipSpace_nl. reflexivity. Qed.

Lemma skipSpace_close depth (c : ascii) X :
  json.isSpace c = false -> json.skipSpace (json.nl depth ++ c :: X) = c :: X.
Proof. intros H. rewrite skipSpace_nl. cbn [json.skipSpace]. rewrite H. reflexivity. Qed.

Ltac names_plain :=
  first [ repeat (apply Forall_cons_2; [vm_compute; intuition discriminate|]);
          apply Forall_nil_2
        | reflexivity ].

Ltac flatten := repeat first [rewrite <- app_assoc | progress cbn [app]].

Tactic Notation "flatten" "in" hyp(H) :=
  repeat first [rewrite <- app_assoc in H | progress cbn [app] in H].

Lemma starts_app v rest : starts v -> starts (v ++ rest).
Proof. unfold starts. destruct v; [discriminate|]. intros H. exact H. Qed.

(** A task that can be stored is written, and read back as it was. *)
Lemma decodeTask_marshalTask depth t :
  storable_task t ->
  exists a, json.marshalTask depth t = Ok ("{"%char :: a)
    /\ forall fuel rest, (4 <= fuel)%nat ->
         json.decodeTask fuel ("{"%char :: a ++ rest) = Some (read_back t, rest).
Proof.
  intros (Hid & Hdesc & Htime). unfold json.marshalTask.
  rewrite marshalTime_encodable by assumption.
  eexists. split; [reflexivity|].
  intros fuel rest Hfuel.
  destruct fuel as [|[|[|[|fuel]]]]; try lia. clear Hfuel.
  unfold json.member. flatten.
  rewrite decodeTask_object.
  rewrite taskMembers_member; [|names_plain|names_plain|apply starts_app, starts_FormatInt, Hid].
  rewrite taskField_id by (assumption || reflexivity).
  cbn [mbind option_bind]. rewrite next_member. cbv iota. rewrite skipSpace_member.
  rewrite taskMembers_member; [|names_plain|names_plain|reflexivity].
  rewrite taskField_description by assumption.
  cbn [mbind option_bind]. rewrite next_member. cbv iota. rewrite skipSpace_member.
  rewrite taskMembers_member;
    [|names_plain|names_plain|destruct (Completed t); reflexivity].
  rewrite taskField_completed.
  cbn [mbind option_bind]. rewrite next_member. cbv iota. rewrite skipSpace_member.
  rewrite taskMembers_member; [|names_plain|names_plain|reflexivity].
  rewrite taskField_created_at by assumption.
  cbn [mbind option_bind]. rewrite skipSpace_close by reflexivity. reflexivity.
Qed.


(** The elements of an array after the first one. *)
Lemma taskElems_marshalElems depth close ts :
  Forall storable_task ts ->
  exists b, json.marshalElems depth false ts = Ok b
    /\ forall t0 a0 fuel rest,
         storable_task t0 -> json.marshalTask depth t0 = Ok a0 ->
         (length ts + 5 <= fuel)%nat ->
         json.taskElems fuel (a0 ++ b ++ json.nl close ++ "]"%char :: rest)
         = Some (read_back t0 :: map read_back ts, rest).
Proof.
  induction 1 as [|t ts Ht _ (b & Hb & IH)].
  - exists []. split; [reflexivity|]. intros t0 a0 fuel rest Ht0 Ha0 Hfuel.
    destruct (decodeTask_marshalTask depth t0 Ht0) as (a & Ha & Hdec).
    rewrite Ha0 in Ha. injection Ha as ->.
    destruct fuel as [|fuel]; [cbn [length] in Hfuel; lia|]. cbn [length] in Hfuel.
    cbn [json.taskElems app]. rewrite Hdec by lia. cbn [mbind option_bind].
    rewrite skipSpace_close by reflexivity. reflexivity.
  - destruct (decodeTask_marshalTask depth t Ht) as (a & Ha & _).
    cbn [json.marshalElems]. rewrite Ha, Hb. eexists. split; [reflexivity|].
    intros t0 a0 fuel rest Ht0 Ha0 Hfuel.
    destruct (decodeTask_marshalTask depth t0 Ht0) as (a' & Ha' & Hdec).
    rewrite Ha0 in Ha'. injection Ha' as ->.
    destruct fuel as [|fuel]; [cbn [length] in Hfuel; lia|]. cbn [length] in Hfuel.
    flatten. cbn [json.taskElems]. rewrite Hdec by lia. cbn [mbind option_bind].
    change (json.skipSpace (","%char :: ?s)) with (","%char :: s). cbv iota.
    rewrite skipSpace_nl.
    change (json.skipSpace ("{"%char :: ?s)) with ("{"%char :: s).
    pose proof (IH t _ fuel rest Ht Ha ltac:(lia)) as Hrest.
    flatten in Hrest. rewrite Hrest. reflexivity.
Qed.

(** The array of tasks. *)
Lemma decodeTasks_marshalTasks depth s :
  Forall storable_task (elems s) ->
  exists b, json.marshalTasks depth s = Ok b /\ starts b
    /\ forall fuel rest, (length (elems s) + 5 <= fuel)%nat ->
         json.decodeTasks fuel (b ++ rest)
         = Some (match s with
                 | nil_slice => nil_slice
                 | Slice ts => Slice (map read_back ts)
                 end, rest).
Proof.
  intros Hs. destruct s as [|[|t ts]]; cbn [elems] in Hs.
  - eexists. split; [reflexivity|]. split; [reflexivity|]. reflexivity.
  - eexists. split; [reflexivity|]. split; [reflexivity|]. reflexivity.
  - apply Forall_cons in Hs as [Ht Hts].
    destruct (decodeTask_marshalTask (S depth) t Ht) as (a & Ha & _).
    destruct (taskElems_marshalElems (S depth) depth ts Hts) as (b & Hb & Hdec).
    cbn [json.marshalTasks json.marshalElems]. rewrite Ha, Hb.
    eexists. split; [reflexivity|]. split; [reflexivity|].
    intros fuel rest Hfuel. cbn [elems length] in Hfuel.
    pose proof (Hdec t _ fuel rest Ht Ha ltac:(lia)) as Hrest.
    flatten. flatten in Hrest. unfold json.decodeTasks.
    change (json.literal "null" ("["%char :: ?s)) with (@None (list ascii)).
    cbv iota. rewrite skipSpace_nl.
    change (json.skipSpace ("{"%char :: ?s)) with ("{"%char :: s). cbv iota.
    rewrite Hrest. reflexivity.
Qed.


Lemma marshalElems_length depth ts : forall first b,
  json.marshalElems depth first ts = Ok b -> (length ts <= length b)%nat.
Proof.
  induction ts as [|t ts IH]; intros first b Hb; [cbn [length]; lia|].
  cbn [json.marshalElems] in Hb.
  destruct (json.marshalTask depth t) as [a|]; [|discriminate].
  destruct (json.marshalElems depth false ts) as [b'|] eqn:Hb'; [|discriminate].
  injection Hb as <-. specialize (IH false b' Hb').
  destruct first; unfold json.nl; cbn [app length]; rewrite !length_app; lia.
Qed.

Lemma marshalTasks_length depth s b :
  json.marshalTasks depth s = Ok b -> (length (elems s) <= length b)%nat.
Proof.
  destruct s as [|ts]; [intros _; cbn [elems length]; lia|].
  cbn [json.marshalTasks elems]. destruct ts as [|t ts]; [intros _; cbn [length]; lia|].
  destruct (json.marshalElems (S depth) true (t :: ts)) as [a|] eqn:Ha; [|discriminate].
  intros [= <-]. apply marshalElems_length in Ha.
  cbn [length] in *. rewrite length_app. lia.
Qed.

Lemma listField_tasks fuel l v rest s :
  json.decodeTasks fuel (v ++ rest) = Some (s, rest) ->
  json.listField fuel (list_ascii_of_string "tasks") l (v ++ rest)
  = Some ({| Tasks := s; NextID := NextID l |}, rest).
Proof.
  intros H. unfold json.listField. field_names. rewrite H. reflexivity.
Qed.

Lemma listField_next_id fuel l z rest :
  GoInt.in_range z -> number_end rest = true ->
  json.listField fuel (list_ascii_of_string "next_id") l (FormatInt z ++ rest)
  = Some ({| Tasks := Tasks l; NextID := z |}, rest).
Proof.
  intros Hz Hrest. unfold json.listField. field_names.
  rewrite decodeInt_FormatInt by assumption. reflexivity.
Qed.

Lemma decodeTaskList_object fuel depth X :
  json.decodeTaskList fuel ("{"%char :: json.nl depth ++ json.quote :: X)
  = json.listMembers fuel json.zeroTaskList (json.quote :: X).
Proof.
  unfold json.decodeTaskList.
  change (json.literal "null" ("{"%char :: ?s)) with (@None (list ascii)).
  cbv iota. rewrite skipSpace_nl. reflexivity.
Qed.

(** The codec: a list that can be stored is written, and decoded as it was. *)
Lemma Unmarshal_MarshalIndent l :
  storable l ->
  exists data, json.MarshalIndent l = Ok data
               /\ json.Unmarshal data = Ok (decoded_list l).
Proof.
  intros [Htasks Hnext]. unfold json.MarshalIndent.
  destruct (decodeTasks_marshalTasks 1 (Tasks l) Htasks) as (b & Hb & Hstarts & Hdec).
  rewrite Hb. eexists. split; [reflexivity|].
  unfold json.Unmarshal. rewrite list_ascii_of_string_of_list_ascii.
  apply marshalTasks_length in Hb.
  match goal with |- context [length ?X] => set (fuel := length X) end.
  assert (Hfuel : (length (elems (Tasks l)) + 6 <= fuel)%nat).
  { subst fuel. unfold json.member, json.nl. cbn [length app replicate concat].
    rewrite !length_app. cbn [length]. rewrite !length_app. lia. }
  destruct fuel as [|[|fuel]]; try lia.
  unfold json.member. flatten.
  change (json.skipSpace ("{"%char :: ?s)) with ("{"%char :: s).
  rewrite decodeTaskList_object.
  rewrite listMembers_member; [|names_plain|names_plain|apply starts_app, Hstarts].
  assert (Hle : (length (elems (Tasks l)) + 5 <= S fuel)%nat) by lia.
  rewrite (listField_tasks _ _ _ _ _ (Hdec _ _ Hle)).
  cbn [mbind option_bind]. rewrite next_member. cbv iota. rewrite skipSpace_member.
  rewrite listMembers_member;
    [|names_plain|names_plain|apply starts_app, starts_FormatInt, Hnext].
  rewrite listField_next_id by (assumption || reflexivity).
  cbn [mbind option_bind]. rewrite skipSpace_close by reflexivity. reflexivity.
Qed.


Lemma Equal_wall t : time.Equal t (wall t) = true.
Proof. unfold time.Equal, time.Unix, wall. cbn. rewrite !Z.eqb_refl. reflexivity. Qed.

Lemma same_task_read_back t : same_task t (read_back t).
Proof. unfold same_task, read_back. cbn. rewrite Equal_wall. repeat split. Qed.

Lemma same_tasks_restored l :
  Forall2 same_task (elems (Tasks l)) (elems (Tasks (restored l))).
Proof.
  unfold restored. cbn [Tasks elems].
  induction (elems (Tasks l)) as [|t ts IH]; constructor;
    [apply same_task_read_back | exact IH].
Qed.

(** C9, as amended.  For a list that can be stored (every ID and [NextID]
    of the size of an [int], every description valid UTF-8, every time with a
    year of four digits and a zone of whole minutes less than a day from UTC),
    on a file system that lets the file and its temporary file be written:
    [Save] succeeds, and [Load] then returns the list with the same [NextID]
    and the same tasks in the same order, each with its ID, description and
    completion flag and with its time as the same instant, to the nanosecond;
    the monotonic clock reading of a time is not stored, and a nil slice of
    tasks comes back empty. *)
Theorem Save_then_Load (fs : FileStorage) (l : TaskList) (w : os.FS) :
  storable l ->
  filepath fs ∉ os.denied w -> filepath fs +:+ ".tmp" ∉ os.denied w ->
  exists w',
    Save (Storage := stores.fileStorage) fs l w = (w', None)
    /\ Load (Storage := stores.fileStorage) fs w' = (w', Ok (restored l))
    /\ NextID (restored l) = NextID l
    /\ Forall2 same_task (elems (Tasks l)) (elems (Tasks (restored l))).
Proof.
  intros Hl Hpath Htmp.
  destruct (Unmarshal_MarshalIndent l Hl) as (data & Hwrite & Hread).
  eexists. split; [|split; [|split; [reflexivity | apply same_tasks_restored]]].
  - cbn [Save stores.fileStorage FileStorage_Storage]. unfold FileStorage_Save.
    rewrite Hwrite. unfold os.WriteFile.
    rewrite bool_decide_eq_false_2 by assumption.
    unfold os.Rename. cbn [os.denied os.files].
    rewrite !bool_decide_eq_false_2 by assumption. cbn [orb].
    rewrite lookup_insert_eq. reflexivity.
  - cbn [Load stores.fileStorage FileStorage_Storage]. unfold FileStorage_Load.
    unfold os.ReadFile. cbn [os.denied os.files].
    rewrite bool_decide_eq_false_2 by assumption.
    rewrite lookup_insert_eq, Hread.
    unfold restored, decoded_list. cbn [Tasks NextID].
    destruct (Tasks l) as [|ts]; reflexivity.
Qed.

Lemma Save_then_Load_witness :
  exists w',
    Save (Storage := stores.fileStorage) (NewFileStorage "todo.json")
      sample.two_tasks sample.empty_disk = (w', None)
    /\ Load (Storage := stores.fileStorage) (NewFileStorage "todo.json") w'
       = (w', Ok (restored sample.two_tasks))
    /\ NextID (restored sample.two_tasks) = NextID sample.two_tasks
    /\ Forall2 same_task (elems (Tasks sample.two_tasks))
         (elems (Tasks (restored sample.two_tasks))).
Proof.
  apply (Save_then_Load (NewFileStorage "todo.json") sample.two_tasks
           sample.empty_disk).
  - split; [|vm_compute; split; discriminate].
    repeat constructor; vm_compute; discriminate.
  - apply not_elem_of_empty.
  - apply not_elem_of_empty.
Defined.

(** C9 as stated fails on a description that is not valid UTF-8, which a
    command line argument can be: the byte [0xFF] is written as the escape of
    U+FFFD, and read back as the three bytes of that rune. *)
Lemma invalid_text_not_restored :
  let l := {| Tasks := Slice [sample.garbled]; NextID := 2 |} in
  let fs := NewFileStorage "todo.json" in
  exists w' t',
    Save (Storage := stores.fileStorage) fs l sample.empty_disk = (w', None)
    /\ Load (Storage := stores.fileStorage) fs w'
       = (w', Ok {| Tasks := Slice [t']; NextID := 2 |})
    /\ ValidString (Description sample.garbled) = false
    /\ list_ascii_of_string (Description sample.garbled) = [ascii_of_nat 255]
    /\ list_ascii_of_string (Description t')
       = [ascii_of_nat 239; ascii_of_nat 191; ascii_of_nat 189].
Proof.
  intros l fs. do 2 eexists.
  split; [vm_compute; reflexivity|]. split; [vm_compute; reflexivity|].
  split; [reflexivity|]. split; reflexivity.
Qed.


(** * Further properties: the store, the service, the command line and the
    program *)

Import props.

(** ** The file store *)

Lemma append_length (a b : string) :
  String.length (a +:+ b) = (String.length a + String.length b)%nat.
Proof. induction a as [|c a IH]; [reflexivity|]. simpl. rewrite IH. reflexivity. Qed.

Lemma tempFile_other fs : tempFile fs <> filepath fs.
Proof.
  unfold tempFile. intros H. apply (f_equal String.length) in H.
  rewrite append_length in H. simpl in H. lia.
Qed.

Lemma write_error_class e path :
  IsStorageError (WrapStorageWriteError (Join ErrStorageWrite e) path) = true.
Proof.
  unfold IsStorageError, WrapStorageWriteError. cbn [Is].
  apply orb_true_iff. right. reflexivity.
Qed.

(** [os.WriteFile] of the model touches the file that it is given only. *)
Lemma WriteFile_touches_only_named : touches_only_named os.WriteFile.
Proof.
  intros w name data. unfold os.WriteFile.
  destruct (bool_decide (name ∈ os.denied w)); cbn [fst os.files os.denied];
    (split; [intros p Hp|reflexivity]); [reflexivity|].
  apply lookup_insert_ne. congruence.
Qed.

Lemma short_write_touches_only_named : touches_only_named sample.short_write.
Proof.
  intros w name data. unfold sample.short_write. cbn [fst os.files os.denied].
  split; [intros p Hp|reflexivity]. apply lookup_insert_ne. congruence.
Qed.

Section StoreClaims.

Variable json_MarshalIndent : TaskList -> result string.
Variable json_Unmarshal : string -> result TaskList.

Let store := FileStorage_Storage json_MarshalIndent json_Unmarshal.

(** The file system and the error after a save that fails: nothing was
    written, or the temporary file was written and removed again. *)
Lemma Save_failure_inv (fs : FileStorage) (l : TaskList) (w w' : os.FS) err :
  Save (Storage := store) fs l w = (w', Some err) ->
  (w' = w \/ w' = os.Remove w (tempFile fs))
  /\ exists e, err = WrapStorageWriteError (Join ErrStorageWrite e) (filepath fs)
               /\ (e = os.ErrPermission \/ json_MarshalIndent l = Err e).
Proof.
  cbn [Save store FileStorage_Storage]. unfold FileStorage_Save. fold (tempFile fs).
  intros Hsave.
  destruct (json_MarshalIndent l) as [data|e];
    [|injection Hsave as <- <-; split; [left; reflexivity | eauto]].
  unfold os.WriteFile in Hsave.
  destruct (bool_decide_reflect (tempFile fs ∈ os.denied w)) as [Hden|Hden];
    [injection Hsave as <- <-; split; [left; reflexivity | eauto]|].
  unfold os.Rename in Hsave. cbn [os.denied os.files] in Hsave.
  rewrite (bool_decide_eq_false_2 _ Hden) in Hsave. cbn [orb] in Hsave.
  destruct (bool_decide (filepath fs ∈ os.denied w)).
  - injection Hsave as <- <-. split; [right|eauto].
    unfold os.Remove. cbn [os.denied os.files].
    rewrite (bool_decide_eq_false_2 _ Hden). f_equal.
    apply delete_insert_eq.
  - rewrite lookup_insert_eq in Hsave. discriminate.
Qed.

Lemma Save_failure_file (fs : FileStorage) (l : TaskList) (w w' : os.FS) err :
  Save (Storage := store) fs l w = (w', Some err) ->
  forall p, p <> tempFile fs -> os.files w' !! p = os.files w !! p.
Proof.
  intros Hsave p Hp. destruct (Save_failure_inv _ _ _ _ _ Hsave) as ([->| ->] & _);
    [reflexivity|].
  unfold os.Remove. destruct (bool_decide (tempFile fs ∈ os.denied w)); [reflexivity|].
  cbn [os.files]. apply lookup_delete_ne. congruence.
Qed.

(** [Save] of the store is [FileStorage_Save_with] on [os.WriteFile]. *)
Lemma Save_with_WriteFile (fs : FileStorage) (l : TaskList) (w : os.FS) :
  FileStorage_Save_with json_MarshalIndent os.WriteFile fs l w
  = Save (Storage := store) fs l w.
Proof. reflexivity. Qed.

(** A save that fails leaves the file of the store, and every file but the
    temporary file, as it was, and its error is a storage error; this for
    every [WriteFile] that touches the file it is given only, also one that
    fails after it has written a part of the temporary file. *)
Theorem Save_failure_keeps_file
    (os_WriteFile : os.FS -> string -> string -> os.FS * option error)
    (fs : FileStorage) (l : TaskList) (w w' : os.FS) err :
  touches_only_named os_WriteFile ->
  FileStorage_Save_with json_MarshalIndent os_WriteFile fs l w = (w', Some err) ->
  os.files w' !! filepath fs = os.files w !! filepath fs
  /\ (forall p, p <> tempFile fs -> os.files w' !! p = os.files w !! p)
  /\ os.denied w' = os.denied w
  /\ IsStorageError err = true.
Proof.
  intros Hwrite Hsave.
  assert (H : (forall p, p <> tempFile fs -> os.files w' !! p = os.files w !! p)
              /\ os.denied w' = os.denied w /\ IsStorageError err = true).
  { revert Hsave. unfold FileStorage_Save_with. fold (tempFile fs).
    destruct (json_MarshalIndent l) as [data|e].
    2:{ intros [= <- <-]. split; [reflexivity|]. split; [reflexivity|].
        apply write_error_class. }
    destruct (Hwrite w (tempFile fs) data) as [Hfiles Hden].
    destruct (os_WriteFile w (tempFile fs) data) as [w1 [e|]]; cbn [fst] in Hfiles, Hden.
    { intros [= <- <-]. split; [exact Hfiles|]. split; [exact Hden|].
      apply write_error_class. }
    unfold os.Rename.
    destruct (bool_decide (tempFile fs ∈ os.denied w1) || bool_decide (filepath fs ∈ os.denied w1)).
    - intros [= <- <-]. unfold os.Remove.
      destruct (bool_decide (tempFile fs ∈ os.denied w1)); cbn [os.files os.denied].
      + split; [exact Hfiles|]. split; [exact Hden|]. apply write_error_class.
      + split; [|split; [exact Hden|apply write_error_class]].
        intros p Hp. rewrite lookup_delete_ne by congruence. exact (Hfiles p Hp).
    - destruct (os.files w1 !! tempFile fs) as [d|]; [discriminate|].
      intros [= <- <-]. unfold os.Remove.
      destruct (bool_decide (tempFile fs ∈ os.denied w1)); cbn [os.files os.denied].
      + split; [exact Hfiles|]. split; [exact Hden|]. apply write_error_class.
      + split; [|split; [exact Hden|apply write_error_class]].
        intros p Hp. rewrite lookup_delete_ne by congruence. exact (Hfiles p Hp). }
  destruct H as (Hother & Hden & Herr).
  split; [apply Hother; intros H; symmetry in H; exact (tempFile_other fs H)|].
  split; [exact Hother|]. split; [exact Hden|exact Herr].
Qed.

(** The file system after a save that succeeds. *)
Lemma Save_ok_inv (fs : FileStorage) (l : TaskList) (w w' : os.FS) :
  Save (Storage := store) fs l w = (w', None) ->
  exists data,
    json_MarshalIndent l = Ok data
    /\ w' = {| os.files := <[filepath fs := data]> (delete (tempFile fs) (os.files w));
               os.denied := os.denied w |}
    /\ filepath fs ∉ os.denied w.
Proof.
  cbn [Save store FileStorage_Storage]. unfold FileStorage_Save. fold (tempFile fs).
  intros Hsave.
  destruct (json_MarshalIndent l) as [data|e]; [|discriminate].
  unfold os.WriteFile in Hsave.
  destruct (bool_decide_reflect (tempFile fs ∈ os.denied w)) as [Hden|Hden];
    [discriminate|].
  unfold os.Rename in Hsave. cbn [os.denied os.files] in Hsave.
  rewrite (bool_decide_eq_false_2 _ Hden) in Hsave. cbn [orb] in Hsave.
  destruct (bool_decide_reflect (filepath fs ∈ os.denied w)) as [Hpath|Hpath];
    [discriminate|].
  rewrite lookup_insert_eq in Hsave. injection Hsave as <-.
  exists data. split; [reflexivity|]. split; [|exact Hpath].
  rewrite delete_insert_eq. reflexivity.
Qed.

(** A save succeeds where the list can be encoded and the two files can
    be written. *)
Lemma Save_ok (fs : FileStorage) (l : TaskList) (w : os.FS) data :
  json_MarshalIndent l = Ok data ->
  filepath fs ∉ os.denied w -> tempFile fs ∉ os.denied w ->
  Save (Storage := store) fs l w
  = ({| os.files := <[filepath fs := data]> (delete (tempFile fs) (os.files w));
        os.denied := os.denied w |}, None).
Proof.
  intros Hdata Hpath Htmp.
  cbn [Save store FileStorage_Storage]. unfold FileStorage_Save. fold (tempFile fs).
  rewrite Hdata. unfold os.WriteFile. rewrite (bool_decide_eq_false_2 _ Htmp).
  unfold os.Rename. cbn [os.denied os.files].
  rewrite (bool_decide_eq_false_2 _ Htmp), (bool_decide_eq_false_2 _ Hpath).
  cbn [orb]. rewrite lookup_insert_eq, delete_insert_eq. reflexivity.
Qed.

(** A save that succeeds leaves the encoding of the list in the file of the
    store and no temporary file; no other file is touched. *)
Theorem Save_success_writes_file (fs : FileStorage) (l : TaskList) (w w' : os.FS) :
  Save (Storage := store) fs l w = (w', None) ->
  exists data,
    json_MarshalIndent l = Ok data
    /\ os.files w' !! filepath fs = Some data
    /\ os.files w' !! tempFile fs = None
    /\ (forall p, p <> filepath fs -> p <> tempFile fs ->
                  os.files w' !! p = os.files w !! p)
    /\ os.denied w' = os.denied w.
Proof.
  intros Hsave. destruct (Save_ok_inv _ _ _ _ Hsave) as (data & Hdata & -> & _).
  pose proof (tempFile_other fs) as Hne.
  exists data. cbn [os.files os.denied]. split; [exact Hdata|].
  split; [apply lookup_insert_eq|].
  split; [rewrite lookup_insert_ne, lookup_delete_eq by congruence; reflexivity|].
  split; [|reflexivity].
  intros p Hp Htmp. rewrite lookup_insert_ne, lookup_delete_ne by congruence.
  reflexivity.
Qed.

Lemma Load_world (fs : FileStorage) (w w' : os.FS) (r : result TaskList) :
  Load (Storage := store) fs w = (w', r) -> w' = w.
Proof.
  cbn [Load store FileStorage_Storage]. unfold FileStorage_Load.
  destruct (os.ReadFile w (filepath fs)) as [data|e].
  - destruct (json_Unmarshal data); intros [= <- _]; reflexivity.
  - destruct (os_IsNotExist e); intros [= <- _]; reflexivity.
Qed.

(** [Load] where there is no file. *)
Lemma Load_missing (fs : FileStorage) (w : os.FS) :
  filepath fs ∉ os.denied w -> os.files w !! filepath fs = None ->
  Load (Storage := store) fs w = (w, Ok {| Tasks := Slice []; NextID := 1 |}).
Proof.
  intros Hden Hnone. cbn [Load store FileStorage_Storage].
  unfold FileStorage_Load, os.ReadFile.
  rewrite (bool_decide_eq_false_2 _ Hden), Hnone. reflexivity.
Qed.

(** [Load] writes nothing, and the list that it returns has a slice of
    tasks that is not nil; where there is no file, it is the empty list
    whose next ID is 1. *)
Theorem Load_reads_only (fs : FileStorage) (w w' : os.FS) (r : result TaskList) :
  Load (Storage := store) fs w = (w', r) ->
  w' = w
  /\ (forall l, r = Ok l -> Tasks l <> nil_slice)
  /\ (filepath fs ∉ os.denied w -> os.files w !! filepath fs = None ->
      r = Ok {| Tasks := Slice []; NextID := 1 |}).
Proof.
  cbn [Load store FileStorage_Storage]. unfold FileStorage_Load, os.ReadFile.
  destruct (bool_decide_reflect (filepath fs ∈ os.denied w)) as [Hden|Hden].
  { cbn [os_IsNotExist os.ErrPermission]. intros [= <- <-].
    split; [reflexivity|]. split; [intros l [=] | contradiction]. }
  destruct (os.files w !! filepath fs) as [data|].
  - destruct (json_Unmarshal data) as [l0|e]; intros [= <- <-];
      (split; [reflexivity|]; split; [|intros _ [=]]).
    + intros l [= <-]. destruct (Tasks l0) eqn:E; [discriminate|]. rewrite E. discriminate.
    + intros l [=].
  - cbn [os_IsNotExist os.ErrNotExist]. intros [= <- <-].
    split; [reflexivity|]. split; [intros l [= <-]; discriminate | reflexivity].
Qed.

End StoreClaims.


(** ** The service on a file *)

(** What [Load] returns after a save that succeeded. *)
Lemma Load_after_Save fs l w w' :
  Save (Storage := stores.fileStorage) fs l w = (w', None) -> storable l ->
  Load (Storage := stores.fileStorage) fs w' = (w', Ok (restored l)).
Proof.
  intros Hsave Hl.
  destruct (Save_ok_inv _ _ _ _ _ _ Hsave) as (data & Hdata & -> & Hpath).
  destruct (Unmarshal_MarshalIndent l Hl) as (data' & Hwrite & Hread).
  rewrite Hdata in Hwrite. injection Hwrite as <-.
  cbn [Load stores.fileStorage FileStorage_Storage]. unfold FileStorage_Load.
  unfold os.ReadFile. cbn [os.denied os.files].
  rewrite bool_decide_eq_false_2 by assumption.
  rewrite lookup_insert_eq, Hread.
  unfold restored, decoded_list. cbn [Tasks NextID].
  destruct (Tasks l) as [|ts]; reflexivity.
Qed.

(** Every call that succeeds has saved the list that the service holds
    after it. *)
Lemma step_saved {S W : Type} `{!Storage S W} (tl : TodoList S) w o tl' w' evs :
  step tl w o = Some (tl', w', evs) ->
  storage tl' = storage tl
  /\ exists w0, Save (storage tl) (todolist.list tl') w0 = (w', None).
Proof.
  destruct o as [description now|id|id]; cbn [step].
  - unfold AddTask. destruct (String.eqb _ _); [discriminate|].
    destruct (Save _ _ _) as [w1 [err|]] eqn:Hsave; [discriminate|].
    intros [= <- <- _]. split; [reflexivity|]. exists w. exact Hsave.
  - unfold CompleteTask. destruct (id <=? 0); [discriminate|].
    destruct (_ =? -1); [discriminate|].
    destruct (Save _ _ _) as [w1 [err|]] eqn:Hsave; [discriminate|].
    intros [= <- <- _]. split; [reflexivity|]. exists w. exact Hsave.
  - unfold DeleteTask. destruct (id <=? 0); [discriminate|].
    destruct (_ =? -1); [discriminate|].
    destruct (index _ _); [|discriminate].
    destruct (Save _ _ _) as [w1 [err|]] eqn:Hsave; [discriminate|].
    intros [= <- <- _]. split; [reflexivity|]. exists w. exact Hsave.
Qed.

(** After a call that succeeded, a new service on the same file starts from
    the list that the service holds, as it is read back. *)
Theorem restart_after_success (tl : TodoList FileStorage) w o tl' w' evs :
  step (Storage0 := stores.fileStorage) tl w o = Some (tl', w', evs) ->
  storable (todolist.list tl') ->
  NewTodoList (Storage0 := stores.fileStorage) (storage tl') w'
  = (w', Ok {| todolist.list := restored (todolist.list tl');
               storage := storage tl' |}).
Proof.
  intros Hstep Hl. destruct (step_saved _ _ _ _ _ _ Hstep) as (Hst & w0 & Hsave).
  unfold NewTodoList. rewrite Hst, (Load_after_Save _ _ _ _ Hsave Hl). reflexivity.
Qed.


(** ** The list that the service keeps *)

Lemma map_ID_set_Completed b pre t post :
  map ID (pre ++ set_Completed b t :: post) = map ID (pre ++ t :: post).
Proof. rewrite !map_app. reflexivity. Qed.

Lemma well_formed_tasks l (ts : list Task) :
  well_formed l ->
  StronglySorted Z.lt (map ID ts) ->
  Forall (fun u => 0 < ID u < NextID l) ts ->
  well_formed {| Tasks := Slice ts; NextID := NextID l |}.
Proof.
  intros (_ & _ & Hpos & Hrange) Hsorted Hall. unfold well_formed.
  cbn [Tasks elems NextID]. split; [|split; [|split]]; assumption.
Qed.

Lemma Forall_ID_set_Completed (P : Z -> Prop) b pre t post :
  Forall (fun u => P (ID u)) (pre ++ t :: post) ->
  Forall (fun u => P (ID u)) (pre ++ set_Completed b t :: post).
Proof.
  rewrite !Forall_app, !Forall_cons. intros (Hpre & Ht & Hpost). repeat split; assumption.
Qed.

Lemma sorted_remove (pre post : list Z) x :
  StronglySorted Z.lt (pre ++ x :: post) -> StronglySorted Z.lt (pre ++ post).
Proof.
  induction pre as [|a pre IH]; cbn [app].
  - intros H. inversion H; assumption.
  - intros H. inversion H as [|? ? Hs Hall]; subst. constructor; [apply IH, Hs|].
    rewrite Forall_app in *. destruct Hall as [Hp Hx]. split; [exact Hp|].
    inversion Hx; assumption.
Qed.

Lemma sorted_snoc (ids : list Z) x :
  StronglySorted Z.lt ids -> Forall (fun i => i < x) ids ->
  StronglySorted Z.lt (ids ++ [x]).
Proof.
  induction 1 as [|a ids Hs IH Hall]; intros Hx; cbn [app].
  - repeat constructor.
  - apply Forall_cons in Hx as [Ha Hx]. constructor; [apply IH, Hx|].
    apply Forall_app. split; [exact Hall|]. repeat constructor. exact Ha.
Qed.

Section CallClaims.

Context {S W : Type} `{!Storage S W}.

(** Every call keeps the list well formed, whether it succeeds, is
    refused or fails to save, as long as [NextID] is not the largest [int];
    and [NextID] does not go down. *)
Theorem calls_keep_well_formed (o : op) (tl : TodoList S) (w : W) :
  well_formed (todolist.list tl) ->
  NextID (todolist.list tl) < GoInt.max_int ->
  well_formed (todolist.list (after o tl w).1)
  /\ NextID (todolist.list tl) <= NextID (todolist.list (after o tl w).1)
     <= NextID (todolist.list tl) + 1.
Proof.
  intros Hwf Hmax. pose proof Hwf as (Hsorted & Hall & Hpos & Hrange).
  destruct o as [description now|id|id]; cbn [after].
  - unfold AddTask. destruct (String.eqb _ _); cbn [fst]; [cbn [fst]; split; [exact Hwf|lia]|].
    destruct (Save _ _ _) as [w1 [err|]]; cbn [fst todolist.list NextID Tasks].
    + rewrite decr_incr by assumption. split; [|lia].
      destruct (Tasks (todolist.list tl)) as [|ts] eqn:Hts; cbn [append elems slice_to len].
      * unfold len. cbn [elems length app]. change (Z.to_nat (Z.of_nat 1 - 1)) with 0%nat.
        cbn [take]. unfold well_formed. cbn [Tasks elems NextID map].
        split; [|split; [|split]]; try assumption; constructor.
      * unfold len. cbn [elems]. rewrite length_app. cbn [length].
        replace (Z.to_nat (Z.of_nat (length ts + 1) - 1)) with (length ts) by lia.
        rewrite take_app_length. unfold well_formed in *. rewrite Hts in *.
        cbn [Tasks elems NextID] in *. split; [|split; [|split]]; assumption.
    + rewrite incr_no_wrap by assumption. split; [|lia].
      assert (Helems : elems (append (Tasks (todolist.list tl))
                [{| ID := NextID (todolist.list tl); Description := description;
                    Completed := false; CreatedAt := now |}])
              = elems (Tasks (todolist.list tl))
                ++ [{| ID := NextID (todolist.list tl); Description := description;
                       Completed := false; CreatedAt := now |}]).
      { destruct (Tasks (todolist.list tl)); reflexivity. }
      unfold well_formed. cbn [Tasks NextID]. rewrite Helems, map_app. cbn [map ID].
      split; [|split; [|split]].
      * apply sorted_snoc; [exact Hsorted|]. apply Forall_map.
        eapply Forall_impl; [exact Hall|]. cbn. lia.
      * apply Forall_app. split.
        -- eapply Forall_impl; [exact Hall|]. cbn. lia.
        -- repeat constructor; cbn [ID]; lia.
      * lia.
      * unfold GoInt.in_range, GoInt.max_int, GoInt.min_int in *. lia.
  - unfold CompleteTask. destruct (Z.leb_spec id 0) as [Hid|Hid]; [cbn [fst]; split; [exact Hwf|lia]|].
    unfold find. destruct (Z.eqb_spec (find_loop id (elems (Tasks (todolist.list tl))) 0) (-1))
      as [Hnone|Hsome]; [cbn [fst]; split; [exact Hwf|lia]|].
    destruct (find_some_first _ _ Hsome) as (pre & t & post & Hfirst).
    pose proof (CompleteTask_first tl id w pre t post Hid Hfirst) as Hcall.
    unfold CompleteTask, find in Hcall.
    destruct (Z.leb_spec id 0); [lia|].
    destruct (Z.eqb_spec (find_loop id (elems (Tasks (todolist.list tl))) 0) (-1));
      [contradiction|].
    rewrite Hcall. clear Hcall. destruct Hfirst as (Hts & _ & _).
    rewrite Hts in Hsorted, Hall.
    destruct (Save _ _ _) as [w1 [err|]]; cbn [fst with_tasks todolist.list NextID];
      (split; [|lia]); apply well_formed_tasks; try assumption;
      first [rewrite map_ID_set_Completed; assumption
            | apply (Forall_ID_set_Completed (fun i => 0 < i < _)); assumption].
  - unfold DeleteTask. destruct (Z.leb_spec id 0) as [Hid|Hid]; [cbn [fst]; split; [exact Hwf|lia]|].
    unfold find. destruct (Z.eqb_spec (find_loop id (elems (Tasks (todolist.list tl))) 0) (-1))
      as [Hnone|Hsome]; [cbn [fst]; split; [exact Hwf|lia]|].
    destruct (find_some_first _ _ Hsome) as (pre & t & post & Hfirst).
    pose proof (DeleteTask_first tl id w pre t post Hid Hfirst) as Hcall.
    unfold DeleteTask, find in Hcall.
    destruct (Z.leb_spec id 0); [lia|].
    destruct (Z.eqb_spec (find_loop id (elems (Tasks (todolist.list tl))) 0) (-1));
      [contradiction|].
    rewrite Hcall. clear Hcall. destruct Hfirst as (Hts & _ & _).
    rewrite Hts in Hsorted, Hall.
    destruct (Save _ _ _) as [w1 [err|]]; cbn [fst with_tasks todolist.list NextID];
      (split; [|lia]); apply well_formed_tasks; try assumption.
    + rewrite map_app in *. cbn [map] in Hsorted. exact (sorted_remove _ _ _ Hsorted).
    + rewrite Forall_app, Forall_cons in Hall. apply Forall_app. tauto.
Qed.

End CallClaims.


Lemma first_with_id_last id (ts : list Task) t :
  Forall (fun u => ID u < id) ts -> ID t = id -> first_with_id id (ts ++ [t]) ts t [].
Proof.
  intros Hall Ht. split; [reflexivity|]. split; [|exact Ht].
  eapply Forall_impl; [exact Hall|]. cbn. lia.
Qed.

Lemma sorted_app_r (a b : list Z) :
  StronglySorted Z.lt (a ++ b) -> StronglySorted Z.lt b.
Proof.
  induction a as [|x a IH]; cbn [app]; [tauto|].
  intros H. inversion H; subst. apply IH. assumption.
Qed.

Section CallSequences.

Context {S W : Type} `{!Storage S W}.

Implicit Types (tl : TodoList S) (w : W).

(** The ID that [AddTask] returns designates the new task: [CompleteTask]
    with it completes that task and no other, and [DeleteTask] with it
    gives back the tasks from before the addition, while [NextID] stays
    one above, so that the ID is not given again. *)
Theorem new_ID_designates_new_task tl description now w tl1 w1 task :
  well_formed (todolist.list tl) ->
  AddTask tl description now w = (tl1, w1, Ok task) ->
  let old := elems (Tasks (todolist.list tl)) in
  (forall w2,
     Save (storage tl1)
          (todolist.list (with_tasks tl1 (old ++ [set_Completed true task]))) w1
     = (w2, None) ->
     CompleteTask tl1 (ID task) w1
     = (with_tasks tl1 (old ++ [set_Completed true task]), w2, None))
  /\ (forall w2,
        Save (storage tl1) (todolist.list (with_tasks tl1 old)) w1 = (w2, None) ->
        DeleteTask tl1 (ID task) w1 = (with_tasks tl1 old, w2, None)
        /\ NextID (todolist.list (with_tasks tl1 old))
           = GoInt.incr (NextID (todolist.list tl))).
Proof.
  intros (Hsorted & Hall & Hpos & Hrange) Hadd old.
  destruct (AddTask_inv _ _ _ _ _ _ _ Hadd) as [-> ->].
  assert (Hfirst : first_with_id (NextID (todolist.list tl))
            (elems (Tasks (todolist.list (with_new_task tl description now))))
            old (new_task tl description now) []).
  { rewrite elems_with_new_task. apply first_with_id_last; [|reflexivity].
    eapply Forall_impl; [exact Hall|]. cbn. lia. }
  change (ID (new_task tl description now)) with (NextID (todolist.list tl)).
  split; intros w2 Hsave.
  - rewrite (CompleteTask_first _ _ _ _ _ _ Hpos Hfirst), Hsave. reflexivity.
  - rewrite (DeleteTask_first _ _ _ _ _ _ Hpos Hfirst), app_nil_r, Hsave.
    split; reflexivity.
Qed.

(** In a list whose [NextID] is not positive, as one read from a file that
    has no [next_id], [AddTask] creates a task that the service then holds
    and that can be neither completed nor deleted: its ID is refused. *)
Theorem task_without_valid_ID tl description now w tl1 w1 task :
  NextID (todolist.list tl) <= 0 ->
  AddTask tl description now w = (tl1, w1, Ok task) ->
  task ∈ elems (Tasks (todolist.list tl1))
  /\ forall w2,
       CompleteTask tl1 (ID task) w2 = (tl1, w2, Some (Sentinel ErrInvalidID))
       /\ DeleteTask tl1 (ID task) w2 = (tl1, w2, Some (Sentinel ErrInvalidID)).
Proof.
  intros Hnext Hadd. destruct (AddTask_inv _ _ _ _ _ _ _ Hadd) as [-> ->].
  split.
  - rewrite elems_with_new_task. apply elem_of_app. right. apply list_elem_of_singleton.
    reflexivity.
  - intros w2. change (ID (new_task tl description now)) with (NextID (todolist.list tl)).
    unfold CompleteTask, DeleteTask.
    destruct (Z.leb_spec (NextID (todolist.list tl)) 0); [|lia]. split; reflexivity.
Qed.

(** In a well-formed list, an ID that [DeleteTask] has deleted is no
    longer found: both calls on it report that there is no such task, and
    change nothing. *)
Theorem deleted_ID_not_found tl id w tl1 w1 :
  well_formed (todolist.list tl) ->
  DeleteTask tl id w = (tl1, w1, None) ->
  forall w2,
    CompleteTask tl1 id w2 = (tl1, w2, Some (Sentinel ErrTaskNotFound))
    /\ DeleteTask tl1 id w2 = (tl1, w2, Some (Sentinel ErrTaskNotFound)).
Proof.
  intros (Hsorted & _) Hdel w2.
  assert (Hid : 0 < id).
  { unfold DeleteTask in Hdel. destruct (Z.leb_spec id 0); [discriminate | assumption]. }
  destruct (DeleteTask_inv _ _ _ _ _ Hdel) as (pre & t & post & (Hts & Hpre & Ht) & ->).
  rewrite Hts, map_app in Hsorted. cbn [map] in Hsorted.
  assert (Hnone : Forall (fun u => ID u <> id) (pre ++ post)).
  { apply Forall_app. split; [exact Hpre|].
    apply sorted_app_r, StronglySorted_inv in Hsorted. destruct Hsorted as [_ Hlt].
    apply (proj1 (List.Forall_map _ _ _)) in Hlt.
    eapply Forall_impl; [exact Hlt|]. cbn. lia. }
  unfold CompleteTask, DeleteTask, find. cbn [with_tasks todolist.list Tasks elems].
  destruct (Z.leb_spec id 0); [lia|].
  rewrite (find_loop_none _ _ _ Hnone). split; reflexivity.
Qed.

End CallSequences.


(** ** Numbers on the command line *)

Lemma parseDigits_le s : forall n v, 0 <= n -> parseDigits s n = Some v -> n <= v.
Proof.
  induction s as [|c s IH]; intros n v Hn; cbn [parseDigits].
  - intros [= <-]. lia.
  - unfold isDigit. destruct (48 <=? byteZ c) eqn:Hlo; [|discriminate].
    destruct (byteZ c <=? 57) eqn:Hhi; [|discriminate]. cbn [andb].
    apply Z.leb_le in Hlo, Hhi. intros H. apply IH in H; lia.
Qed.

(** The loop of [ParseUint] on digits whose value fits. *)
Lemma parseUint_loop_digits s : forall n v,
  0 <= n -> parseDigits s n = Some v -> v <= maxUint64 ->
  parseUint_loop s n = (v, None).
Proof.
  induction s as [|c s IH]; intros n v Hn; cbn [parseDigits parseUint_loop].
  - intros [= <-] _. reflexivity.
  - destruct (isDigit c) eqn:Hc; [|discriminate]. intros Hv Hmax.
    unfold isDigit in Hc. apply andb_true_iff in Hc as [Hlo Hhi].
    apply Z.leb_le in Hlo, Hhi.
    assert (Hn1 : 0 <= n * 10 + (byteZ c - 48)) by lia.
    pose proof (parseDigits_le _ _ _ Hn1 Hv) as Hle.
    unfold maxUint64 in *.
    change (2 ^ 64 - 1) with 18446744073709551615 in *.
    change (18446744073709551615 / 10 + 1) with 1844674407370955162.
    destruct (Z.leb_spec 1844674407370955162 n); [lia|].
    destruct (Z.ltb_spec 18446744073709551615 (n * 10 + (byteZ c - 48))); [lia|].
    apply IH; [lia | exact Hv | lia].
Qed.

Lemma parseDigits_bound s : forall n v,
  0 <= n -> parseDigits s n = Some v -> v < (n + 1) * 10 ^ Z.of_nat (length s).
Proof.
  induction s as [|c s IH]; intros n v Hn; cbn [parseDigits length].
  - intros [= <-]. change (10 ^ Z.of_nat 0) with 1. lia.
  - unfold isDigit. destruct (48 <=? byteZ c) eqn:Hlo; [|discriminate].
    destruct (byteZ c <=? 57) eqn:Hhi; [|discriminate]. cbn [andb].
    apply Z.leb_le in Hlo, Hhi. intros H. apply IH in H; [|lia].
    replace (Z.of_nat (S (length s))) with (Z.succ (Z.of_nat (length s))) by lia.
    rewrite Z.pow_succ_r by lia.
    assert (0 < 10 ^ Z.of_nat (length s)) by (apply Z.pow_pos_nonneg; lia). nia.
Qed.

(** What the loop of [ParseUint] returns, by the digits. *)
Lemma parseUint_loop_cases s : forall n,
  0 <= n <= maxUint64 ->
  match parseDigits s n with
  | Some v =>
    if v <=? maxUint64 then parseUint_loop s n = (v, None)
    else parseUint_loop s n = (maxUint64, Some ErrRange)
  | None =>
    parseUint_loop s n = (0, Some ErrSyntax)
    \/ parseUint_loop s n = (maxUint64, Some ErrRange)
  end.
Proof.
  induction s as [|c s IH]; intros n Hn; cbn [parseDigits parseUint_loop].
  - destruct (Z.leb_spec n maxUint64); [reflexivity | lia].
  - destruct (isDigit c) eqn:Hc; [|left; reflexivity].
    unfold isDigit in Hc. apply andb_true_iff in Hc as [Hlo Hhi].
    apply Z.leb_le in Hlo, Hhi. unfold maxUint64 in *.
    change (2 ^ 64 - 1) with 18446744073709551615 in *.
    change (18446744073709551615 / 10 + 1) with 1844674407370955162.
    assert (Hn1 : 0 <= n * 10 + (byteZ c - 48)) by lia.
    destruct (Z.leb_spec 1844674407370955162 n) as [Hbig|Hsmall].
    { destruct (parseDigits s (n * 10 + (byteZ c - 48))) as [v|] eqn:Hv; [|right; reflexivity].
      apply parseDigits_le in Hv; [|exact Hn1].
      destruct (Z.leb_spec v 18446744073709551615); [lia | reflexivity]. }
    destruct (Z.ltb_spec 18446744073709551615 (n * 10 + (byteZ c - 48))) as [Hover|Hfit].
    { destruct (parseDigits s (n * 10 + (byteZ c - 48))) as [v|] eqn:Hv; [|right; reflexivity].
      apply parseDigits_le in Hv; [|exact Hn1].
      destruct (Z.leb_spec v 18446744073709551615); [lia | reflexivity]. }
    apply IH. lia.
Qed.

(** [ParseInt] with the sign that it picks off tested as in the code. *)
Lemma ParseInt_cons (c : ascii) (s' : list ascii) :
  ParseInt (c :: s')
  = let '(neg, digits) :=
      if bool_decide (c = "+"%char) then (false, s')
      else if bool_decide (c = "-"%char) then (true, s')
      else (false, c :: s') in
    match digits with
    | [] => None
    | _ :: _ =>
      match parseDigits digits 0 with
      | None => None
      | Some un =>
        if negb neg && (GoInt.max_int <? un) then None
        else if neg && (GoInt.max_int + 1 <? un) then None
        else Some (if neg then - un else un)
      end
    end.
Proof. destruct c as [[] [] [] [] [] [] [] []]; reflexivity. Qed.

(** [ParseInt_value] without its value on an error is [ParseInt]. *)
Lemma ParseInt_value_ParseInt s :
  match ParseInt s with
  | Some n => ParseInt_value s = (n, None)
  | None => exists n e, ParseInt_value s = (n, Some e)
  end.
Proof.
  destruct s as [|c s'].
  { eexists _, _. reflexivity. }
  rewrite ParseInt_cons. unfold ParseInt_value.
  set (split := if bool_decide (c = "+"%char) then (false, s')
                else if bool_decide (c = "-"%char) then (true, s')
                else (false, c :: s')).
  destruct split as [neg digits]. destruct digits as [|d digits].
  { eexists _, _. reflexivity. }
  pose proof (parseUint_loop_cases (d :: digits) 0 ltac:(unfold maxUint64; lia)) as Hloop.
  unfold GoInt.max_int. change (2 ^ 63 - 1 + 1) with (2 ^ 63).
  destruct (parseDigits (d :: digits) 0) as [un|].
  - unfold maxUint64 in Hloop. destruct (Z.leb_spec un (2 ^ 64 - 1)) as [Hfit|Hover].
    + rewrite Hloop.
      replace (2 ^ 63 - 1 <? un) with (2 ^ 63 <=? un)
        by (destruct (Z.ltb_spec (2 ^ 63 - 1) un), (Z.leb_spec (2 ^ 63) un); lia || reflexivity).
      destruct (negb neg && (2 ^ 63 <=? un)); [eexists _, _; reflexivity|].
      destruct (neg && (2 ^ 63 <? un)); [eexists _, _; reflexivity|]. reflexivity.
    + rewrite Hloop.
      destruct (Z.ltb_spec (2 ^ 63 - 1) un); [|lia].
      destruct (Z.ltb_spec (2 ^ 63) un); [|lia].
      change (2 ^ 63 <=? 2 ^ 64 - 1) with true. change (2 ^ 63 <? 2 ^ 64 - 1) with true.
      destruct neg; eexists _, _; reflexivity.
  - destruct Hloop as [-> | ->]; [eexists _, _; reflexivity|].
    unfold maxUint64.
    change (2 ^ 63 <=? 2 ^ 64 - 1) with true. change (2 ^ 63 <? 2 ^ 64 - 1) with true.
    destruct neg; eexists _, _; reflexivity.
Qed.

Lemma parseDigits_small s v :
  (length s < 19)%nat -> parseDigits s 0 = Some v -> 0 <= v < 10 ^ 18.
Proof.
  intros Hlen Hv. split; [exact (parseDigits_le s 0 v (Z.le_refl 0) Hv)|].
  apply parseDigits_bound in Hv; [|lia].
  assert (10 ^ Z.of_nat (length s) <= 10 ^ 18) by (apply Z.pow_le_mono_r; lia). lia.
Qed.

(** [Atoi] by [ParseInt]: the fast path and the general one agree. *)
Lemma Atoi_ParseInt (s : string) :
  match ParseInt (list_ascii_of_string s) with
  | Some n => Atoi s = (n, None)
  | None => exists n e, Atoi s = (n, Some e)
  end.
Proof.
  unfold Atoi. set (bs := list_ascii_of_string s).
  destruct ((0 <? length bs)%nat && (length bs <? 19)%nat) eqn:Hfast;
    [|apply ParseInt_value_ParseInt].
  apply andb_true_iff in Hfast as [Hpos Hlen].
  apply Nat.ltb_lt in Hpos, Hlen.
  destruct bs as [|c0 rest]; [cbn [length] in Hpos; lia|]. cbn [length] in Hlen.
  rewrite ParseInt_cons. unfold GoInt.max_int.
  change (2 ^ 63 - 1) with 9223372036854775807.
  change (9223372036854775807 + 1) with 9223372036854775808.
  assert (Hsmall : forall ds v, (length ds < 19)%nat -> parseDigits ds 0 = Some v ->
            (9223372036854775807 <? v) = false /\ (9223372036854775808 <? v) = false).
  { intros ds v Hds Hv. apply parseDigits_small in Hv; [|exact Hds].
    change (10 ^ 18) with 1000000000000000000 in Hv.
    split; apply Z.ltb_ge; lia. }
  assert (Hrest : forall d ds, rest = d :: ds -> (length (d :: ds) < 19)%nat).
  { intros d ds ->. cbn [length] in *. lia. }
  destruct (bool_decide_reflect (c0 = "+"%char)) as [->|Hplus].
  { change (bool_decide ("+"%char = "-"%char)) with false. cbn [orb andb].
    destruct rest as [|d rest]; [eexists _, _; reflexivity|].
    pose proof (Hrest _ _ eq_refl) as Hlen'. cbn [length Nat.ltb Nat.leb].
    destruct (parseDigits (d :: rest) 0) as [v|] eqn:Hv; [|eexists _, _; reflexivity].
    destruct (Hsmall _ _ Hlen' Hv) as [-> _]. reflexivity. }
  destruct (bool_decide_reflect (c0 = "-"%char)) as [->|Hminus].
  { cbn [orb andb].
    destruct rest as [|d rest]; [eexists _, _; reflexivity|].
    pose proof (Hrest _ _ eq_refl) as Hlen'. cbn [length Nat.ltb Nat.leb].
    destruct (parseDigits (d :: rest) 0) as [v|] eqn:Hv; [|eexists _, _; reflexivity].
    destruct (Hsmall _ _ Hlen' Hv) as [_ ->]. reflexivity. }
  cbn [orb andb]. assert (Hlen' : (length (c0 :: rest) < 19)%nat) by exact Hlen.
  destruct (parseDigits (c0 :: rest) 0) as [v|] eqn:Hv; [|eexists _, _; reflexivity].
  destruct (Hsmall _ _ Hlen' Hv) as [-> _]. reflexivity.
Qed.

(** [Atoi] accepts what [ParseInt] accepts, an optional sign and decimal
    digits whose value is an [int], and gives the same value, on its fast
    path as on the general one. *)
Theorem Atoi_agrees_with_ParseInt (s : string) (n : Z) :
  Atoi s = (n, None) <-> ParseInt (list_ascii_of_string s) = Some n.
Proof.
  pose proof (Atoi_ParseInt s) as H.
  destruct (ParseInt (list_ascii_of_string s)) as [m|].
  - rewrite H. split; intros [= ->]; reflexivity.
  - destruct H as (m & e & ->). split; discriminate.
Qed.

(** A number as the program prints it is read as that number. *)
Lemma Atoi_decimal z : GoInt.in_range z -> Atoi (cli.decimal z) = (z, None).
Proof.
  intros Hz. pose proof (Atoi_ParseInt (cli.decimal z)) as H.
  unfold cli.decimal in *. rewrite list_ascii_of_string_of_list_ascii in H.
  rewrite ParseInt_FormatInt in H by assumption. exact H.
Qed.


(** ** The command line *)

Lemma lowerByte_not_upper c : strings.isUpper c = false -> strings.lowerByte c = c.
Proof. unfold strings.lowerByte. intros ->. reflexivity. Qed.

Lemma map_lowerByte_not_upper bs :
  existsb strings.isUpper bs = false -> map strings.lowerByte bs = bs.
Proof.
  induction bs as [|c bs IH]; [reflexivity|]. cbn [existsb map].
  intros H. apply orb_false_iff in H as [Hc Hbs].
  rewrite lowerByte_not_upper, IH by assumption. reflexivity.
Qed.

(** [ToLower] on ASCII: every capital letter is replaced. *)
Lemma ToLower_ascii mapped s :
  ascii_only s = true ->
  strings.ToLower mapped s
  = string_of_list_ascii (map strings.lowerByte (list_ascii_of_string s)).
Proof.
  unfold ascii_only, strings.ToLower. intros ->.
  destruct (existsb strings.isUpper (list_ascii_of_string s)) eqn:Hupper; [reflexivity|].
  rewrite map_lowerByte_not_upper, string_of_list_ascii_of_string by assumption.
  reflexivity.
Qed.

Lemma append_assoc (a b c : string) : ((a +:+ b) +:+ c = a +:+ (b +:+ c))%string.
Proof.
  induction a as [|x a IH]; [reflexivity|].
  change (String x ((a +:+ b) +:+ c) = String x (a +:+ (b +:+ c))). rewrite IH. reflexivity.
Qed.

Section CommandClaims.

Variable mapped : string -> string.

(** The name of the command is read without regard to the case of its
    ASCII letters; the arguments are left as they are. *)
Theorem ParseCommand_ignores_case (a b : string) (rest : list string) :
  ascii_only a = true -> ascii_only b = true -> same_spelling a b ->
  cli.ParseCommand mapped (a :: rest) = cli.ParseCommand mapped (b :: rest).
Proof.
  intros Ha Hb Hsame. unfold cli.ParseCommand.
  rewrite !ToLower_ascii by assumption. rewrite Hsame. reflexivity.
Qed.

(** What [ParseCommand] returns: a command that [ExecuteCommand] can read,
    or an error that is [ErrInvalidCommand], alone or wrapped. *)
Lemma ParseCommand_cases (args : list string) :
  match cli.ParseCommand mapped args with
  | Ok cmd => valid_command cmd
  | Err err =>
    err = Sentinel ErrInvalidCommand
    \/ exists text, err = WrapCommandError ErrInvalidCommand text
  end.
Proof.
  unfold cli.ParseCommand, valid_command. destruct args as [|arg0 rest]; [left; reflexivity|].
  cbv zeta.
  repeat match goal with
  | |- context [if String.eqb ?a ?b then _ else _] => destruct (String.eqb a b)
  end.
  - destruct (length (arg0 :: rest) <? 2)%nat; [right; eexists; reflexivity|].
    left. split; [reflexivity|]. eexists. reflexivity.
  - right. left. split; reflexivity.
  - destruct rest as [|arg1 [|? ?]]; try (right; eexists; reflexivity).
    destruct (Atoi arg1) as [id [e|]] eqn:Hid; [right; eexists; reflexivity|].
    right. right. left. split; [reflexivity|]. exists arg1, id. split; [reflexivity|exact Hid].
  - destruct rest as [|arg1 [|? ?]]; try (right; eexists; reflexivity).
    destruct (Atoi arg1) as [id [e|]] eqn:Hid; [right; eexists; reflexivity|].
    right. right. right. left. split; [reflexivity|]. exists arg1, id.
    split; [reflexivity|exact Hid].
  - right. right. right. right. split; reflexivity.
  - left. reflexivity.
Qed.

(** Every error of [ParseCommand] is an invalid-command error, and of no
    other kind. *)
Theorem ParseCommand_error_class (args : list string) err :
  cli.ParseCommand mapped args = Err err ->
  IsInvalidCommand err = true
  /\ IsTaskNotFound err = false /\ IsInvalidID err = false
  /\ IsEmptyDescription err = false /\ IsStorageError err = false
  /\ IsInvalidJSON err = false.
Proof.
  intros Hparse. pose proof (ParseCommand_cases args) as Hcases.
  rewrite Hparse in Hcases. destruct Hcases as [->|[text ->]]; repeat split.
Qed.

(** The words after [add] make the description, with one space between
    them, however they were split into arguments. *)
Theorem ParseCommand_add_joins (name d1 d2 : string) (rest : list string) :
  strings.ToLower mapped name = "add"%string ->
  cli.ParseCommand mapped (name :: d1 :: d2 :: rest)
  = Ok {| cli.Name := "add"; cli.Args := [strings.Join (d1 :: d2 :: rest) " "] |}
  /\ cli.ParseCommand mapped (name :: d1 :: d2 :: rest)
     = cli.ParseCommand mapped (name :: (d1 +:+ " " +:+ d2)%string :: rest).
Proof.
  intros Hname. unfold cli.ParseCommand. rewrite Hname. cbn [String.eqb Ascii.eqb Bool.eqb].
  cbn [length Nat.ltb Nat.leb]. split; [reflexivity|]. do 2 f_equal.
  cbn [strings.Join]. destruct rest as [|r rest]; [reflexivity|].
  rewrite !append_assoc. reflexivity.
Qed.

End CommandClaims.


Lemma list_ascii_of_string_append (a b : string) :
  list_ascii_of_string (a +:+ b) = list_ascii_of_string a ++ list_ascii_of_string b.
Proof.
  induction a as [|c a IH]; [reflexivity|].
  change (c :: list_ascii_of_string (a +:+ b)
          = c :: list_ascii_of_string a ++ list_ascii_of_string b).
  rewrite IH. reflexivity.
Qed.

(** [TrimSpace] on text that starts and ends with ASCII bytes that are not
    white space, before a last line feed: the line feed is removed. *)
Lemma trimSpace_last_newline c mid d :
  byteZ c < RuneSelf -> strings.asciiSpace c = false ->
  byteZ d < RuneSelf -> strings.asciiSpace d = false ->
  strings.trimSpace_start (c :: mid ++ [d; ascii_of_nat 10]) = c :: mid ++ [d].
Proof.
  intros Hc Hcs Hd Hds. cbn [strings.trimSpace_start].
  destruct (Z.leb_spec RuneSelf (byteZ c)); [lia|]. rewrite Hcs.
  change (c :: mid ++ [d; ascii_of_nat 10]) with ((c :: mid) ++ [d; ascii_of_nat 10]).
  rewrite rev_app_distr. cbn [rev app strings.trimSpace_stop].
  change (RuneSelf <=? byteZ (ascii_of_nat 10)) with false.
  change (strings.asciiSpace (ascii_of_nat 10)) with true. cbv iota.
  destruct (Z.leb_spec RuneSelf (byteZ d)); [lia|]. rewrite Hds.
  cbn [rev]. rewrite rev_app_distr, rev_involutive. reflexivity.
Qed.

(** The text that the loop of the [list] case builds. *)
Lemma fold_taskLine (ts : list Task) : forall init,
  fold_left (fun output task => (output +:+ cli.taskLine task)%string) ts init
  = (init +:+ String.concat "" (map cli.taskLine ts))%string.
Proof.
  induction ts as [|t ts IH]; intros init; cbn [fold_left map].
  - cbn [String.concat]. induction init as [|c init IHi]; [reflexivity|].
    change (String c init = String c (init +:+ "")). rewrite <- IHi. reflexivity.
  - rewrite IH, append_assoc. f_equal.
    destruct ts as [|t' ts]; [|reflexivity]. cbn [map String.concat].
    induction (cli.taskLine t) as [|c s IHs]; [reflexivity|].
    change (String c (s +:+ "") = String c s). rewrite IHs. reflexivity.
Qed.

Lemma TrimSpace_last_newline (s : string) c mid d :
  list_ascii_of_string s = c :: mid ++ [d; ascii_of_nat 10] ->
  byteZ c < RuneSelf -> strings.asciiSpace c = false ->
  byteZ d < RuneSelf -> strings.asciiSpace d = false ->
  (strings.TrimSpace s +:+ program.newline)%string = s.
Proof.
  intros Hs Hc Hcs Hd Hds. unfold strings.TrimSpace.
  rewrite Hs, trimSpace_last_newline by assumption.
  rewrite <- (string_of_list_ascii_of_string s), Hs.
  rewrite <- (string_of_list_ascii_of_string (_ +:+ _)%string).
  rewrite list_ascii_of_string_append, list_ascii_of_string_of_list_ascii.
  change (list_ascii_of_string program.newline) with [ascii_of_nat 10].
  cbn [app]. rewrite <- app_assoc. reflexivity.
Qed.

Lemma taskLine_end t :
  exists body, list_ascii_of_string (cli.taskLine t) = body ++ [")"%char; ascii_of_nat 10].
Proof.
  unfold cli.taskLine. rewrite !list_ascii_of_string_append.
  eexists. rewrite !app_assoc. rewrite <- app_assoc. reflexivity.
Qed.

Lemma lines_end (ts : list Task) :
  ts <> [] ->
  exists body, list_ascii_of_string (String.concat "" (map cli.taskLine ts))
               = body ++ [")"%char; ascii_of_nat 10].
Proof.
  induction ts as [|t ts IH]; [contradiction|]. intros _.
  destruct ts as [|t' ts].
  - cbn [map String.concat]. apply taskLine_end.
  - destruct (IH ltac:(discriminate)) as (body & Hbody).
    change (String.concat "" (map cli.taskLine (t :: t' :: ts)))
      with (cli.taskLine t +:+ "" +:+ String.concat "" (map cli.taskLine (t' :: ts)))%string.
    rewrite !list_ascii_of_string_append, Hbody. cbn [list_ascii_of_string app].
    eexists. rewrite app_assoc. reflexivity.
Qed.

Section ExecuteClaims.

Context {S W : Type} `{!Storage S W}.

Lemma list_shows_every_task_inv (tl : TodoList S) (args : list string) now (w : W) :
  exists output,
    cli.ExecuteCommand {| cli.Name := "list"; cli.Args := args |} tl now w
    = Some (tl, w, Ok output).
Proof.
  unfold cli.ExecuteCommand. cbn [cli.Name String.eqb Ascii.eqb Bool.eqb].
  destruct (len (ListTasks tl) =? 0); eexists; reflexivity.
Qed.

(** The [list] command changes nothing, and shows the tasks in the order
    of the list: with a line feed after it, its output is the line of
    the header and then the line of every task; without tasks it is a hint. *)
Theorem list_shows_every_task (tl : TodoList S) (args : list string) now (w : W) :
  exists output,
    cli.ExecuteCommand {| cli.Name := "list"; cli.Args := args |} tl now w
    = Some (tl, w, Ok output)
    /\ (elems (Tasks (todolist.list tl)) = [] ->
        output = "No tasks found. Add a task with: todolist add <description>"%string)
    /\ (elems (Tasks (todolist.list tl)) <> [] ->
        (output +:+ program.newline
         = "Your tasks:" +:+ program.newline
           +:+ String.concat "" (map cli.taskLine (elems (Tasks (todolist.list tl)))))%string).
Proof.
  unfold cli.ExecuteCommand. cbn [cli.Name String.eqb Ascii.eqb Bool.eqb].
  unfold ListTasks, len. cbn [elems].
  destruct (elems (Tasks (todolist.list tl))) as [|t ts] eqn:Hts.
  - eexists. split; [reflexivity|]. split; [reflexivity | contradiction].
  - cbn [length]. destruct (Z.eqb_spec (Z.of_nat (Datatypes.S (length ts))) 0); [lia|].
    eexists. split; [reflexivity|]. split; [discriminate|]. intros _.
    rewrite fold_taskLine.
    destruct (lines_end (t :: ts) ltac:(discriminate)) as (body & Hbody).
    apply (TrimSpace_last_newline _ "Y"%char
             (list_ascii_of_string "our tasks:" ++ ascii_of_nat 10 :: body) ")"%char);
      try reflexivity.
    rewrite !list_ascii_of_string_append, Hbody. reflexivity.
Qed.

End ExecuteClaims.


Lemma ToLower_name mapped (name : string) :
  ascii_only name = true ->
  existsb strings.isUpper (list_ascii_of_string name) = false ->
  strings.ToLower mapped name = name.
Proof.
  intros Hascii Hupper. unfold strings.ToLower. unfold ascii_only in Hascii.
  rewrite Hascii, Hupper. reflexivity.
Qed.

Section ParsedCommands.

Context {S W : Type} `{!Storage S W}.

Variable mapped : string -> string.

Lemma valid_command_runs cmd (tl : TodoList S) now (w : W) :
  valid_command cmd ->
  exists tl' w' r, cli.ExecuteCommand cmd tl now w = Some (tl', w', r).
Proof.
  intros Hcmd. unfold cli.ExecuteCommand.
  destruct Hcmd as [(Hn & d & Ha)|[(Hn & Ha)|[(Hn & a & id & Ha & Hid)
                    |[(Hn & a & id & Ha & Hid)|(Hn & Ha)]]]];
    rewrite Hn, ?Ha; cbn [String.eqb Ascii.eqb Bool.eqb].
  - destruct (AddTask tl d now w) as [[tl' w'] [task|err]]; eauto.
  - destruct (len (ListTasks tl) =? 0); eauto.
  - destruct (CompleteTask tl (Atoi a).1 w) as [[tl' w'] [err|]]; eauto.
  - destruct (DeleteTask tl (Atoi a).1 w) as [[tl' w'] [err|]]; eauto.
  - eauto.
Qed.

(** A command that [ParseCommand] returned has the arguments that
    [ExecuteCommand] reads: it runs without a panic. *)
Theorem parsed_command_runs (args : list string) cmd (tl : TodoList S) now (w : W) :
  cli.ParseCommand mapped args = Ok cmd ->
  exists tl' w' r, cli.ExecuteCommand cmd tl now w = Some (tl', w', r).
Proof.
  intros Hparse. apply valid_command_runs.
  pose proof (ParseCommand_cases mapped args) as Hcmd.
  rewrite Hparse in Hcmd. exact Hcmd.
Qed.

(** An ID as the program prints it, given to [done] or [delete], is the
    ID that [CompleteTask] or [DeleteTask] is called with. *)
Theorem printed_ID_is_accepted (id : Z) (tl : TodoList S) now (w : W) :
  GoInt.in_range id ->
  let done := {| cli.Name := "done"; cli.Args := [cli.decimal id] |} in
  let delete := {| cli.Name := "delete"; cli.Args := [cli.decimal id] |} in
  cli.ParseCommand mapped ["done"%string; cli.decimal id] = Ok done
  /\ cli.ParseCommand mapped ["delete"%string; cli.decimal id] = Ok delete
  /\ cli.ExecuteCommand done tl now w
     = Some (match CompleteTask tl id w with
             | (tl', w', Some err) => (tl', w', Err (WrapCommandError err "done"))
             | (tl', w', None) =>
               (tl', w', Ok ("✓ Task " +:+ cli.decimal id +:+ " marked as completed")%string)
             end)
  /\ cli.ExecuteCommand delete tl now w
     = Some (match DeleteTask tl id w with
             | (tl', w', Some err) => (tl', w', Err (WrapCommandError err "delete"))
             | (tl', w', None) =>
               (tl', w', Ok ("✓ Task " +:+ cli.decimal id +:+ " deleted")%string)
             end).
Proof.
  intros Hid done delete. subst done delete. pose proof (Atoi_decimal id Hid) as Hatoi.
  unfold cli.ParseCommand, cli.ExecuteCommand.
  rewrite !ToLower_name by reflexivity.
  cbn [cli.Name cli.Args String.eqb Ascii.eqb Bool.eqb]. rewrite Hatoi. cbn [fst].
  split; [reflexivity|]. split; [reflexivity|]. split.
  - destruct (CompleteTask tl id w) as [[tl' w'] [err|]]; reflexivity.
  - destruct (DeleteTask tl id w) as [[tl' w'] [err|]]; reflexivity.
Qed.

End ParsedCommands.


(** ** Errors of the commands *)

Lemma marshalTask_error depth t e : json.marshalTask depth t = Err e -> external e.
Proof.
  unfold json.marshalTask, json.marshalTime, rfc3339.appendStrictRFC3339.
  repeat match goal with
  | |- context [if ?b then _ else _] => destruct b
  end; intros [= <-]; eexists _, _; reflexivity.
Qed.

Lemma marshalElems_error depth ts : forall first e,
  json.marshalElems depth first ts = Err e -> external e.
Proof.
  induction ts as [|t ts IH]; intros first e; cbn [json.marshalElems]; [discriminate|].
  destruct (json.marshalTask depth t) as [a|e1] eqn:Ht.
  - destruct (json.marshalElems depth false ts) as [b|e2] eqn:Hts; [discriminate|].
    intros [= <-]. exact (IH _ _ Hts).
  - intros [= <-]. exact (marshalTask_error _ _ _ Ht).
Qed.

Lemma MarshalIndent_error l e : json.MarshalIndent l = Err e -> external e.
Proof.
  unfold json.MarshalIndent, json.marshalTasks.
  destruct (Tasks l) as [|[|t ts]]; try discriminate.
  destruct (json.marshalElems 2 true (t :: ts)) as [a|e1] eqn:H; [discriminate|].
  intros [= <-]. exact (marshalElems_error _ _ _ _ H).
Qed.

(** The error of a save of the file store that fails: a storage error and
    nothing else. *)
Lemma Save_error_class fs l w w' err target :
  Save (Storage := stores.fileStorage) fs l w = (w', Some err) ->
  Is err target = bool_decide (ErrStorageWrite = target).
Proof.
  intros Hsave.
  destruct (Save_failure_inv _ _ _ _ _ _ _ Hsave) as (_ & e & -> & He).
  assert (Hext : external e).
  { destruct He as [->|He]; [eexists _, _; reflexivity|].
    exact (MarshalIndent_error _ _ He). }
  destruct Hext as (b & m & ->). cbn [Is WrapStorageWriteError]. apply orb_false_r.
Qed.

Lemma find_cases id (ts : list Task) :
  find_loop id ts 0 = -1 \/ exists pre t post, first_with_id id ts pre t post.
Proof.
  destruct (Z.eq_dec (find_loop id ts 0) (-1)) as [H|H]; [left; exact H|right].
  exact (find_some_first _ _ H).
Qed.

Lemma save_failure_class fs l w w1 e context command :
  Save (Storage := stores.fileStorage) fs l w = (w1, Some e) ->
  let err := WrapCommandError (WrapWithContext e context) command in
  IsInvalidCommand err = false
  /\ IsStorageError err = true
  /\ IsEmptyDescription err || IsInvalidID err || IsTaskNotFound err = false
  /\ forall p, p <> tempFile fs -> os.files w1 !! p = os.files w !! p.
Proof.
  intros Hsave err. subst err.
  unfold IsInvalidCommand, IsStorageError, IsEmptyDescription, IsInvalidID,
    IsTaskNotFound, WrapCommandError, WrapWithContext. cbn [Is].
  rewrite !(Save_error_class _ _ _ _ _ _ Hsave).
  repeat split.
  apply (Save_failure_file _ _ _ _ _ _ _ Hsave).
Qed.

(** The errors of [ExecuteCommand] on the file store, by their kind. *)
Lemma ExecuteCommand_error_cases (cmd : cli.Command) (tl tl' : TodoList FileStorage)
    now (w w' : os.FS) err :
  valid_command cmd ->
  cli.ExecuteCommand (Storage0 := stores.fileStorage) cmd tl now w
  = Some (tl', w', Err err) ->
  IsInvalidCommand err = false
  /\ ((IsEmptyDescription err || IsInvalidID err || IsTaskNotFound err = true
       /\ IsStorageError err = false /\ tl' = tl /\ w' = w)
      \/ (IsStorageError err = true
          /\ IsEmptyDescription err || IsInvalidID err || IsTaskNotFound err = false
          /\ forall p, p <> tempFile (storage tl) ->
                       os.files w' !! p = os.files w !! p)).
Proof.
  intros Hcmd. unfold cli.ExecuteCommand.
  destruct Hcmd as [(Hn & d & Ha)|[(Hn & Ha)|[(Hn & a & id & Ha & Hid)
                    |[(Hn & a & id & Ha & Hid)|(Hn & Ha)]]]];
    rewrite Hn, ?Ha; cbn [String.eqb Ascii.eqb Bool.eqb].
  - unfold AddTask. destruct (String.eqb _ _).
    { intros [= <- <- <-]. split; [reflexivity|]. left. repeat split. }
    destruct (Save _ _ _) as [w1 [e|]] eqn:Hsave; [|discriminate].
    intros [= <- <- <-].
    destruct (save_failure_class _ _ _ _ _ "failed to save task after adding" "add" Hsave)
      as (H1 & H2 & H3 & H4).
    split; [exact H1|]. right. split; [exact H2|]. split; [exact H3 | exact H4].
  - destruct (len (ListTasks tl) =? 0); discriminate.
  - rewrite Hid. cbn [fst].
    destruct (Z.le_gt_cases id 0) as [Hle|Hpos].
    { unfold CompleteTask. destruct (Z.leb_spec id 0); [|lia].
      intros [= <- <- <-]. split; [reflexivity|]. left. repeat split. }
    destruct (find_cases id (elems (Tasks (todolist.list tl))))
      as [Hnone|(pre & t & post & Hfirst)].
    { unfold CompleteTask, find. destruct (Z.leb_spec id 0); [lia|]. rewrite Hnone.
      intros [= <- <- <-]. split; [reflexivity|]. left. repeat split. }
    rewrite (CompleteTask_first (Storage0 := stores.fileStorage) _ _ _ _ _ _ Hpos Hfirst).
    destruct (Save _ _ _) as [w1 [e|]] eqn:Hsave; [|discriminate].
    intros [= <- <- <-].
    destruct (save_failure_class _ _ _ _ _ "failed to save task after completing" "done"
                Hsave) as (H1 & H2 & H3 & H4).
    split; [exact H1|]. right. split; [exact H2|]. split; [exact H3 | exact H4].
  - rewrite Hid. cbn [fst].
    destruct (Z.le_gt_cases id 0) as [Hle|Hpos].
    { unfold DeleteTask. destruct (Z.leb_spec id 0); [|lia].
      intros [= <- <- <-]. split; [reflexivity|]. left. repeat split. }
    destruct (find_cases id (elems (Tasks (todolist.list tl))))
      as [Hnone|(pre & t & post & Hfirst)].
    { unfold DeleteTask, find. destruct (Z.leb_spec id 0); [lia|]. rewrite Hnone.
      intros [= <- <- <-]. split; [reflexivity|]. left. repeat split. }
    rewrite (DeleteTask_first (Storage0 := stores.fileStorage) _ _ _ _ _ _ Hpos Hfirst).
    destruct (Save _ _ _) as [w1 [e|]] eqn:Hsave; [|discriminate].
    intros [= <- <- <-].
    destruct (save_failure_class _ _ _ _ _ "failed to save task after deleting" "delete"
                Hsave) as (H1 & H2 & H3 & H4).
    split; [exact H1|]. right. split; [exact H2|]. split; [exact H3 | exact H4].
  - discriminate.
Qed.

(** The errors of a parsed command on the file store: a request that the
    service refuses (a blank description, an ID that is not positive, an ID
    that no task has) changes neither the service nor the file system; any
    other error is a storage error, and every file but the temporary file
    of the store is as before.  None is an invalid-command error. *)
Theorem ExecuteCommand_error_class (mapped : string -> string) (args : list string)
    (cmd : cli.Command) (tl tl' : TodoList FileStorage) now (w w' : os.FS) err :
  cli.ParseCommand mapped args = Ok cmd ->
  cli.ExecuteCommand (Storage0 := stores.fileStorage) cmd tl now w
  = Some (tl', w', Err err) ->
  IsInvalidCommand err = false
  /\ ((IsEmptyDescription err || IsInvalidID err || IsTaskNotFound err = true
       /\ IsStorageError err = false /\ tl' = tl /\ w' = w)
      \/ (IsStorageError err = true
          /\ IsEmptyDescription err || IsInvalidID err || IsTaskNotFound err = false
          /\ forall p, p <> tempFile (storage tl) ->
                       os.files w' !! p = os.files w !! p)).
Proof.
  intros Hparse. apply ExecuteCommand_error_cases.
  pose proof (ParseCommand_cases mapped args) as Hcmd.
  rewrite Hparse in Hcmd. exact Hcmd.
Qed.


(** ** The program *)

Lemma NewTodoList_cases (fs : FileStorage) (w : os.FS) :
  (exists e, Load (Storage := stores.fileStorage) fs w = (w, Err e)
             /\ NewTodoList (Storage0 := stores.fileStorage) fs w
                = (w, Err (WrapWithContext e "failed to initialize todo list")))
  \/ (exists l, Load (Storage := stores.fileStorage) fs w = (w, Ok l)
                /\ NewTodoList (Storage0 := stores.fileStorage) fs w
                   = (w, Ok {| todolist.list := l; storage := fs |})).
Proof.
  unfold NewTodoList.
  destruct (Load (Storage := stores.fileStorage) fs w) as [w' r] eqn:Hload.
  pose proof (Load_world _ _ _ _ _ _ Hload) as ->.
  destruct r as [l|e]; [right|left]; eauto.
Qed.

(** The errors of [Load] on the file store. *)
Lemma Load_error_cases (fs : FileStorage) (w w' : os.FS) err :
  Load (Storage := stores.fileStorage) fs w = (w', Err err) ->
  (exists e, err = WrapStorageReadError (Join ErrStorageRead e) (filepath fs)
             /\ external e /\ (filepath fs ∈ os.denied w))
  \/ (exists data e, err = WrapJSONError (Join ErrInvalidJSON e) (filepath fs)
                     /\ external e /\ (filepath fs ∉ os.denied w)
                     /\ os.files w !! filepath fs = Some data
                     /\ json.Unmarshal data = Err e).
Proof.
  cbn [Load stores.fileStorage FileStorage_Storage]. unfold FileStorage_Load, os.ReadFile.
  destruct (bool_decide (filepath fs ∈ os.denied w)) eqn:Hden.
  - apply bool_decide_eq_true_1 in Hden. cbn. intros [= <- <-]. left.
    eexists. split; [reflexivity|]. split; [eexists _, _; reflexivity|exact Hden].
  - apply bool_decide_eq_false_1 in Hden.
    destruct (os.files w !! filepath fs) as [data|] eqn:Hfile; [|cbn; discriminate].
    destruct (json.Unmarshal data) as [l|e] eqn:Hdec; [intros [= _ H]; discriminate|].
    intros [= <- <-]. right. exists data, e. split; [reflexivity|].
    split; [|auto].
    revert Hdec. unfold json.Unmarshal.
    destruct (json.decodeTaskList _ _) as [[l rest]|].
    + destruct (json.skipSpace rest); [discriminate|]. intros [= <-]. eexists _, _; reflexivity.
    + intros [= <-]. eexists _, _; reflexivity.
Qed.

(** A start that fails: the file could not be read, which is a storage
    error, or it holds something else than a list of tasks in JSON, which
    is an invalid-JSON error; never both, and nothing else.  A file that
    does not exist is no error. *)
Theorem NewTodoList_error_class (fs : FileStorage) (w w' : os.FS) err :
  NewTodoList (Storage0 := stores.fileStorage) fs w = (w', Err err) ->
  w' = w
  /\ ((IsStorageError err = true /\ IsInvalidJSON err = false
       /\ (filepath fs ∈ os.denied w))
      \/ (IsInvalidJSON err = true /\ IsStorageError err = false
          /\ (filepath fs ∉ os.denied w)
          /\ exists data e, os.files w !! filepath fs = Some data
                            /\ json.Unmarshal data = Err e))
  /\ IsInvalidCommand err = false
  /\ IsEmptyDescription err || IsInvalidID err || IsTaskNotFound err = false.
Proof.
  intros Hnew.
  destruct (NewTodoList_cases fs w) as [(e & Hload & H)|(l & _ & H)];
    rewrite H in Hnew; [|discriminate].
  injection Hnew as <- <-. split; [reflexivity|].
  unfold IsStorageError, IsInvalidJSON, IsInvalidCommand, IsEmptyDescription,
    IsInvalidID, IsTaskNotFound.
  destruct (Load_error_cases _ _ _ _ Hload)
    as [(e' & -> & (b & m & ->) & Hden)|(data & e' & -> & (b & m & ->) & Hden & Hfile & Hdec)].
  - split; [left|]; repeat split; exact Hden.
  - split; [right|]; repeat split; [exact Hden|]. exists data, (External b m). auto.
Qed.

Section ProgramClaims.

Variable mapped : string -> string.
Variable filepath_Join : string -> string -> string.

Let path (homeDir : string) : string := filepath_Join homeDir ".todolist.json".

(** When the list cannot be loaded, the program fails before it reads its
    arguments, [help] included: it writes nothing to the file system and to
    the standard output, exits with status 1, and reports the error with
    the context that [NewTodoList] has added and that [main] adds again. *)
Theorem main_load_failure (homeDir : string) (args : list string) now (w : os.FS) e :
  Load (Storage := stores.fileStorage) (NewFileStorage (path homeDir)) w = (w, Err e) ->
  program.main mapped filepath_Join (Ok homeDir) args now w
  = Some (w, {| program.stdout := "";
                program.stderr :=
                  "Error: failed to initialize todo list: "
                  +:+ "failed to initialize todo list: " +:+ Error e
                  +:+ program.newline;
                program.code := 1 |}).
Proof.
  intros Hload. unfold program.main. fold (path homeDir).
  destruct (NewTodoList_cases (NewFileStorage (path homeDir)) w)
    as [(e' & Hload' & ->)|(l & Hload' & _)]; rewrite Hload in Hload'; [|discriminate].
  injection Hload' as <-. reflexivity.
Qed.

(** The program ends without a panic, with status 0 and nothing on the
    standard error, or with status 1 and nothing on the standard output;
    with status 1, every file but the temporary file of the store is as it
    was before the run. *)
Theorem main_failure_keeps_files (home : result string) (args : list string) now
    (w : os.FS) :
  exists w' e,
    program.main mapped filepath_Join home args now w = Some (w', e)
    /\ ((program.code e = 0 /\ program.stderr e = ""%string)
        \/ (program.code e = 1 /\ program.stdout e = ""%string
            /\ forall p,
                 (forall homeDir, home = Ok homeDir -> p <> path homeDir +:+ ".tmp") ->
                 os.files w' !! p = os.files w !! p)).
Proof.
  unfold program.main. destruct home as [homeDir|e0].
  2:{ eexists _, _. split; [reflexivity|]. right. repeat split. }
  fold (path homeDir).
  destruct (NewTodoList_cases (NewFileStorage (path homeDir)) w)
    as [(e & _ & ->)|(l & _ & ->)].
  { eexists _, _. split; [reflexivity|]. right. repeat split. }
  set (args' := if (length args =? 0)%nat then ["help"%string] else args).
  pose proof (ParseCommand_cases mapped args') as Hcases.
  destruct (cli.ParseCommand mapped args') as [cmd|e].
  2:{ eexists _, _. split; [reflexivity|]. right. repeat split. }
  set (tl := {| todolist.list := l; storage := NewFileStorage (path homeDir) |}).
  destruct (valid_command_runs (Storage0 := stores.fileStorage) cmd tl now w Hcases)
    as (tl' & w' & r & Hrun).
  rewrite Hrun. destruct r as [output|e].
  { eexists _, _. split; [reflexivity|]. left. split; reflexivity. }
  eexists _, _. split; [reflexivity|]. right. split; [reflexivity|].
  split; [reflexivity|]. intros p Hp. specialize (Hp homeDir eq_refl).
  destruct (ExecuteCommand_error_cases _ _ _ _ _ _ _ Hcases Hrun)
    as (_ & [(_ & _ & _ & ->)|(_ & _ & Hfiles)]); [reflexivity|].
  apply Hfiles. exact Hp.
Qed.

(** [help], which is also what the program does without arguments, and
    [list] write nothing to the file system and end with status 0; the
    arguments after the name are not read. *)
Theorem main_help_and_list (homeDir : string) (rest : list string) now (w : os.FS) l :
  Load (Storage := stores.fileStorage) (NewFileStorage (path homeDir)) w = (w, Ok l) ->
  program.main mapped filepath_Join (Ok homeDir) [] now w
  = Some (w, program.succeed cli.getHelpText)
  /\ (forall name,
        strings.ToLower mapped name = "help"%string ->
        program.main mapped filepath_Join (Ok homeDir) (name :: rest) now w
        = Some (w, program.succeed cli.getHelpText))
  /\ (forall name,
        strings.ToLower mapped name = "list"%string ->
        exists output,
          program.main mapped filepath_Join (Ok homeDir) (name :: rest) now w
          = Some (w, program.succeed output)).
Proof.
  intros Hload. unfold program.main. fold (path homeDir).
  destruct (NewTodoList_cases (NewFileStorage (path homeDir)) w)
    as [(e' & Hload' & _)|(l' & Hload' & ->)]; rewrite Hload in Hload'; [discriminate|].
  injection Hload' as <-. split; [reflexivity|]. split.
  - intros name Hname.
    cbn [length Nat.eqb]. unfold cli.ParseCommand. rewrite Hname. reflexivity.
  - intros name Hname.
    cbn [length Nat.eqb]. unfold cli.ParseCommand. rewrite Hname.
    cbn [String.eqb Ascii.eqb Bool.eqb].
    destruct (list_shows_every_task_inv (Storage0 := stores.fileStorage)
                {| todolist.list := l; storage := NewFileStorage (path homeDir) |} [] now w)
      as (output & ->). eexists. reflexivity.
Qed.

(** The first run of [add]: where there is no file yet and the file and
    its temporary file can be written, the program adds the task with ID 1,
    says so, and ends with status 0; a later [Load] returns the list with
    this one task and 2 as the next ID. *)
Theorem main_first_add (homeDir description : string) now (w : os.FS) :
  let fs := NewFileStorage (path homeDir) in
  filepath fs ∉ os.denied w -> tempFile fs ∉ os.denied w ->
  os.files w !! filepath fs = None ->
  strings.TrimSpace description <> ""%string ->
  ValidString description = true -> encodable now = true ->
  exists w',
    program.main mapped filepath_Join (Ok homeDir) ["add"%string; description] now w
    = Some (w', program.succeed ("✓ Task added: [1] " +:+ description))
    /\ Load (Storage := stores.fileStorage) fs w'
       = (w', Ok {| Tasks := Slice [{| ID := 1; Description := description;
                                       Completed := false; CreatedAt := wall now |}];
                    NextID := 2 |}).
Proof.
  intros fs Hpath Htmp Hnone Hblank Hvalid Htime.
  set (task := {| ID := 1; Description := description; Completed := false;
                  CreatedAt := now |}).
  set (l := {| Tasks := Slice [task]; NextID := 2 |}).
  assert (Hl : storable l).
  { split; [|vm_compute; split; discriminate].
    constructor; [|constructor]. split; [vm_compute; split; discriminate|].
    split; assumption. }
  destruct (Unmarshal_MarshalIndent l Hl) as (data & Hdata & _).
  pose proof (Save_ok json.MarshalIndent json.Unmarshal fs l w data Hdata Hpath Htmp)
    as Hsave.
  change (Save fs l w) with (Save (Storage := stores.fileStorage) fs l w) in Hsave.
  eexists. split.
  - unfold program.main. fold (path homeDir). fold fs.
    pose proof (Load_missing json.MarshalIndent json.Unmarshal fs w Hpath Hnone)
      as Hfirst.
    destruct (NewTodoList_cases fs w) as [(e & Hload & _)|(l0 & Hload & ->)];
      change (Load fs w) with (Load (Storage := stores.fileStorage) fs w) in Hfirst;
      rewrite Hfirst in Hload; [discriminate|].
    injection Hload as <-.
    cbn [length Nat.eqb]. unfold cli.ParseCommand.
    rewrite ToLower_name by reflexivity.
    cbn [String.eqb Ascii.eqb Bool.eqb length Nat.ltb Nat.leb strings.Join].
    unfold cli.ExecuteCommand. cbn [cli.Name cli.Args String.eqb Ascii.eqb Bool.eqb].
    rewrite (AddTask_nonblank (Storage0 := stores.fileStorage)) by assumption.
    change (todolist.list (with_new_task _ description now)) with l.
    cbn [storage]. rewrite Hsave. reflexivity.
  - exact (Load_after_Save _ _ _ _ Hsave Hl).
Qed.

End ProgramClaims.


(** ** The further properties on sample values *)

(** A save of three tasks over the file of two: on a full disk, where the
    write leaves an empty temporary file behind, and where the file cannot
    be replaced and the temporary file is removed again.  The file keeps
    the two tasks. *)
Lemma Save_failure_keeps_file_witness :
  let l := todolist.list sample.with_third in
  let full := (FileStorage_Save_with json.MarshalIndent sample.short_write
                 sample.store l sample.saved_disk).1 in
  let locked := (Save (Storage := stores.fileStorage) sample.store l
                   sample.locked_disk).1 in
  exists data,
    json.MarshalIndent sample.two_tasks = Ok data
    /\ os.files full !! tempFile sample.store = Some ""%string
    /\ os.files full !! filepath sample.store = Some data
    /\ os.files locked !! tempFile sample.store = None
    /\ os.files locked !! filepath sample.store = Some data.
Proof.
  intros l full locked. eexists.
  split; [vm_compute; reflexivity|].
  split; [vm_compute; reflexivity|]. split; [|split; [vm_compute; reflexivity|]].
  - rewrite (proj1 (Save_failure_keeps_file json.MarshalIndent sample.short_write
               sample.store l sample.saved_disk full
               (WrapStorageWriteError
                  (Join ErrStorageWrite (External false "no space left on device"))
                  "todo.json")
               short_write_touches_only_named ltac:(vm_compute; reflexivity))).
    vm_compute. reflexivity.
  - rewrite (proj1 (Save_failure_keeps_file json.MarshalIndent os.WriteFile
               sample.store l sample.locked_disk locked sample.write_refused
               WriteFile_touches_only_named ltac:(vm_compute; reflexivity))).
    vm_compute. reflexivity.
Defined.

Lemma Save_success_writes_file_witness :
  exists data,
    json.MarshalIndent sample.two_tasks = Ok data
    /\ os.files sample.saved_disk !! filepath sample.store = Some data
    /\ os.files sample.saved_disk !! tempFile sample.store = None
    /\ (forall p, p <> filepath sample.store -> p <> tempFile sample.store ->
                  os.files sample.saved_disk !! p = os.files sample.empty_disk !! p)
    /\ os.denied sample.saved_disk = os.denied sample.empty_disk.
Proof.
  apply (Save_success_writes_file json.MarshalIndent json.Unmarshal sample.store
           sample.two_tasks sample.empty_disk sample.saved_disk).
  vm_compute. reflexivity.
Defined.

Lemma Load_reads_only_witness :
  sample.odd_disk = sample.odd_disk
  /\ (forall l, Ok sample.odd_list = Ok l -> Tasks l <> nil_slice)
  /\ (filepath sample.store ∉ os.denied sample.odd_disk ->
      os.files sample.odd_disk !! filepath sample.store = None ->
      Ok sample.odd_list = Ok {| Tasks := Slice []; NextID := 1 |}).
Proof.
  apply (Load_reads_only json.MarshalIndent json.Unmarshal sample.store sample.odd_disk
           sample.odd_disk (Ok sample.odd_list)).
  vm_compute. reflexivity.
Defined.

Lemma restart_after_success_witness :
  NewTodoList (Storage0 := stores.fileStorage) (storage sample.with_third) sample.third_disk
  = (sample.third_disk, Ok {| todolist.list := restored (todolist.list sample.with_third);
                       storage := storage sample.with_third |}).
Proof.
  apply (restart_after_success sample.on_file sample.empty_disk
           (Add "water plants" sample.noon) sample.with_third sample.third_disk [Assigned 3]).
  - vm_compute. reflexivity.
  - split; [|vm_compute; split; discriminate].
    repeat constructor; vm_compute; discriminate.
Defined.

Lemma two_tasks_well_formed : well_formed sample.two_tasks.
Proof.
  split; [|split; [|split]].
  - repeat constructor.
  - repeat constructor.
  - reflexivity.
  - vm_compute. split; discriminate.
Qed.

Lemma calls_keep_well_formed_witness :
  well_formed (todolist.list (after (Storage0 := stores.mock) (Delete 1) sample.on_mock None).1)
  /\ NextID (todolist.list sample.on_mock)
     <= NextID (todolist.list (after (Storage0 := stores.mock) (Delete 1) sample.on_mock None).1)
     <= NextID (todolist.list sample.on_mock) + 1.
Proof.
  apply (calls_keep_well_formed (Storage0 := stores.mock) (Delete 1) sample.on_mock None).
  - exact two_tasks_well_formed.
  - reflexivity.
Defined.

Lemma new_ID_designates_new_task_witness :
  let tl1 := with_new_task sample.on_mock "water plants" sample.noon in
  let task := new_task sample.on_mock "water plants" sample.noon in
  let old := elems (Tasks (todolist.list sample.on_mock)) in
  (forall w2,
     Save (Storage := stores.mock) (storage tl1)
          (todolist.list (with_tasks tl1 (old ++ [set_Completed true task])))
          (Some (todolist.list tl1))
     = (w2, None) ->
     CompleteTask (Storage0 := stores.mock) tl1 (ID task) (Some (todolist.list tl1))
     = (with_tasks tl1 (old ++ [set_Completed true task]), w2, None))
  /\ (forall w2,
        Save (Storage := stores.mock) (storage tl1) (todolist.list (with_tasks tl1 old))
             (Some (todolist.list tl1))
        = (w2, None) ->
        DeleteTask (Storage0 := stores.mock) tl1 (ID task) (Some (todolist.list tl1))
        = (with_tasks tl1 old, w2, None)
        /\ NextID (todolist.list (with_tasks tl1 old))
           = GoInt.incr (NextID (todolist.list sample.on_mock))).
Proof.
  apply (new_ID_designates_new_task (Storage0 := stores.mock) sample.on_mock
           "water plants" sample.noon None).
  - exact two_tasks_well_formed.
  - vm_compute. reflexivity.
Defined.

Lemma task_without_valid_ID_witness :
  let tl1 := with_new_task sample.unnumbered "water plants" sample.noon in
  let task := new_task sample.unnumbered "water plants" sample.noon in
  task ∈ elems (Tasks (todolist.list tl1))
  /\ forall w2,
       CompleteTask (Storage0 := stores.mock) tl1 (ID task) w2
       = (tl1, w2, Some (Sentinel ErrInvalidID))
       /\ DeleteTask (Storage0 := stores.mock) tl1 (ID task) w2
          = (tl1, w2, Some (Sentinel ErrInvalidID)).
Proof.
  apply (task_without_valid_ID (Storage0 := stores.mock) sample.unnumbered "water plants"
           sample.noon None _ (Some (todolist.list
                                       (with_new_task sample.unnumbered "water plants" sample.noon)))).
  - vm_compute. discriminate.
  - vm_compute. reflexivity.
Defined.

Lemma deleted_ID_not_found_witness :
  let tl1 := with_tasks sample.on_mock [sample.task2] in
  CompleteTask (Storage0 := stores.mock) tl1 1 None
  = (tl1, None, Some (Sentinel ErrTaskNotFound))
  /\ DeleteTask (Storage0 := stores.mock) tl1 1 None
     = (tl1, None, Some (Sentinel ErrTaskNotFound)).
Proof.
  apply (deleted_ID_not_found (Storage0 := stores.mock) sample.on_mock 1 None _
           (Some (todolist.list (with_tasks sample.on_mock [sample.task2])))).
  - exact two_tasks_well_formed.
  - vm_compute. reflexivity.
Defined.

Lemma ParseCommand_ignores_case_witness :
  cli.ParseCommand sample.unmapped ["LiSt"%string; "all"%string]
  = cli.ParseCommand sample.unmapped ["list"%string; "all"%string].
Proof.
  apply (ParseCommand_ignores_case sample.unmapped "LiSt" "list" ["all"%string]);
    reflexivity.
Defined.

Lemma ParseCommand_error_class_witness :
  let err := WrapCommandError ErrInvalidCommand "task ID must be a valid number" in
  IsInvalidCommand err = true
  /\ IsTaskNotFound err = false /\ IsInvalidID err = false
  /\ IsEmptyDescription err = false /\ IsStorageError err = false
  /\ IsInvalidJSON err = false.
Proof.
  apply (ParseCommand_error_class sample.unmapped ["done"%string; "1.5"%string]).
  reflexivity.
Defined.

Lemma ParseCommand_add_joins_witness :
  cli.ParseCommand sample.unmapped ["Add"%string; "buy"%string; "milk"%string]
  = Ok {| cli.Name := "add"; cli.Args := [strings.Join ["buy"; "milk"]%string " "] |}
  /\ cli.ParseCommand sample.unmapped ["Add"%string; "buy"%string; "milk"%string]
     = cli.ParseCommand sample.unmapped ["Add"%string; ("buy" +:+ " " +:+ "milk")%string].
Proof.
  apply (ParseCommand_add_joins sample.unmapped "Add" "buy" "milk" []). reflexivity.
Defined.

Lemma parsed_command_runs_witness :
  exists tl' w' r,
    cli.ExecuteCommand (Storage0 := stores.mock)
      {| cli.Name := "done"; cli.Args := ["2"%string] |} sample.on_mock sample.noon None
    = Some (tl', w', r).
Proof.
  apply (parsed_command_runs (Storage0 := stores.mock) sample.unmapped
           ["DONE"%string; "2"%string]).
  reflexivity.
Defined.

Lemma printed_ID_is_accepted_witness :
  let done := {| cli.Name := "done"; cli.Args := [cli.decimal 2] |} in
  let delete := {| cli.Name := "delete"; cli.Args := [cli.decimal 2] |} in
  cli.ParseCommand sample.unmapped ["done"%string; cli.decimal 2] = Ok done
  /\ cli.ParseCommand sample.unmapped ["delete"%string; cli.decimal 2] = Ok delete
  /\ cli.ExecuteCommand (Storage0 := stores.mock) done sample.on_mock sample.noon None
     = Some (match CompleteTask (Storage0 := stores.mock) sample.on_mock 2 None with
             | (tl', w', Some err) => (tl', w', Err (WrapCommandError err "done"))
             | (tl', w', None) =>
               (tl', w', Ok ("✓ Task " +:+ cli.decimal 2 +:+ " marked as completed")%string)
             end)
  /\ cli.ExecuteCommand (Storage0 := stores.mock) delete sample.on_mock sample.noon None
     = Some (match DeleteTask (Storage0 := stores.mock) sample.on_mock 2 None with
             | (tl', w', Some err) => (tl', w', Err (WrapCommandError err "delete"))
             | (tl', w', None) =>
               (tl', w', Ok ("✓ Task " +:+ cli.decimal 2 +:+ " deleted")%string)
             end).
Proof.
  apply (printed_ID_is_accepted (Storage0 := stores.mock) sample.unmapped 2 sample.on_mock
           sample.noon None).
  vm_compute. split; discriminate.
Defined.

Lemma ExecuteCommand_error_class_witness :
  let err := WrapCommandError ErrTaskNotFound "done" in
  IsInvalidCommand err = false
  /\ ((IsEmptyDescription err || IsInvalidID err || IsTaskNotFound err = true
       /\ IsStorageError err = false /\ sample.on_file = sample.on_file
       /\ sample.empty_disk = sample.empty_disk)
      \/ (IsStorageError err = true
          /\ IsEmptyDescription err || IsInvalidID err || IsTaskNotFound err = false
          /\ forall p, p <> tempFile (storage sample.on_file) ->
                       os.files sample.empty_disk !! p = os.files sample.empty_disk !! p)).
Proof.
  apply (ExecuteCommand_error_class sample.unmapped ["done"%string; "9"%string]
           {| cli.Name := "done"; cli.Args := ["9"%string] |}
           sample.on_file sample.on_file sample.noon sample.empty_disk sample.empty_disk).
  - reflexivity.
  - vm_compute. reflexivity.
Defined.

Lemma NewTodoList_error_class_witness :
  let fs := NewFileStorage (sample.join sample.home ".todolist.json") in
  let err := WrapWithContext sample.broken "failed to initialize todo list" in
  let w := sample.broken_disk in
  NewTodoList (Storage0 := stores.fileStorage) fs w = (w, Err err)
  /\ IsInvalidJSON err = true /\ IsStorageError err = false
  /\ IsInvalidCommand err = false.
Proof.
  assert (H : NewTodoList (Storage0 := stores.fileStorage)
                (NewFileStorage (sample.join sample.home ".todolist.json"))
                sample.broken_disk
              = (sample.broken_disk,
                 Err (WrapWithContext sample.broken "failed to initialize todo list")))
    by (vm_compute; reflexivity).
  split; [exact H|].
  destruct (NewTodoList_error_class _ _ _ _ H) as (_ & [(_ & Hj & _)|(Hj & Hs & _)] & Hc & _).
  - vm_compute in Hj. discriminate.
  - split; [exact Hj|]. split; [exact Hs|exact Hc].
Defined.

Lemma main_load_failure_witness :
  program.main sample.unmapped sample.join (Ok sample.home) ["help"%string] sample.noon sample.broken_disk
  = Some (sample.broken_disk,
          {| program.stdout := "";
             program.stderr :=
               "Error: failed to initialize todo list: "
               +:+ "failed to initialize todo list: " +:+ Error sample.broken
               +:+ program.newline;
             program.code := 1 |}).
Proof.
  apply (main_load_failure sample.unmapped sample.join sample.home ["help"%string] sample.noon sample.broken_disk
           sample.broken).
  vm_compute. reflexivity.
Defined.

Lemma main_help_and_list_witness :
  program.main sample.unmapped sample.join (Ok sample.home) [] sample.noon sample.empty_disk
  = Some (sample.empty_disk, program.succeed cli.getHelpText)
  /\ (forall name,
        strings.ToLower sample.unmapped name = "help"%string ->
        program.main sample.unmapped sample.join (Ok sample.home) [name; "me"%string] sample.noon
          sample.empty_disk
        = Some (sample.empty_disk, program.succeed cli.getHelpText))
  /\ (forall name,
        strings.ToLower sample.unmapped name = "list"%string ->
        exists output,
          program.main sample.unmapped sample.join (Ok sample.home) [name; "me"%string] sample.noon
            sample.empty_disk
          = Some (sample.empty_disk, program.succeed output)).
Proof.
  apply (main_help_and_list sample.unmapped sample.join sample.home ["me"%string] sample.noon
           sample.empty_disk {| Tasks := Slice []; NextID := 1 |}).
  vm_compute. reflexivity.
Defined.

Lemma main_first_add_witness :
  exists w',
    program.main sample.unmapped sample.join (Ok sample.home) ["add"%string; "buy milk"%string] sample.noon
      sample.empty_disk
    = Some (w', program.succeed ("✓ Task added: [1] " +:+ "buy milk"))
    /\ Load (Storage := stores.fileStorage) (NewFileStorage (sample.join sample.home ".todolist.json")) w'
       = (w', Ok {| Tasks := Slice [{| ID := 1; Description := "buy milk";
                                       Completed := false;
                                       CreatedAt := wall sample.noon |}];
                    NextID := 2 |}).
Proof.
  apply (main_first_add sample.unmapped sample.join sample.home "buy milk" sample.noon sample.empty_disk).
  - apply not_elem_of_empty.
  - apply not_elem_of_empty.
  - reflexivity.
  - vm_compute. discriminate.
  - reflexivity.
  - reflexivity.
Defined.

